(** * AT24Cxx serial EEPROM driver: a shallow embedding of AT24Cxx.c / AT24Cxx.h

    The C integers are modelled by [Z] with the wrap-around of each width
    written out; the device handle is a record; the two-wire transport the
    driver talks to (bus_i2c.h, an external collaborator) is a record of
    functions over an abstract world [W]. *)

From Stdlib Require Import ZArith List Lia Bool.
Import ListNotations.
Local Open Scope Z_scope.

(** ** Machine integers *)

(** Conversion to [uint8_t], [uint16_t], [uint32_t]: reduction modulo 2^w. *)
Definition uint8_t (x : Z) : Z := x mod 2 ^ 8.
Definition uint16_t (x : Z) : Z := x mod 2 ^ 16.
Definition uint32_t (x : Z) : Z := x mod 2 ^ 32.

(** ** Tool macros of AT24Cxx.c *)

(** [#define rbit(val, x) (((val) & (1<<(x)))>>(x))] *)
Definition rbit (val x : Z) : Z := Z.shiftr (Z.land val (Z.shiftl 1 x)) x.

(** [#define min(a, b) (((a) < (b)) ? (a) : (b))] *)
Definition min (a b : Z) : Z := if a <? b then a else b.

(** [#define max(a, b) (((a) > (b)) ? (a) : (b))] *)
Definition max (a b : Z) : Z := if a >? b then a else b.

(** Modelled from the spec: the byte selectors [LSB_16] and [MSB_16] come from
    bus_i2c.h, which is not part of the sources; the encoder "emits the low
    16 bits as two word-address bytes (high byte first)" and "the low 8 bits
    as the single word-address byte". *)
Definition LSB_16 (x : Z) : Z := Z.land x 0xFF.
Definition MSB_16 (x : Z) : Z := Z.land (Z.shiftr x 8) 0xFF.

(** ** Constants of AT24Cxx.h *)

Definition AT24Cxx_MAX_ERASE_SIZE : Z := 10.
Definition AT24Cxx_MAX_COMPARE_SIZE : Z := 10.

(** ** Chip models *)

Inductive AT24Cxx_CHIP : Set :=
| AT24C01 | AT24C02 | AT24C04 | AT24C08 | AT24C16 | AT24C32
| AT24C64 | AT24C128 | AT24C256 | AT24C512 | AT24CM01 | AT24CM02.

(** The enumerators' values, used by the comparison [type >= AT24C32]. *)
Definition chip_val (t : AT24Cxx_CHIP) : Z :=
  match t with
  | AT24C01 => 0x01 | AT24C02 => 0x02 | AT24C04 => 0x03 | AT24C08 => 0x04
  | AT24C16 => 0x05 | AT24C32 => 0x06 | AT24C64 => 0x07 | AT24C128 => 0x08
  | AT24C256 => 0x09 | AT24C512 => 0x0A | AT24CM01 => 0x0B | AT24CM02 => 0x0C
  end.

Definition chip_eqb (a b : AT24Cxx_CHIP) : bool := chip_val a =? chip_val b.

(** Byte capacity of each model: the "Byte" column of the table that heads
    AT24Cxx.c (0x00000 - 0x0007F for AT24C01, ..., 0x00000 - 0x3FFFF for
    AT24CM02). *)
Definition capacity (t : AT24Cxx_CHIP) : Z :=
  match t with
  | AT24C01 => 0x80 | AT24C02 => 0x100 | AT24C04 => 0x200 | AT24C08 => 0x400
  | AT24C16 => 0x800 | AT24C32 => 0x1000 | AT24C64 => 0x2000
  | AT24C128 => 0x4000 | AT24C256 => 0x8000 | AT24C512 => 0x10000
  | AT24CM01 => 0x20000 | AT24CM02 => 0x40000
  end.

(** ** Device info *)

(** [AT24Cxx_INFO_t]. The union [i2caddr] is kept as its [byte] member; the
    bit-field views are accessor functions on that byte. Bit-fields are laid
    out from the least significant bit, as the header's comments state
    (bit 0 is R/W, [wordaddr.bit0..bit2] and [hardaddr.bit] are bits 1 to 3,
    [devtype.bit] is the top nibble "1 0 1 0"). *)
Record AT24Cxx_INFO_t : Type := mkInfo {
  type : AT24Cxx_CHIP;
  i2caddr : Z;       (* uint8_t byte *)
  pagesize : Z       (* uint16_t *)
}.

(** Store [v] into the bit-field of [width] bits at position [pos] of an
    8-bit storage unit: the value is truncated to the field's width and the
    other bits are kept. *)
Definition set_field (byte pos width v : Z) : Z :=
  Z.lor (Z.land byte (Z.lxor 0xFF (Z.shiftl (Z.ones width) pos)))
        (Z.shiftl (Z.land v (Z.ones width)) pos).

Definition set_wordaddr_bit0 (b v : Z) : Z := set_field b 1 1 v.
Definition set_wordaddr_bit1 (b v : Z) : Z := set_field b 2 1 v.
Definition set_wordaddr_bit2 (b v : Z) : Z := set_field b 3 1 v.
Definition set_hardaddr_bit (b v : Z) : Z := set_field b 1 3 v.
Definition set_devtype_bit (b v : Z) : Z := set_field b 4 4 v.

(** [at24cxx_t]: the info and the port. The port's type depends on the
    build ([sw_i2c_t] or [hw_i2c_t]), so it is a parameter here. *)
Record at24cxx_t (P : Type) : Type := mkDev {
  info : AT24Cxx_INFO_t;
  port : P
}.
Arguments mkDev {P} _ _.
Arguments info {P} _.
Arguments port {P} _.

Definition with_i2caddr {P} (dev : at24cxx_t P) (b : Z) : at24cxx_t P :=
  mkDev (mkInfo (type (info dev)) b (pagesize (info dev))) (port dev).

(** ** Basic functions shared by both builds *)

(** [AT24Cxx_GetPageWriteSize] *)
Definition AT24Cxx_GetPageWriteSize {P} (dev : at24cxx_t P) : Z :=
  let t := type (info dev) in
  if chip_eqb t AT24C01 || chip_eqb t AT24C02 then 0x08
  else if chip_eqb t AT24C04 || chip_eqb t AT24C08 || chip_eqb t AT24C16 then 0x10
  else if chip_eqb t AT24C32 || chip_eqb t AT24C64 then 0x20
  else if chip_eqb t AT24C128 || chip_eqb t AT24C256 then 0x40
  else if chip_eqb t AT24C512 then 0x80
  else if chip_eqb t AT24CM01 || chip_eqb t AT24CM02 then 0x100
  else 0x08.

(** [AT24Cxx_SetWordAddress]: returns the updated handle and the value
    stored through [addrsize]. *)
Definition AT24Cxx_SetWordAddress {P} (dev : at24cxx_t P) (addr : Z)
  : at24cxx_t P * Z :=
  let b := i2caddr (info dev) in
  if chip_val (type (info dev)) >=? chip_val AT24C32 then
    (match type (info dev) with
     | AT24CM01 =>
         with_i2caddr dev (set_wordaddr_bit0 b (rbit addr 16))
     | AT24CM02 =>
         with_i2caddr dev
           (set_wordaddr_bit1 (set_wordaddr_bit0 b (rbit addr 16)) (rbit addr 17))
     | _ => dev
     end, 2)
  else
    (match type (info dev) with
     | AT24C04 =>
         with_i2caddr dev (set_wordaddr_bit0 b (rbit addr 8))
     | AT24C08 =>
         with_i2caddr dev
           (set_wordaddr_bit1 (set_wordaddr_bit0 b (rbit addr 8)) (rbit addr 9))
     | AT24C16 =>
         with_i2caddr dev
           (set_wordaddr_bit2
              (set_wordaddr_bit1 (set_wordaddr_bit0 b (rbit addr 8)) (rbit addr 9))
              (rbit addr 10))
     | _ => dev
     end, 1).

(** The word-address bytes put on the bus for [addr], high byte first when
    there are two (the [memaddr_size == 1] test of the bit-level transport
    code; the block transport is handed [addr] and [memaddr_size]). *)
Definition word_address_bytes (addr memaddr_size : Z) : list Z :=
  if memaddr_size =? 1 then [LSB_16 addr] else [MSB_16 addr; LSB_16 addr].

(** [AT24Cxx_config], the part common to both builds (the bit-level build
    also resets its bus, see [Sw.AT24Cxx_config]). [devaddr] and [haraddr]
    are [uint8_t]; the bit-fields keep their low 4 and 3 bits. *)
Definition AT24Cxx_config {P} (dev : at24cxx_t P) (t : AT24Cxx_CHIP)
  (devaddr haraddr : Z) : at24cxx_t P :=
  let b := set_hardaddr_bit (set_devtype_bit (i2caddr (info dev)) devaddr) haraddr in
  let dev1 := mkDev (mkInfo t b (pagesize (info dev))) (port dev) in
  mkDev (mkInfo t b (uint16_t (AT24Cxx_GetPageWriteSize dev1))) (port dev).

(** ** Outcomes of a call *)

(** A call returns ([Done]), executes [i % 0] ([DivZero], undefined
    behaviour in C), or is still looping when the fuel given to the model
    runs out ([NoFuel]). *)
Inductive result (A : Type) : Type :=
| Done (a : A)
| DivZero
| NoFuel.
Arguments Done {A} _.
Arguments DivZero {A}.
Arguments NoFuel {A}.

(** [memset(buf, c, n)] on a byte array. *)
Definition memset (buf : list Z) (c n : Z) : list Z :=
  repeat c (Z.to_nat n) ++ skipn (Z.to_nat n) buf.

(** [data[point + j] != compare_data[j]] for some [j] below [n]: the two
    comparison loops of [AT24Cxx_Readback_Write], which return 1 at the
    first difference. [data] is the caller's buffer, of [size] bytes at
    least; a read past the end of a list (undefined in C) gives 0. *)
Definition mismatch (data : list Z) (point : Z) (compare_data : list Z) (n : Z) : bool :=
  existsb (fun j => negb (nth (Z.to_nat (point + Z.of_nat j)) data 0 =? nth j compare_data 0))
          (seq 0 (Z.to_nat n)).

(** A chunk of a paged transfer: start address and length. *)
Definition chunk : Type := (Z * Z)%type.

(** * The block-transport build ([AT24Cxx_I2C_MODE == 1], the header's setting) *)

Module Hw.

(** [hw_i2c_t]: the two block primitives, as functions on the world of the
    bus. [wmem devaddr memaddr memaddr_size data size] returns a status;
    [rmem devaddr memaddr memaddr_size data size] returns a status and the
    caller's buffer as the transfer left it. *)
Record hw_i2c_t (W : Type) : Type := mkBus {
  wmem : Z -> Z -> Z -> list Z -> Z -> W -> Z * W;
  rmem : Z -> Z -> Z -> list Z -> Z -> W -> Z * list Z * W
}.
Arguments mkBus {W} _ _.
Arguments wmem {W} _.
Arguments rmem {W} _.

(** What went over the bus: each call with the status it returned. *)
Inductive hw_call : Type :=
| WMem (devaddr memaddr memaddr_size : Z) (data : list Z) (size : Z) (rsp : Z)
| RMem (devaddr memaddr memaddr_size size : Z) (rsp : Z).

(** The state a call runs in: the handle, the world of the bus, and the
    log of the bus calls made so far. *)
Record state (W : Type) : Type := mkState {
  dev : at24cxx_t (hw_i2c_t W);
  world : W;
  log : list hw_call
}.
Arguments mkState {W} _ _ _.
Arguments dev {W} _.
Arguments world {W} _.
Arguments log {W} _.

Definition init {W} (d : at24cxx_t (hw_i2c_t W)) (w : W) : state W := mkState d w [].

(** [AT24Cxx_Read]: returns the status, the buffer [data] after the call
    and the new state. *)
Definition AT24Cxx_Read {W} (st : state W) (saddr : Z) (data : list Z) (size : Z)
  : Z * list Z * state W :=
  let '(dev', memaddr_size) := AT24Cxx_SetWordAddress (dev st) saddr in
  let '(r, data', w') :=
    rmem (port dev') (i2caddr (info dev')) saddr memaddr_size data size (world st) in
  let rsp := uint8_t r in
  (rsp, data',
   mkState dev' w' (log st ++ [RMem (i2caddr (info dev')) saddr memaddr_size size rsp])).

(** The [for (i = saddr; i < EndAddr; i += size)] loop of [AT24Cxx_Write].
    The transport is handed the pointer [data] and [size]: the [size] bytes
    at the head of what is left of the caller's buffer. *)
Fixpoint Write_loop {W} (fuel : nat) (st : state W) (i EndAddr RemainSize : Z)
  (data : list Z) (rsp : Z) : result (Z * state W) :=
  if i <? EndAddr then
    match fuel with
    | O => NoFuel
    | S fuel' =>
        let ps := pagesize (info (dev st)) in
        if ps =? 0 then DivZero else
        let CurPageSize := uint16_t (ps - i mod ps) in
        let size := min RemainSize CurPageSize in
        let RemainSize := uint32_t (RemainSize - size) in
        let '(dev', memaddr_size) := AT24Cxx_SetWordAddress (dev st) i in
        let payload := firstn (Z.to_nat size) data in
        let '(r, w') :=
          wmem (port dev') (i2caddr (info dev')) i memaddr_size payload size (world st) in
        let rsp := uint8_t r in
        let data := skipn (Z.to_nat size) data in
        Write_loop fuel'
          (mkState dev' w'
             (log st ++ [WMem (i2caddr (info dev')) i memaddr_size payload size rsp]))
          (uint32_t (i + size)) EndAddr RemainSize data rsp
    end
  else Done (rsp, st).

(** [AT24Cxx_Write] *)
Definition AT24Cxx_Write {W} (fuel : nat) (st : state W) (saddr : Z)
  (data : list Z) (size : Z) : result (Z * state W) :=
  let RemainSize := size in
  let EndAddr := uint32_t (saddr + size) in
  Write_loop fuel st saddr EndAddr RemainSize data 0.

(** The [for (i = saddr; i < EndAddr; i += size)] loop of [AT24Cxx_Erase]. *)
Fixpoint Erase_loop {W} (fuel : nat) (st : state W) (i EndAddr RemainSize : Z)
  (erase_size : Z) (fbuf : list Z) (rsp : Z) : result (Z * state W) :=
  if i <? EndAddr then
    match fuel with
    | O => NoFuel
    | S fuel' =>
        if erase_size =? 0 then DivZero else
        let CurPageSize := uint16_t (erase_size - i mod erase_size) in
        let size := min RemainSize CurPageSize in
        let RemainSize := uint32_t (RemainSize - size) in
        let '(dev', memaddr_size) := AT24Cxx_SetWordAddress (dev st) i in
        let payload := firstn (Z.to_nat size) fbuf in
        let '(r, w') :=
          wmem (port dev') (i2caddr (info dev')) i memaddr_size payload size (world st) in
        let rsp := uint8_t r in
        Erase_loop fuel'
          (mkState dev' w'
             (log st ++ [WMem (i2caddr (info dev')) i memaddr_size payload size rsp]))
          (uint32_t (i + size)) EndAddr RemainSize erase_size fbuf rsp
    end
  else Done (rsp, st).

(** [AT24Cxx_Erase]. [fbuf0] is the content of the automatic array [fbuf]
    before the [memset], which C leaves indeterminate. *)
Definition AT24Cxx_Erase {W} (fuel : nat) (st : state W) (saddr fdata size : Z)
  (fbuf0 : list Z) : result (Z * state W) :=
  let RemainSize := size in
  let EndAddr := uint32_t (saddr + size) in
  let erase_size := uint16_t (max 8 AT24Cxx_MAX_ERASE_SIZE) in
  let fbuf := firstn (Z.to_nat erase_size) fbuf0 in
  let erase_size := uint16_t (min erase_size (pagesize (info (dev st)))) in
  let fbuf := memset fbuf fdata erase_size in
  Erase_loop fuel st saddr EndAddr RemainSize erase_size fbuf 0.

(** The chunk loop of [AT24Cxx_Readback_Write], [i] being its 8-bit counter.
    [inl st] is the [return 1] inside the loop; [inr] is the normal exit,
    with the final [i] and comparison buffer. *)
Fixpoint Readback_loop {W} (fuel : nat) (st : state W) (i quotient addr : Z)
  (data compare_data : list Z) : result (state W + Z * list Z * state W) :=
  if i <? quotient then
    match fuel with
    | O => NoFuel
    | S fuel' =>
        let point := uint16_t (i * AT24Cxx_MAX_COMPARE_SIZE) in
        let '(_, compare_data, st) :=
          AT24Cxx_Read st (uint32_t (addr + point)) compare_data AT24Cxx_MAX_COMPARE_SIZE in
        if mismatch data point compare_data AT24Cxx_MAX_COMPARE_SIZE
        then Done (inl st)
        else Readback_loop fuel' st (uint8_t (i + 1)) quotient addr data compare_data
    end
  else Done (inr (i, compare_data, st)).

(** [AT24Cxx_Readback_Write]. [addr] and [size] are [uint16_t];
    [compare_data0] is the indeterminate initial content of the automatic
    array [compare_data]. *)
Definition AT24Cxx_Readback_Write {W} (fuel : nat) (st : state W) (addr : Z)
  (data : list Z) (size : Z) (compare_data0 : list Z) : result (Z * state W) :=
  match AT24Cxx_Write fuel st addr data size with
  | Done (_, st) =>
      let quotient := uint16_t (size / AT24Cxx_MAX_COMPARE_SIZE) in
      let remainder := uint8_t (size mod AT24Cxx_MAX_COMPARE_SIZE) in
      match Readback_loop fuel st 0 quotient addr data compare_data0 with
      | Done (inl st) => Done (1, st)
      | Done (inr (i, compare_data, st)) =>
          let point := if quotient >? 0 then uint16_t (i * AT24Cxx_MAX_COMPARE_SIZE) else 0 in
          let '(_, compare_data, st) :=
            AT24Cxx_Read st (uint32_t (addr + point)) compare_data remainder in
          if mismatch data point compare_data remainder then Done (1, st) else Done (0, st)
      | DivZero => DivZero
      | NoFuel => NoFuel
      end
  | DivZero => DivZero
  | NoFuel => NoFuel
  end.

End Hw.

(** * The bit-level build ([AT24Cxx_I2C_MODE == 0]) *)

(** [data[i] = v]; a store past the end of the buffer (undefined in C)
    leaves the list as it is. *)
Fixpoint store (data : list Z) (i : nat) (v : Z) : list Z :=
  match data, i with
  | [], _ => []
  | _ :: t, O => v :: t
  | h :: t, S i' => h :: store t i' v
  end.

Module Sw.

(** Modelled from the spec: [ACK] and [NACK] come from bus_i2c.h, which is
    not part of the sources; they are what the receiver answers a byte with,
    "acknowledge" to ask for the next one and "no-acknowledge" to stop. *)
Inductive ack_t : Set := ACK | NACK.

(** [sw_i2c_t]: the primitives of the bit-level transport, as functions on
    the world of the bus; each write primitive returns an error indicator,
    [swi2c_rbyte] the byte read. *)
Record sw_i2c_t (W : Type) : Type := mkBus {
  swi2c_reset : W -> W;
  swi2c_strt : W -> W;
  swi2c_stop : W -> W;
  swi2c_waddr : Z -> W -> Z * W;
  swi2c_raddr : Z -> W -> Z * W;
  swi2c_wbyte : Z -> W -> Z * W;
  swi2c_rbyte : ack_t -> W -> Z * W
}.
Arguments mkBus {W} _ _ _ _ _ _ _.
Arguments swi2c_reset {W} _.
Arguments swi2c_strt {W} _.
Arguments swi2c_stop {W} _.
Arguments swi2c_waddr {W} _.
Arguments swi2c_raddr {W} _.
Arguments swi2c_wbyte {W} _.
Arguments swi2c_rbyte {W} _.

(** What went over the bus, with what came back. *)
Inductive sw_event : Type :=
| BusReset
| Strt
| Stop
| Waddr (b rsp : Z)
| Raddr (b rsp : Z)
| Wbyte (b rsp : Z)
| Rbyte (a : ack_t) (b : Z).

Record state (W : Type) : Type := mkState {
  dev : at24cxx_t (sw_i2c_t W);
  world : W;
  log : list sw_event
}.
Arguments mkState {W} _ _ _.
Arguments dev {W} _.
Arguments world {W} _.
Arguments log {W} _.

Definition init {W} (d : at24cxx_t (sw_i2c_t W)) (w : W) : state W := mkState d w [].

(** The primitives called on [dev->port.bus], logged. *)
Definition reset {W} (st : state W) : state W :=
  mkState (dev st) (swi2c_reset (port (dev st)) (world st)) (log st ++ [BusReset]).
Definition strt {W} (st : state W) : state W :=
  mkState (dev st) (swi2c_strt (port (dev st)) (world st)) (log st ++ [Strt]).
Definition stop {W} (st : state W) : state W :=
  mkState (dev st) (swi2c_stop (port (dev st)) (world st)) (log st ++ [Stop]).
Definition waddr {W} (b : Z) (st : state W) : Z * state W :=
  let '(r, w) := swi2c_waddr (port (dev st)) b (world st) in
  (uint8_t r, mkState (dev st) w (log st ++ [Waddr b (uint8_t r)])).
Definition raddr {W} (b : Z) (st : state W) : Z * state W :=
  let '(r, w) := swi2c_raddr (port (dev st)) b (world st) in
  (uint8_t r, mkState (dev st) w (log st ++ [Raddr b (uint8_t r)])).
Definition wbyte {W} (b : Z) (st : state W) : Z * state W :=
  let '(r, w) := swi2c_wbyte (port (dev st)) b (world st) in
  (uint8_t r, mkState (dev st) w (log st ++ [Wbyte b (uint8_t r)])).
Definition rbyte {W} (a : ack_t) (st : state W) : Z * state W :=
  let '(r, w) := swi2c_rbyte (port (dev st)) a (world st) in
  (uint8_t r, mkState (dev st) w (log st ++ [Rbyte a (uint8_t r)])).

(** [AT24Cxx_config] of this build: the common part, then the bus reset. *)
Definition AT24Cxx_config {W} (st : state W) (t : AT24Cxx_CHIP) (devaddr haraddr : Z)
  : state W :=
  reset (mkState (AT24Cxx_config (dev st) t devaddr haraddr) (world st) (log st)).

(** "IIC send i2c address and at24cxx address": the device address, then
    the one or two word-address bytes, statuses or-ed into [rsp]. *)
Definition send_address {W} (st : state W) (memaddr_size a rsp : Z) : Z * state W :=
  let byte := i2caddr (info (dev st)) in
  if memaddr_size =? 1 then
    let '(r, st) := waddr byte st in
    let rsp := Z.lor rsp r in
    let '(r, st) := wbyte (LSB_16 a) st in
    (Z.lor rsp r, st)
  else
    let '(r, st) := waddr byte st in
    let rsp := Z.lor rsp r in
    let '(r, st) := wbyte (MSB_16 a) st in
    let rsp := Z.lor rsp r in
    let '(r, st) := wbyte (LSB_16 a) st in
    (Z.lor rsp r, st).

(** [for (i = 0; i < size - 1; i++) data[i] = swi2c_rbyte(bus, ACK);] run
    for [n] iterations from [i]; returns the final [i]. *)
Fixpoint Read_loop {W} (n : nat) (st : state W) (i : Z) (data : list Z)
  : Z * list Z * state W :=
  match n with
  | O => (i, data, st)
  | S n' =>
      let '(b, st) := rbyte ACK st in
      Read_loop n' st (i + 1) (store data (Z.to_nat i) b)
  end.

(** [AT24Cxx_Read]. The loop bound [size - 1] is computed in [uint32_t]. *)
Definition AT24Cxx_Read {W} (st : state W) (saddr : Z) (data : list Z) (size : Z)
  : Z * list Z * state W :=
  let rsp := 0 in
  let '(dev', memaddr_size) := AT24Cxx_SetWordAddress (dev st) saddr in
  let st := mkState dev' (world st) (log st) in
  let st := strt st in
  let '(rsp, st) := send_address st memaddr_size saddr rsp in
  let st := strt st in
  let '(r, st) := raddr (i2caddr (info (dev st))) st in
  let rsp := Z.lor rsp r in
  let '(i, data, st) := Read_loop (Z.to_nat (uint32_t (size - 1))) st 0 data in
  let '(b, st) := rbyte NACK st in
  let data := store data (Z.to_nat i) b in
  let st := stop st in
  (rsp, data, st).

(** [for (j = 0; j < size; j++) rsp |= swi2c_wbyte(bus, *(data++));] *)
Fixpoint send_data {W} (n : nat) (st : state W) (data : list Z) (rsp : Z)
  : Z * list Z * state W :=
  match n with
  | O => (rsp, data, st)
  | S n' =>
      let '(r, st) := wbyte (hd 0 data) st in
      send_data n' st (tl data) (Z.lor rsp r)
  end.

(** [for (j = 0; j < size; j++) rsp |= swi2c_wbyte(bus, fdata);] *)
Fixpoint send_fill {W} (n : nat) (st : state W) (fdata : Z) (rsp : Z) : Z * state W :=
  match n with
  | O => (rsp, st)
  | S n' =>
      let '(r, st) := wbyte fdata st in
      send_fill n' st fdata (Z.lor rsp r)
  end.

(** The page loop of [AT24Cxx_Write]. *)
Fixpoint Write_loop {W} (fuel : nat) (st : state W) (i EndAddr RemainSize : Z)
  (data : list Z) (rsp : Z) : result (Z * state W) :=
  if i <? EndAddr then
    match fuel with
    | O => NoFuel
    | S fuel' =>
        let ps := pagesize (info (dev st)) in
        if ps =? 0 then DivZero else
        let CurPageSize := uint16_t (ps - i mod ps) in
        let size := min RemainSize CurPageSize in
        let RemainSize := uint32_t (RemainSize - size) in
        let '(dev', memaddr_size) := AT24Cxx_SetWordAddress (dev st) i in
        let st := mkState dev' (world st) (log st) in
        let st := strt st in
        let '(rsp, st) := send_address st memaddr_size i rsp in
        let '(rsp, data, st) := send_data (Z.to_nat size) st data rsp in
        let st := stop st in
        Write_loop fuel' st (uint32_t (i + size)) EndAddr RemainSize data rsp
    end
  else Done (rsp, st).

(** [AT24Cxx_Write] *)
Definition AT24Cxx_Write {W} (fuel : nat) (st : state W) (saddr : Z)
  (data : list Z) (size : Z) : result (Z * state W) :=
  let RemainSize := size in
  let EndAddr := uint32_t (saddr + size) in
  Write_loop fuel st saddr EndAddr RemainSize data 0.

(** The page loop of [AT24Cxx_Erase]. *)
Fixpoint Erase_loop {W} (fuel : nat) (st : state W) (i EndAddr RemainSize : Z)
  (fdata : Z) (rsp : Z) : result (Z * state W) :=
  if i <? EndAddr then
    match fuel with
    | O => NoFuel
    | S fuel' =>
        let ps := pagesize (info (dev st)) in
        if ps =? 0 then DivZero else
        let CurPageSize := uint16_t (ps - i mod ps) in
        let size := min RemainSize CurPageSize in
        let RemainSize := uint32_t (RemainSize - size) in
        let '(dev', memaddr_size) := AT24Cxx_SetWordAddress (dev st) i in
        let st := mkState dev' (world st) (log st) in
        let st := strt st in
        let '(rsp, st) := send_address st memaddr_size i rsp in
        let '(rsp, st) := send_fill (Z.to_nat size) st fdata rsp in
        let st := stop st in
        Erase_loop fuel' st (uint32_t (i + size)) EndAddr RemainSize fdata rsp
    end
  else Done (rsp, st).

(** [AT24Cxx_Erase] *)
Definition AT24Cxx_Erase {W} (fuel : nat) (st : state W) (saddr fdata size : Z)
  : result (Z * state W) :=
  let RemainSize := size in
  let EndAddr := uint32_t (saddr + size) in
  Erase_loop fuel st saddr EndAddr RemainSize fdata 0.

End Sw.

(** * The address encoder *)

(** The spec's table of spillover bits: the address bit that is folded
    into bit [k] of the device-address byte, for each model. *)
Definition spec_spillover (t : AT24Cxx_CHIP) (k : Z) : option Z :=
  match t with
  | AT24C04 => if k =? 1 then Some 8 else None
  | AT24C08 => if k =? 1 then Some 8 else if k =? 2 then Some 9 else None
  | AT24C16 =>
      if k =? 1 then Some 8 else if k =? 2 then Some 9
      else if k =? 3 then Some 10 else None
  | AT24CM01 => if k =? 1 then Some 16 else None
  | AT24CM02 => if k =? 1 then Some 16 else if k =? 2 then Some 17 else None
  | _ => None
  end.

(** Density of a model in Kbit (1 for AT24C01, ..., 2048 for AT24CM02). *)
Definition kbit (t : AT24Cxx_CHIP) : Z := capacity t * 8 / 1024.

(** The spec's word-address width: 2 bytes from 32 Kbit on, else 1. *)
Definition spec_word_address_width (t : AT24Cxx_CHIP) : Z :=
  if 32 <=? kbit t then 2 else 1.

(** Inverse bit extraction: the linear address read back from the
    device-address byte and the word-address bytes. *)
Definition decode (t : AT24Cxx_CHIP) (devaddr : Z) (wordaddr : list Z) : Z :=
  let word :=
    match wordaddr with
    | [lsb] => lsb
    | [msb; lsb] => Z.shiftl msb 8 + lsb
    | _ => 0
    end in
  match t with
  | AT24C04 => word + Z.shiftl (rbit devaddr 1) 8
  | AT24C08 => word + Z.shiftl (rbit devaddr 1) 8 + Z.shiftl (rbit devaddr 2) 9
  | AT24C16 =>
      word + Z.shiftl (rbit devaddr 1) 8 + Z.shiftl (rbit devaddr 2) 9
      + Z.shiftl (rbit devaddr 3) 10
  | AT24CM01 => word + Z.shiftl (rbit devaddr 1) 16
  | AT24CM02 => word + Z.shiftl (rbit devaddr 1) 16 + Z.shiftl (rbit devaddr 2) 17
  | _ => word
  end.

(** The bits of the device-address byte that no encoder store touches:
    bit 0 (R/W) and the top nibble. *)
Definition same_fixed_bits (b b' : Z) : Prop := Z.land b' 0xF1 = Z.land b 0xF1.

(** The [devtype.bit] field read back: the top nibble of the byte. *)
Definition devtype_bit (b : Z) : Z := Z.land (Z.shiftr b 4) 0xF.

(** The fields a transfer reads from the handle are the same before and
    after, except bits 1 to 3 of the device-address byte. *)
Definition same_handle {P} (d d' : at24cxx_t P) : Prop :=
  type (info d') = type (info d) /\ pagesize (info d') = pagesize (info d) /\
  port d' = port d /\ same_fixed_bits (i2caddr (info d)) (i2caddr (info d')).

(** The handle [d'] has the top nibble of [d]'s device-address byte, and
    differs from it in bits 1 to 3 of that byte at most. *)
Definition keeps_nibble {P} (d d' : at24cxx_t P) : Prop :=
  same_fixed_bits (i2caddr (info d)) (i2caddr (info d')) /\
  devtype_bit (i2caddr (info d')) = devtype_bit (i2caddr (info d)).

(** * Paged transfers and bus logs *)

(** The sum of the chunks' lengths. *)
Definition total_length (cs : list chunk) : Z :=
  fold_right (fun c s => snd c + s) 0 cs.

(** The chunks are contiguous and do not overlap: the first starts at [a],
    each has at least one byte, and each next one starts where the one
    before ends. *)
Fixpoint contiguous_from (a : Z) (cs : list chunk) : Prop :=
  match cs with
  | [] => True
  | c :: cs' => fst c = a /\ 0 < snd c /\ contiguous_from (a + snd c) cs'
  end.

(** A chunk's range [[address, address + length)] lies within a single
    page of [page] bytes. *)
Definition within_page (page : Z) (c : chunk) : Prop :=
  fst c / page = (fst c + snd c - 1) / page.

(** The arithmetic shared by the page loops of Write and Erase, on its own:
    the chunks cut from [i] up to [EndAddr] at the multiples of [page]. *)
Fixpoint split (fuel : nat) (page i EndAddr RemainSize : Z) : list chunk :=
  if i <? EndAddr then
    match fuel with
    | O => []
    | S fuel' =>
        let CurPageSize := uint16_t (page - i mod page) in
        let size := min RemainSize CurPageSize in
        (i, size) :: split fuel' page (uint32_t (i + size)) EndAddr
                           (uint32_t (RemainSize - size))
    end
  else [].

(** The chunks (address, length) of the write transactions of a log, and
    the statuses these transactions returned. *)
Definition chunks_of (l : list Hw.hw_call) : list chunk :=
  flat_map (fun c => match c with
                     | Hw.WMem _ a _ _ n _ => [(a, n)]
                     | Hw.RMem _ _ _ _ _ => []
                     end) l.

Definition statuses_of (l : list Hw.hw_call) : list Z :=
  flat_map (fun c => match c with
                     | Hw.WMem _ _ _ _ _ r => [r]
                     | Hw.RMem _ _ _ _ _ => []
                     end) l.

(** The status a bus call returned. *)
Definition call_status (c : Hw.hw_call) : Z :=
  match c with
  | Hw.WMem _ _ _ _ _ r => r
  | Hw.RMem _ _ _ _ r => r
  end.

(** A bus call that carries nothing but copies of the fill byte. *)
Definition carries_fill (fdata : Z) (c : Hw.hw_call) : Prop :=
  match c with
  | Hw.WMem _ _ _ data n _ => data = repeat fdata (Z.to_nat n)
  | Hw.RMem _ _ _ _ _ => True
  end.

(** The read requests (address, length) of a log. *)
Definition reads_of (l : list Hw.hw_call) : list chunk :=
  flat_map (fun c => match c with
                     | Hw.WMem _ _ _ _ _ _ => []
                     | Hw.RMem _ a _ n _ => [(a, n)]
                     end) l.

(** The bitwise OR of a list of statuses. *)
Definition or_all (l : list Z) : Z := fold_right Z.lor 0 l.

(** The acknowledge sent after each byte read on the bit-level transport. *)
Definition acks_of (l : list Sw.sw_event) : list Sw.ack_t :=
  flat_map (fun e => match e with Sw.Rbyte a _ => [a] | _ => [] end) l.

(** The number of stop conditions in a log of the bit-level transport. *)
Definition stops_of (l : list Sw.sw_event) : nat :=
  length (filter (fun e => match e with Sw.Stop => true | _ => false end) l).

(** The error indicators returned by the address and data writes of a log
    of the bit-level transport. *)
Definition sw_statuses (l : list Sw.sw_event) : list Z :=
  flat_map (fun e => match e with
                     | Sw.Waddr _ r => [r]
                     | Sw.Raddr _ r => [r]
                     | Sw.Wbyte _ r => [r]
                     | _ => []
                     end) l.

(** A handle whose fields hold values of their C types, with a page size
    of at least one byte. *)
Definition wf_handle {P} (d : at24cxx_t P) : Prop :=
  0 <= i2caddr (info d) < 2 ^ 8 /\ 1 <= pagesize (info d) < 2 ^ 16.

(** * Transports used in the examples *)

(** A bus on which every transfer succeeds and nothing is stored. *)
Definition null_bus : Hw.hw_i2c_t unit :=
  Hw.mkBus (fun _ _ _ _ _ w => (0, w)) (fun _ _ _ buf _ w => (0, buf, w)).

(** An ideal memory behind the block transport: [wmem] stores the bytes at
    their linear address, [rmem] reads them back; the statuses returned are
    the constants [wsta] and [rsta]. *)
Fixpoint mem_write (m : list Z) (a : nat) (data : list Z) : list Z :=
  match data with
  | [] => m
  | v :: data' => mem_write (store m a v) (S a) data'
  end.

Definition mem_read (m : list Z) (a n : nat) : list Z := firstn n (skipn a m).

Definition eeprom (wsta rsta : Z) : Hw.hw_i2c_t (list Z) :=
  Hw.mkBus
    (fun _ a _ data n m =>
       (wsta, mem_write m (Z.to_nat a) (firstn (Z.to_nat n) data)))
    (fun _ a _ buf n m =>
       (rsta, mem_read m (Z.to_nat a) (Z.to_nat n) ++ skipn (Z.to_nat n) buf, m)).

(** A bus whose first write transaction fails and whose later ones
    succeed; its world counts the write transactions. *)
Definition flaky : Hw.hw_i2c_t nat :=
  Hw.mkBus (fun _ _ _ _ _ n => (if Nat.eqb n 0 then 1 else 0, S n))
           (fun _ _ _ buf _ n => (0, buf, n)).

(** A bit-level bus that acknowledges everything and reads 0, 1, 2, ... *)
Definition counting_bus : Sw.sw_i2c_t Z :=
  Sw.mkBus (fun w => w) (fun w => w) (fun w => w)
           (fun _ w => (0, w)) (fun _ w => (0, w)) (fun _ w => (0, w))
           (fun _ w => (w, w + 1)).

(** A bit-level bus whose first data byte write fails and whose later
    ones succeed; its world counts the byte writes. *)
Definition sw_flaky : Sw.sw_i2c_t nat :=
  Sw.mkBus (fun w => w) (fun w => w) (fun w => w)
           (fun _ w => (0, w)) (fun _ w => (0, w))
           (fun _ n => (if Nat.eqb n 0 then 1 else 0, S n))
           (fun _ w => (0, w)).

(** A handle as [AT24Cxx_config] leaves it, from an all-zero structure. *)
Definition configured {P} (p : P) (t : AT24Cxx_CHIP) (devaddr haraddr : Z)
  : at24cxx_t P :=
  AT24Cxx_config (mkDev (mkInfo AT24C01 0 0) p) t devaddr haraddr.

(** * Buses that differ in their statuses only *)

(** The bus [b] with every status it returns replaced through [f]; the
    bytes transferred and the world are those of [b]. *)
Definition with_status {W} (f : Z -> Z) (b : Hw.hw_i2c_t W) : Hw.hw_i2c_t W :=
  Hw.mkBus
    (fun d a s data n w => let '(r, w') := Hw.wmem b d a s data n w in (f r, w'))
    (fun d a s buf n w =>
       let '(r, buf', w') := Hw.rmem b d a s buf n w in (f r, buf', w')).

(** The state [st] with its handle's port replaced by [b]. *)
Definition rebus {W} (st : Hw.state W) (b : Hw.hw_i2c_t W) : Hw.state W :=
  Hw.mkState (mkDev (info (Hw.dev st)) b) (Hw.world st) (Hw.log st).

(** What a caller sees of a call: the value returned, the handle's info
    and the world of the bus. *)
Definition outcome {W} (r : result (Z * Hw.state W))
  : result (Z * AT24Cxx_INFO_t * W) :=
  match r with
  | Done (v, st) => Done (v, info (Hw.dev st), Hw.world st)
  | DivZero => DivZero
  | NoFuel => NoFuel
  end.

(** Two states that differ only in the statuses their buses return (and
    in the statuses logged so far). *)
Definition status_blind {W} (f : Z -> Z) (st1 st2 : Hw.state W) : Prop :=
  info (Hw.dev st2) = info (Hw.dev st1) /\
  port (Hw.dev st2) = with_status f (port (Hw.dev st1)) /\
  Hw.world st2 = Hw.world st1.

(** * Memories behind the block transport *)

(** Where a chip that rolls over within pages of [page] bytes puts the
    [k]-th byte of a block written at [a]: in the page of [a], at the
    offset of [a] plus [k], wrapped to the page. *)
Definition page_wrap (page a k : Z) : Z := a - a mod page + (a mod page + k) mod page.

Fixpoint paged_write (page : Z) (m : list Z) (a k : Z) (data : list Z) : list Z :=
  match data with
  | [] => m
  | v :: data' =>
      paged_write page (store m (Z.to_nat (page_wrap page a k)) v) a (k + 1) data'
  end.

(** A memory with pages of [page] bytes behind the block transport: a block
    that runs past the end of its page continues at the start of the same
    page; reads are linear. The statuses are the constants [wsta], [rsta]. *)
Definition eeprom_paged (page wsta rsta : Z) : Hw.hw_i2c_t (list Z) :=
  Hw.mkBus
    (fun _ a _ data n m =>
       (wsta, paged_write page m a 0 (firstn (Z.to_nat n) data)))
    (fun _ a _ buf n m =>
       (rsta, mem_read m (Z.to_nat a) (Z.to_nat n) ++ skipn (Z.to_nat n) buf, m)).

(** A transport that stores a block at its linear address whenever the
    block stays within a page of [page] bytes (what it does with a block
    that crosses a page boundary is left open). *)
Definition stores_in_pages (page : Z) (b : Hw.hw_i2c_t (list Z)) : Prop :=
  forall d a s data n m,
    0 <= a ->
    a mod page + Z.of_nat (length (firstn (Z.to_nat n) data)) <= page ->
    exists r,
      Hw.wmem b d a s data n m
      = (r, mem_write m (Z.to_nat a) (firstn (Z.to_nat n) data)).

(** A transport whose reads deliver the bytes of the memory, from the
    linear address on, into the head of the caller's buffer, and leave the
    memory as it is. *)
Definition reads_memory (b : Hw.hw_i2c_t (list Z)) : Prop :=
  forall d a s buf n m,
    exists r,
      Hw.rmem b d a s buf n m
      = (r, mem_read m (Z.to_nat a) (Z.to_nat n) ++ skipn (Z.to_nat n) buf, m).

(** The bytes a log's write transactions carried, in order. *)
Definition payload_of (l : list Hw.hw_call) : list Z :=
  flat_map (fun c => match c with
                     | Hw.WMem _ _ _ data _ _ => data
                     | Hw.RMem _ _ _ _ _ => []
                     end) l.

(** A bus call is addressed to the cell it names: the device-address byte
    and the word-address bytes of its [memaddr_size] decode to its linear
    address, and [memaddr_size] is the model's width. *)
Definition well_addressed (t : AT24Cxx_CHIP) (c : Hw.hw_call) : Prop :=
  match c with
  | Hw.WMem d a s _ _ _ =>
      s = spec_word_address_width t /\ decode t d (word_address_bytes a s) = a
  | Hw.RMem d a s _ _ =>
      s = spec_word_address_width t /\ decode t d (word_address_bytes a s) = a
  end.

(** The page size of each model, as the table that heads AT24Cxx.c gives it
    (capacity = number of pages x page size). *)
Definition table_page_size (t : AT24Cxx_CHIP) : Z :=
  match t with
  | AT24C01 | AT24C02 => 8
  | AT24C04 | AT24C08 | AT24C16 => 16
  | AT24C32 | AT24C64 => 32
  | AT24C128 | AT24C256 => 64
  | AT24C512 => 128
  | AT24CM01 | AT24CM02 => 256
  end.

(** The number of pages of each model, from the same table. *)
Definition table_pages (t : AT24Cxx_CHIP) : Z :=
  match t with
  | AT24C01 => 16 | AT24C02 => 32 | AT24C04 => 32 | AT24C08 => 64
  | AT24C16 => 128 | AT24C32 => 128 | AT24C64 => 256 | AT24C128 => 256
  | AT24C256 => 512 | AT24C512 => 512 | AT24CM01 => 512 | AT24CM02 => 1024
  end.

(** The memory [w] holds the bytes [lo] to [hi - 1] of [data] at [addr + lo]
    and on. *)
Definition holds_at (w : list Z) (addr : Z) (data : list Z) (lo hi : Z) : Prop :=
  forall idx, lo <= idx < hi ->
    nth (Z.to_nat idx) data 0 = nth (Z.to_nat (addr + idx)) w 0.

(** The bytes written to the bus in a log of the bit-level transport: the
    address bytes and the data bytes, in order. *)
Definition sw_bytes (l : list Sw.sw_event) : list Z :=
  flat_map (fun e => match e with
                     | Sw.Waddr b _ => [b]
                     | Sw.Wbyte b _ => [b]
                     | _ => []
                     end) l.

(** What the write transactions of a log of the block transport were given
    to send, laid out as the bit-level build sends it: the device-address
    byte, the word address, the payload. *)
Definition frame_bytes (l : list Hw.hw_call) : list Z :=
  flat_map (fun c => match c with
                     | Hw.WMem d a s data _ _ => d :: word_address_bytes a s ++ data
                     | Hw.RMem _ _ _ _ _ => []
                     end) l.

(** The requests of a log of the bit-level transport: every event with
    what came back for it (the error indicator, the byte read) erased. *)
Definition requests_of (l : list Sw.sw_event) : list Sw.sw_event :=
  map (fun e => match e with
                | Sw.Waddr b _ => Sw.Waddr b 0
                | Sw.Raddr b _ => Sw.Raddr b 0
                | Sw.Wbyte b _ => Sw.Wbyte b 0
                | Sw.Rbyte a _ => Sw.Rbyte a 0
                | Sw.BusReset => Sw.BusReset
                | Sw.Strt => Sw.Strt
                | Sw.Stop => Sw.Stop
                end) l.



(** * Proof automation *)

Local Arguments Z.testbit : simpl never.
Local Arguments Z.b2z : simpl never.

Ltac bit_cases k :=
  repeat match goal with
         | |- context [Z.eqb k ?c] => destruct (Z.eqb_spec k c); try lia; subst
         | |- context [Z.leb ?c k] => destruct (Z.leb_spec c k); try lia
         | |- context [Z.ltb k ?c] => destruct (Z.ltb_spec k c); try lia
         end; simpl.

(** * Proofs *)

(** * Bit-level facts about the device-address byte *)

Lemma testbit_255 (k : Z) : 0 <= k -> Z.testbit 0xFF k = (k <? 8).
Proof.
  intros Hk. change 0xFF with (Z.ones 8). apply Z.testbit_ones_nonneg; lia.
Qed.

Lemma testbit_1 (k : Z) : 0 <= k -> Z.testbit 1 k = (k =? 0).
Proof.
  intros Hk. change 1 with (2 ^ 0). rewrite Z.pow2_bits_eqb by lia.
  rewrite Z.eqb_sym. reflexivity.
Qed.

Lemma testbit_b2z (b : bool) (k : Z) : 0 <= k -> Z.testbit (Z.b2z b) k = b && (k =? 0).
Proof.
  intros Hk. destruct b; simpl Z.b2z.
  - now rewrite testbit_1.
  - now rewrite Z.bits_0.
Qed.

(** [rbit val x] is bit [x] of [val], as 0 or 1. *)
Lemma rbit_b2z (val x : Z) : 0 <= x -> rbit val x = Z.b2z (Z.testbit val x).
Proof.
  intros Hx. unfold rbit. apply Z.bits_inj'. intros n Hn.
  rewrite Z.shiftr_spec, Z.land_spec, Z.shiftl_spec by lia.
  rewrite testbit_b2z, testbit_1 by lia.
  replace (n + x - x) with n by lia.
  destruct (Z.eqb_spec n 0) as [->|]; simpl.
  - now rewrite !andb_true_r.
  - now rewrite !andb_false_r.
Qed.

(** Bit [k] of a byte after a bit-field store: the field's bits come from
    the stored value, the other bits of the byte are kept, and nothing is
    set above bit 7. *)
Lemma set_field_testbit (byte pos width v k : Z) :
  0 <= pos -> 0 <= width -> pos + width <= 8 -> 0 <= k ->
  Z.testbit (set_field byte pos width v) k =
  if (pos <=? k) && (k <? pos + width) then Z.testbit v (k - pos)
  else Z.testbit byte k && (k <? 8).
Proof.
  intros Hp Hw Hpw Hk. unfold set_field.
  rewrite Z.lor_spec, Z.shiftl_spec, !Z.land_spec, Z.lxor_spec, Z.shiftl_spec by lia.
  rewrite testbit_255 by lia.
  destruct (Z.leb_spec pos k); simpl.
  - rewrite !Z.testbit_ones_nonneg by lia.
    destruct (Z.ltb_spec k (pos + width)), (Z.ltb_spec (k - pos) width),
      (Z.ltb_spec k 8); try lia; simpl;
      rewrite ?andb_true_r, ?andb_false_r, ?orb_false_r; reflexivity.
  - rewrite !(Z.testbit_neg_r _ (k - pos)) by lia.
    destruct (Z.ltb_spec k 8); try lia; simpl.
    now rewrite orb_false_r.
Qed.

Lemma SetWordAddress_frame {P} (dev : at24cxx_t P) (addr : Z) :
  type (info (fst (AT24Cxx_SetWordAddress dev addr))) = type (info dev) /\
  pagesize (info (fst (AT24Cxx_SetWordAddress dev addr))) = pagesize (info dev) /\
  port (fst (AT24Cxx_SetWordAddress dev addr)) = port dev.
Proof.
  unfold AT24Cxx_SetWordAddress.
  destruct dev as [[t b ps] p]; destruct t; simpl; auto.
Qed.

Lemma byte_high_bits (b j : Z) : 0 <= b < 256 -> 8 <= j -> Z.testbit b j = false.
Proof.
  intros Hb Hj. destruct (Z.eq_dec b 0) as [->|Hne].
  - apply Z.bits_0.
  - apply Z.bits_above_log2; [lia|].
    pose proof (Z.log2_le_mono b 255 ltac:(lia)) as Hl.
    change (Z.log2 255) with 7 in Hl. lia.
Qed.

Lemma SetWordAddress_bits {P} (dev : at24cxx_t P) (addr k : Z) :
  0 <= k < 8 ->
  Z.testbit (i2caddr (info (fst (AT24Cxx_SetWordAddress dev addr)))) k =
  match spec_spillover (type (info dev)) k with
  | Some n => Z.testbit addr n
  | None => Z.testbit (i2caddr (info dev)) k
  end.
Proof.
  intros Hk.
  unfold AT24Cxx_SetWordAddress, set_wordaddr_bit0, set_wordaddr_bit1, set_wordaddr_bit2.
  destruct dev as [[t b ps] p]; simpl in *.
  destruct t; simpl; try reflexivity;
    rewrite ?set_field_testbit by lia;
    bit_cases k;
    rewrite ?rbit_b2z, ?testbit_b2z by lia; simpl;
    rewrite ?andb_true_r, ?andb_false_r; reflexivity.
Qed.

Lemma SetWordAddress_width {P} (dev : at24cxx_t P) (addr : Z) :
  snd (AT24Cxx_SetWordAddress dev addr) = spec_word_address_width (type (info dev)).
Proof.
  destruct dev as [[t b ps] p]; destruct t; reflexivity.
Qed.

Lemma LSB_16_mod (x : Z) : LSB_16 x = x mod 256.
Proof.
  unfold LSB_16. change 0xFF with (Z.ones 8). now rewrite Z.land_ones by lia.
Qed.

Lemma MSB_16_mod (x : Z) : MSB_16 x = (x / 256) mod 256.
Proof.
  unfold MSB_16. change 0xFF with (Z.ones 8).
  now rewrite Z.land_ones, Z.shiftr_div_pow2 by lia.
Qed.

(** * The encoder's contract *)

(** C6: [AT24Cxx_SetWordAddress] reports a word-address size of 2 bytes
    exactly for AT24C32 and denser (32 Kbit and more) and 1 byte otherwise,
    and each bit of the device-address byte is, after the call, the address
    bit the model folds there (bit 8 for AT24C04; 8 and 9 for AT24C08; 8, 9
    and 10 for AT24C16; 16 for AT24CM01; 16 and 17 for AT24CM02) or, where
    the model folds none, the bit that was there before. *)
Theorem SetWordAddress_spec {P} (dev : at24cxx_t P) (addr k : Z) :
  0 <= k < 8 ->
  snd (AT24Cxx_SetWordAddress dev addr) = spec_word_address_width (type (info dev)) /\
  (snd (AT24Cxx_SetWordAddress dev addr) = 2 <->
   chip_val AT24C32 <= chip_val (type (info dev))) /\
  (snd (AT24Cxx_SetWordAddress dev addr) = 1 <->
   chip_val (type (info dev)) < chip_val AT24C32) /\
  Z.testbit (i2caddr (info (fst (AT24Cxx_SetWordAddress dev addr)))) k =
  match spec_spillover (type (info dev)) k with
  | Some n => Z.testbit addr n
  | None => Z.testbit (i2caddr (info dev)) k
  end.
Proof.
  intros Hk. split; [apply SetWordAddress_width|].
  split; [|split; [|apply SetWordAddress_bits; exact Hk]];
    destruct dev as [[t b ps] p]; destruct t; simpl; split; intros H;
    first [reflexivity | discriminate | lia].
Qed.

Lemma SetWordAddress_spec_witness :
  snd (AT24Cxx_SetWordAddress (configured tt AT24C16 0xA 0) 0x5A3) = 1 /\
  (snd (AT24Cxx_SetWordAddress (configured tt AT24C16 0xA 0) 0x5A3) = 2 <->
   chip_val AT24C32 <= chip_val AT24C16) /\
  (snd (AT24Cxx_SetWordAddress (configured tt AT24C16 0xA 0) 0x5A3) = 1 <->
   chip_val AT24C16 < chip_val AT24C32) /\
  Z.testbit (i2caddr (info (fst (AT24Cxx_SetWordAddress
                                   (configured tt AT24C16 0xA 0) 0x5A3)))) 3
  = Z.testbit 0x5A3 10.
Proof.
  apply (SetWordAddress_spec (configured tt AT24C16 0xA 0) 0x5A3 3). lia.
Defined.

(** The device-address byte an AT24C16 at 0x5A3 is addressed with: A10, A9,
    A8 = 1, 0, 1 below the family nibble 1010. *)
Example SetWordAddress_AT24C16 :
  AT24Cxx_SetWordAddress (configured tt AT24C16 0xA 0) 0x5A3
  = (mkDev (mkInfo AT24C16 0xAA 16) tt, 1).
Proof. reflexivity. Qed.

(** C5: for every model and every linear address below the model's
    capacity, the address is read back exactly from the device-address byte
    [AT24Cxx_SetWordAddress] leaves and the word-address byte(s) sent. *)
Theorem encoder_round_trip {P} (dev : at24cxx_t P) (addr : Z) :
  0 <= addr < capacity (type (info dev)) ->
  decode (type (info dev))
         (i2caddr (info (fst (AT24Cxx_SetWordAddress dev addr))))
         (word_address_bytes addr (snd (AT24Cxx_SetWordAddress dev addr))) = addr.
Proof.
  intros Ha.
  pose proof (SetWordAddress_bits dev addr 1 ltac:(lia)) as H1.
  pose proof (SetWordAddress_bits dev addr 2 ltac:(lia)) as H2.
  pose proof (SetWordAddress_bits dev addr 3 ltac:(lia)) as H3.
  rewrite SetWordAddress_width. unfold decode, word_address_bytes.
  rewrite !rbit_b2z by lia.
  destruct dev as [[t b ps] p]; simpl type in *.
  destruct t; cbn [spec_spillover Z.eqb Pos.eqb] in H1, H2, H3;
    rewrite ?H1, ?H2, ?H3; clear H1 H2 H3;
    cbn [spec_word_address_width kbit capacity] in *;
    match goal with
    | |- context [if ?c then _ else _] =>
        let v := eval vm_compute in c in change c with v; cbv iota
    end;
    cbn [Z.eqb Pos.eqb];
    rewrite ?LSB_16_mod, ?MSB_16_mod, ?Z.shiftl_mul_pow2, ?Z.testbit_spec' by lia;
    change (2 ^ 8) with 256; change (2 ^ 9) with 512; change (2 ^ 10) with 1024;
    change (2 ^ 16) with 65536; change (2 ^ 17) with 131072;
    Z.div_mod_to_equations; lia.
Qed.

Lemma encoder_round_trip_witness :
  decode AT24CM02
         (i2caddr (info (fst (AT24Cxx_SetWordAddress
                                (configured tt AT24CM02 0xA 0) 0x2BEEF))))
         (word_address_bytes 0x2BEEF
            (snd (AT24Cxx_SetWordAddress (configured tt AT24CM02 0xA 0) 0x2BEEF)))
  = 0x2BEEF.
Proof.
  apply (encoder_round_trip (configured tt AT24CM02 0xA 0) 0x2BEEF).
  change (0 <= 0x2BEEF < 0x40000). lia.
Defined.

(** * Handles made by [AT24Cxx_config] *)

Lemma set_field_range (byte pos width v : Z) :
  0 <= pos -> 0 <= width -> pos + width <= 8 ->
  0 <= set_field byte pos width v < 2 ^ 8.
Proof.
  intros Hp Hw Hpw.
  assert (H : set_field byte pos width v = set_field byte pos width v mod 2 ^ 8).
  { apply Z.bits_inj'. intros k Hk.
    rewrite Z.testbit_mod_pow2 by lia.
    rewrite set_field_testbit by lia.
    destruct (Z.ltb_spec k 8); simpl; [reflexivity|].
    destruct (Z.leb_spec pos k), (Z.ltb_spec k (pos + width)); simpl; try lia;
      now rewrite andb_false_r. }
  rewrite H. apply Z.mod_pos_bound. lia.
Qed.

(** Every handle [AT24Cxx_config] makes is well formed: its device-address
    byte is a byte and its page size is one of 8, 16, 32, 64, 128, 256. *)
Lemma config_wf {P} (dev : at24cxx_t P) (t : AT24Cxx_CHIP) (devaddr haraddr : Z) :
  wf_handle (AT24Cxx_config dev t devaddr haraddr) /\
  type (info (AT24Cxx_config dev t devaddr haraddr)) = t /\
  In (pagesize (info (AT24Cxx_config dev t devaddr haraddr)))
     [8; 16; 32; 64; 128; 256].
Proof.
  unfold wf_handle, AT24Cxx_config. cbn [info i2caddr pagesize type].
  split; [split|split; [reflexivity|]].
  - apply set_field_range; lia.
  - destruct t; vm_compute; split; easy.
  - destruct t; vm_compute; tauto.
Qed.

(** * The page arithmetic *)

(** A value within the range of its type is not changed by the conversion. *)
Lemma uint8_small (x : Z) : 0 <= x < 2 ^ 8 -> uint8_t x = x.
Proof. intros H. unfold uint8_t. now apply Z.mod_small. Qed.

Lemma uint16_small (x : Z) : 0 <= x < 2 ^ 16 -> uint16_t x = x.
Proof. intros H. unfold uint16_t. now apply Z.mod_small. Qed.

Lemma uint32_small (x : Z) : 0 <= x < 2 ^ 32 -> uint32_t x = x.
Proof. intros H. unfold uint32_t. now apply Z.mod_small. Qed.

Lemma min_is_Zmin (a b : Z) : min a b = Z.min a b.
Proof.
  unfold min. destruct (Z.ltb_spec a b); lia.
Qed.

(** One step of a page loop: the chunk has at least one byte, fits what
    remains and what is left of the current page, and no counter wraps. *)
Lemma page_step (page i RemainSize : Z) :
  0 < page < 2 ^ 16 -> 0 <= i -> 0 < RemainSize -> i + RemainSize < 2 ^ 32 ->
  let size := min RemainSize (uint16_t (page - i mod page)) in
  0 < size <= RemainSize /\ size <= page - i mod page /\
  uint32_t (i + size) = i + size /\ uint32_t (RemainSize - size) = RemainSize - size.
Proof.
  intros Hp Hi Hr Hend size.
  pose proof (Z.mod_pos_bound i page ltac:(lia)) as Hm.
  assert (Hc : uint16_t (page - i mod page) = page - i mod page).
  { unfold uint16_t. apply Z.mod_small. lia. }
  subst size. rewrite Hc, min_is_Zmin. unfold uint32_t.
  rewrite (Z.mod_small (i + _) (2 ^ 32)), (Z.mod_small (RemainSize - _) (2 ^ 32)) by lia.
  lia.
Qed.

Lemma within_page_step (page i size : Z) :
  0 < page -> 0 <= i -> 0 < size <= page - i mod page ->
  within_page page (i, size).
Proof.
  intros Hp Hi Hs. unfold within_page; simpl.
  pose proof (Z.mod_pos_bound i page Hp) as Hm.
  apply Z.div_unique with (r := i mod page + size - 1); [lia|].
  pose proof (Z.div_mod i page ltac:(lia)). lia.
Qed.

(** The chunks cut by the page arithmetic, when the end address does not
    wrap: they add up to the request, are contiguous, stay within a page
    and are no longer than a page. *)
Lemma split_spec (fuel : nat) (page : Z) :
  0 < page < 2 ^ 16 ->
  forall i RemainSize,
    0 <= i -> 0 <= RemainSize -> i + RemainSize < 2 ^ 32 ->
    (Z.to_nat RemainSize <= fuel)%nat ->
    let cs := split fuel page i (i + RemainSize) RemainSize in
    total_length cs = RemainSize /\ contiguous_from i cs /\
    Forall (within_page page) cs /\ Forall (fun c => 0 < snd c <= page) cs.
Proof.
  intros Hp. induction fuel as [|fuel IH]; intros i R Hi Hr Hend Hfuel.
  - assert (R = 0) by lia. subst R. simpl.
    rewrite Z.add_0_r, Z.ltb_irrefl. simpl. auto.
  - cbn [split]. destruct (Z.ltb_spec i (i + R)) as [Hlt|Hge].
    + destruct (page_step page i R Hp Hi ltac:(lia) Hend) as (Hs & Hsp & Hi' & Hr').
      set (size := min R (uint16_t (page - i mod page))) in *.
      rewrite Hi', Hr'.
      replace (i + R) with (i + size + (R - size)) by lia.
      destruct (IH (i + size) (R - size)) as (Ht & Hc & Hw & Hl); try lia.
      pose proof (Z.mod_pos_bound i page ltac:(lia)) as Hm.
      cbn zeta. split; [|split; [|split]].
      * cbn [total_length fold_right snd]. unfold total_length in Ht. rewrite Ht. lia.
      * cbn [contiguous_from fst snd]. repeat split; [lia | exact Hc].
      * constructor; [apply within_page_step; lia | exact Hw].
      * constructor; [simpl; lia | exact Hl].
    + assert (R = 0) by lia. subst R. simpl. auto.
Qed.

(** * The block-transport build: what a page loop does *)

Lemma last_cons {A} (x : A) (l : list A) (d : A) : last (x :: l) d = last l x.
Proof.
  revert x d. induction l as [|y l IH]; intros x d; [reflexivity|].
  change (last (x :: y :: l) d) with (last (y :: l) d).
  now rewrite !IH.
Qed.

Lemma same_fixed_bits_refl (b : Z) : same_fixed_bits b b.
Proof. reflexivity. Qed.

Lemma same_fixed_bits_trans (a b c : Z) :
  same_fixed_bits a b -> same_fixed_bits b c -> same_fixed_bits a c.
Proof. unfold same_fixed_bits. congruence. Qed.

(** [AT24Cxx_SetWordAddress] rewrites bits 1 to 3 only. *)
Lemma SetWordAddress_same_fixed {P} (dev : at24cxx_t P) (addr : Z) :
  same_fixed_bits (i2caddr (info dev))
                  (i2caddr (info (fst (AT24Cxx_SetWordAddress dev addr)))).
Proof.
  unfold same_fixed_bits. apply Z.bits_inj'. intros k Hk.
  rewrite !Z.land_spec.
  destruct (Z.ltb_spec k 8) as [Hlt|Hge].
  - rewrite SetWordAddress_bits by lia.
    assert (Hcases : k = 0 \/ k = 1 \/ k = 2 \/ k = 3 \/ k = 4 \/ k = 5 \/ k = 6 \/ k = 7)
      by lia.
    destruct dev as [[t b ps] p]; simpl type; simpl i2caddr.
    destruct Hcases as [->|[->|[->|[->|[->|[->|[->| ->]]]]]]];
      destruct t; cbn [spec_spillover Z.eqb Pos.eqb]; try reflexivity;
      match goal with
      | |- context [Z.testbit 241 ?c] =>
          change (Z.testbit 241 c) with false
      end; now rewrite !andb_false_r.
  - rewrite (byte_high_bits 0xF1 k) by lia. now rewrite !andb_false_r.
Qed.

Lemma same_handle_refl {P} (d : at24cxx_t P) : same_handle d d.
Proof. unfold same_handle. auto using same_fixed_bits_refl. Qed.

Lemma same_handle_trans {P} (a b c : at24cxx_t P) :
  same_handle a b -> same_handle b c -> same_handle a c.
Proof.
  unfold same_handle. intros (T1 & P1 & Q1 & B1) (T2 & P2 & Q2 & B2).
  split; [congruence|]. split; [congruence|]. split; [congruence|].
  eapply same_fixed_bits_trans; eauto.
Qed.

Lemma SetWordAddress_same_handle {P} (dev : at24cxx_t P) (addr : Z) :
  same_handle dev (fst (AT24Cxx_SetWordAddress dev addr)).
Proof.
  destruct (SetWordAddress_frame dev addr) as (T & Ps & Q).
  unfold same_handle. auto using SetWordAddress_same_fixed.
Qed.

Section HwLoops.
Context {W : Type}.

(** A run of the Write loop that returns: what it appended to the log,
    the status it returns, and what it left of the handle. *)
Lemma Write_loop_Done (fuel : nat) :
  forall (st : Hw.state W) i EndAddr RemainSize data rsp rsp' st',
    Hw.Write_loop fuel st i EndAddr RemainSize data rsp = Done (rsp', st') ->
    exists calls,
      Hw.log st' = Hw.log st ++ calls /\
      reads_of calls = [] /\
      chunks_of calls
      = split fuel (pagesize (info (Hw.dev st))) i EndAddr RemainSize /\
      rsp' = last (statuses_of calls) rsp /\
      same_handle (Hw.dev st) (Hw.dev st').
Proof.
  induction fuel as [|fuel IH]; intros st i E R data rsp rsp' st' Hrun.
  - cbn [Hw.Write_loop split] in *. destruct (i <? E); [discriminate|].
    injection Hrun as <- <-. exists []. rewrite app_nil_r.
    auto using same_handle_refl.
  - cbn [Hw.Write_loop split] in *. destruct (i <? E).
    + destruct (pagesize (info (Hw.dev st)) =? 0); [discriminate|].
      pose proof (SetWordAddress_same_handle (Hw.dev st) i) as Hh.
      destruct (AT24Cxx_SetWordAddress (Hw.dev st) i) as [dev' msz].
      cbn [fst] in Hh. cbv zeta in Hrun.
      destruct (Hw.wmem (port dev') _ _ _ _ _ _) as [r w'].
      apply IH in Hrun. destruct Hrun as (calls & Hlog & Hrd & Hch & Hrsp & Hh').
      cbn [Hw.log Hw.dev] in *.
      eexists (_ :: calls). rewrite Hlog, <- app_assoc. split; [reflexivity|].
      destruct Hh as (T & Ps & Q & B).
      rewrite Ps in Hch.
      split; [exact Hrd|]. split; [cbn [chunks_of flat_map app]; f_equal; exact Hch|].
      split.
      * cbn [statuses_of flat_map app]. rewrite last_cons. exact Hrsp.
      * eapply same_handle_trans; [|exact Hh']. unfold same_handle. auto.
    + injection Hrun as <- <-. exists []. rewrite app_nil_r.
      auto using same_handle_refl.
Qed.

(** With a page size of at least one byte and an end address that does
    not wrap, the Write loop returns once the fuel covers the request. *)
Lemma Write_loop_returns (fuel : nat) :
  forall (st : Hw.state W) i RemainSize data rsp,
    0 < pagesize (info (Hw.dev st)) < 2 ^ 16 ->
    0 <= i -> 0 <= RemainSize -> i + RemainSize < 2 ^ 32 ->
    (Z.to_nat RemainSize <= fuel)%nat ->
    exists rsp' st',
      Hw.Write_loop fuel st i (i + RemainSize) RemainSize data rsp = Done (rsp', st').
Proof.
  induction fuel as [|fuel IH]; intros st i R data rsp Hp Hi Hr Hend Hfuel.
  - assert (R = 0) by lia. subst R. cbn [Hw.Write_loop].
    rewrite Z.add_0_r, Z.ltb_irrefl. eauto.
  - cbn [Hw.Write_loop]. destruct (Z.ltb_spec i (i + R)); [|eauto].
    destruct (Z.eqb_spec (pagesize (info (Hw.dev st))) 0); [lia|].
    destruct (page_step _ i R Hp Hi ltac:(lia) Hend) as (Hs & Hsp & Hi' & Hr').
    pose proof (SetWordAddress_same_handle (Hw.dev st) i) as (_ & Ps & _).
    destruct (AT24Cxx_SetWordAddress (Hw.dev st) i) as [dev' msz].
    cbn [fst] in Ps. cbv zeta.
    destruct (Hw.wmem (port dev') _ _ _ _ _ _) as [r w'].
    rewrite Hi', Hr'.
    set (size := min R _) in *.
    replace (i + R) with (i + size + (R - size)) by lia.
    apply IH; cbn [Hw.dev]; try lia.
Qed.

End HwLoops.

Section HwErase.
Context {W : Type}.

(** A run of the Erase loop that returns; its chunks are cut at the
    multiples of [erase_size]. *)
Lemma Erase_loop_Done (fuel : nat) :
  forall (st : Hw.state W) i EndAddr RemainSize erase_size fbuf rsp rsp' st',
    Hw.Erase_loop fuel st i EndAddr RemainSize erase_size fbuf rsp = Done (rsp', st') ->
    exists calls,
      Hw.log st' = Hw.log st ++ calls /\
      reads_of calls = [] /\
      chunks_of calls = split fuel erase_size i EndAddr RemainSize /\
      rsp' = last (statuses_of calls) rsp /\
      same_handle (Hw.dev st) (Hw.dev st').
Proof.
  induction fuel as [|fuel IH]; intros st i E R es fbuf rsp rsp' st' Hrun.
  - cbn [Hw.Erase_loop split] in *. destruct (i <? E); [discriminate|].
    injection Hrun as <- <-. exists []. rewrite app_nil_r.
    auto using same_handle_refl.
  - cbn [Hw.Erase_loop split] in *. destruct (i <? E).
    + destruct (es =? 0); [discriminate|].
      pose proof (SetWordAddress_same_handle (Hw.dev st) i) as Hh.
      destruct (AT24Cxx_SetWordAddress (Hw.dev st) i) as [dev' msz].
      cbn [fst] in Hh. cbv zeta in Hrun.
      destruct (Hw.wmem (port dev') _ _ _ _ _ _) as [r w'].
      apply IH in Hrun. destruct Hrun as (calls & Hlog & Hrd & Hch & Hrsp & Hh').
      cbn [Hw.log Hw.dev] in *.
      eexists (_ :: calls). rewrite Hlog, <- app_assoc. split; [reflexivity|].
      split; [exact Hrd|]. split; [cbn [chunks_of flat_map app]; f_equal; exact Hch|].
      split.
      * cbn [statuses_of flat_map app]. rewrite last_cons. exact Hrsp.
      * eapply same_handle_trans; [exact Hh|exact Hh'].
    + injection Hrun as <- <-. exists []. rewrite app_nil_r.
      auto using same_handle_refl.
Qed.

Lemma Erase_loop_returns (fuel : nat) :
  forall (st : Hw.state W) i RemainSize erase_size fbuf rsp,
    0 < erase_size < 2 ^ 16 ->
    0 <= i -> 0 <= RemainSize -> i + RemainSize < 2 ^ 32 ->
    (Z.to_nat RemainSize <= fuel)%nat ->
    exists rsp' st',
      Hw.Erase_loop fuel st i (i + RemainSize) RemainSize erase_size fbuf rsp
      = Done (rsp', st').
Proof.
  induction fuel as [|fuel IH]; intros st i R es fbuf rsp Hp Hi Hr Hend Hfuel.
  - assert (R = 0) by lia. subst R. cbn [Hw.Erase_loop].
    rewrite Z.add_0_r, Z.ltb_irrefl. eauto.
  - cbn [Hw.Erase_loop]. destruct (Z.ltb_spec i (i + R)); [|eauto].
    destruct (Z.eqb_spec es 0); [lia|].
    destruct (page_step _ i R Hp Hi ltac:(lia) Hend) as (Hs & Hsp & Hi' & Hr').
    destruct (AT24Cxx_SetWordAddress (Hw.dev st) i) as [dev' msz].
    cbv zeta.
    destruct (Hw.wmem (port dev') _ _ _ _ _ _) as [r w'].
    rewrite Hi', Hr'.
    set (size := min R _) in *.
    replace (i + R) with (i + size + (R - size)) by lia.
    apply IH; lia.
Qed.

End HwErase.

(** The erase granule: the scratch buffer's length, capped by the page. *)
Lemma erase_size_val (ps : Z) :
  0 < ps < 2 ^ 16 ->
  uint16_t (min (uint16_t (max 8 AT24Cxx_MAX_ERASE_SIZE)) ps)
  = Z.min (Z.max 8 AT24Cxx_MAX_ERASE_SIZE) ps.
Proof.
  intros Hp. change (uint16_t (max 8 AT24Cxx_MAX_ERASE_SIZE)) with 10.
  change (Z.max 8 AT24Cxx_MAX_ERASE_SIZE) with 10.
  rewrite min_is_Zmin. unfold uint16_t. apply Z.mod_small. lia.
Qed.

(** * The paged splitter of Write *)

(** C4 (amended): for a page size of at least one byte and a request whose
    end address [saddr + size] does not wrap around 2^32, [AT24Cxx_Write]
    returns, and the chunks it issues have lengths that sum to [size], are
    contiguous and non-overlapping from [saddr], and each lies within a
    single page. *)
Theorem Write_chunk_coverage {W} (fuel : nat) (st : Hw.state W)
  (saddr size : Z) (data : list Z) :
  1 <= pagesize (info (Hw.dev st)) < 2 ^ 16 ->
  0 <= saddr -> 0 <= size -> saddr + size < 2 ^ 32 ->
  (Z.to_nat size <= fuel)%nat ->
  exists rsp st' calls,
    Hw.AT24Cxx_Write fuel st saddr data size = Done (rsp, st') /\
    Hw.log st' = Hw.log st ++ calls /\
    reads_of calls = [] /\
    total_length (chunks_of calls) = size /\
    contiguous_from saddr (chunks_of calls) /\
    Forall (within_page (pagesize (info (Hw.dev st)))) (chunks_of calls).
Proof.
  intros Hp Ha Hs Hend Hfuel. unfold Hw.AT24Cxx_Write.
  rewrite uint32_small by lia.
  destruct (Write_loop_returns fuel st saddr size data 0) as (rsp & st' & Hrun);
    try lia.
  exists rsp, st'.
  destruct (Write_loop_Done _ _ _ _ _ _ _ _ _ Hrun) as (calls & Hlog & Hrd & Hch & _).
  exists calls. rewrite Hch.
  destruct (split_spec fuel (pagesize (info (Hw.dev st))) ltac:(lia)
              saddr size Ha Hs Hend Hfuel) as (Ht & Hc & Hw & _).
  auto 10.
Qed.

(** The end-to-end scenario of the spec: a 32 Kbit chip, 50 bytes written
    at address 100, go out as 28 bytes at 100 and 22 bytes at 128. *)
Example Write_end_to_end :
  exists rsp st',
    Hw.AT24Cxx_Write 50 (Hw.init (configured null_bus AT24C32 0xA 0) tt)
                     100 (repeat 0x5A 50) 50 = Done (rsp, st') /\
    chunks_of (Hw.log st') = [(100, 28); (128, 22)].
Proof. eexists _, _. split; reflexivity. Qed.

(** The boundary case of the spec: two bytes written at [page_size - 1] go
    out as two chunks of one byte. *)
Example Write_boundary_case :
  exists rsp st',
    Hw.AT24Cxx_Write 2 (Hw.init (configured null_bus AT24C04 0xA 0) tt)
                     15 [1; 2] 2 = Done (rsp, st') /\
    chunks_of (Hw.log st') = [(15, 1); (16, 1)].
Proof. eexists _, _. split; reflexivity. Qed.

Lemma Write_chunk_coverage_witness :
  exists rsp st' calls,
    Hw.AT24Cxx_Write 50 (Hw.init (configured null_bus AT24C32 0xA 0) tt)
                     100 (repeat 0x5A 50) 50 = Done (rsp, st') /\
    Hw.log st' = [] ++ calls /\
    reads_of calls = [] /\
    total_length (chunks_of calls) = 50 /\
    contiguous_from 100 (chunks_of calls) /\
    Forall (within_page 32) (chunks_of calls).
Proof.
  apply (Write_chunk_coverage 50 (Hw.init (configured null_bus AT24C32 0xA 0) tt)
           100 50 (repeat 0x5A 50)); try lia.
  change (1 <= 32 < 2 ^ 16). lia.
Defined.

(** C4, as stated, fails when the end address wraps: two bytes at the last
    32-bit address give [EndAddr = 1], the loop is not entered and nothing
    is written. *)
Lemma Write_chunk_coverage_wraps :
  exists rsp st',
    Hw.AT24Cxx_Write 2 (Hw.init (configured null_bus AT24C32 0xA 0) tt)
                     (2 ^ 32 - 1) [1; 2] 2 = Done (rsp, st') /\
    chunks_of (Hw.log st') = [] /\
    total_length (chunks_of (Hw.log st')) <> 2.
Proof. eexists _, _. repeat split. discriminate. Qed.

(** * The paged splitter of Erase *)



(** C1 fails in the code. The block-transport [AT24Cxx_Erase] computes
    "the remaining size of the current page" as
    [erase_size - (i % erase_size)], from the length of its scratch buffer
    and not from the page size. On an AT24C04 (16-byte pages), erasing 10
    bytes at address 10 goes out as the single chunk (10, 10), which runs
    over the page boundary at 16. [AT24Cxx_Write] at the same place cuts
    (10, 6) and (16, 4), and so does the bit-level [AT24Cxx_Erase], which
    computes [pagesize - (i % pagesize)]: two frames, six fill bytes at
    address 10 and four at address 16. *)
Theorem Erase_split_crosses_page :
  exists rsp st' rsp2 st2 rsp3 st3,
    Hw.AT24Cxx_Erase 10 (Hw.init (configured null_bus AT24C04 0xA 0) tt)
                     10 0xFF 10 (repeat 0 10) = Done (rsp, st') /\
    chunks_of (Hw.log st') = [(10, 10)] /\
    ~ Forall (within_page 16) (chunks_of (Hw.log st')) /\
    Hw.AT24Cxx_Write 10 (Hw.init (configured null_bus AT24C04 0xA 0) tt)
                     10 (repeat 0xFF 10) 10 = Done (rsp2, st2) /\
    chunks_of (Hw.log st2) = [(10, 6); (16, 4)] /\
    Forall (within_page 16) (chunks_of (Hw.log st2)) /\
    Sw.AT24Cxx_Erase 10 (Sw.init (configured counting_bus AT24C04 0xA 0) 0)
                     10 0xFF 10 = Done (rsp3, st3) /\
    requests_of (Sw.log st3)
    = [Sw.Strt; Sw.Waddr 0xA0 0; Sw.Wbyte 10 0] ++ repeat (Sw.Wbyte 0xFF 0) 6
      ++ [Sw.Stop; Sw.Strt; Sw.Waddr 0xA0 0; Sw.Wbyte 16 0]
      ++ repeat (Sw.Wbyte 0xFF 0) 4 ++ [Sw.Stop].
Proof.
  eexists _, _, _, _, _, _.
  split; [reflexivity|]. split; [reflexivity|]. split.
  { intros H. apply Forall_inv in H. vm_compute in H. discriminate. }
  split; [reflexivity|]. split; [reflexivity|]. split.
  { repeat constructor. }
  split; [vm_compute; reflexivity|]. vm_compute. reflexivity.
Qed.

(** A request whose end address wraps around 2^32 is not erased at all,
    as it is not written by [AT24Cxx_Write]. *)
Example Erase_end_address_wraps :
  exists rsp st',
    Hw.AT24Cxx_Erase 10 (Hw.init (configured null_bus AT24C04 0xA 0) tt)
                     (2 ^ 32 - 1) 0xFF 2 (repeat 0 10) = Done (rsp, st') /\
    chunks_of (Hw.log st') = [] /\
    total_length (chunks_of (Hw.log st')) <> 2.
Proof. eexists _, _. repeat split. discriminate. Qed.

(** * What Erase writes *)

Lemma firstn_repeat_app (a : Z) (n m : nat) (rest : list Z) :
  (n <= m)%nat -> firstn n (repeat a m ++ rest) = repeat a n.
Proof.
  revert m. induction n as [|n IH]; intros m Hle; [reflexivity|].
  destruct m as [|m]; [lia|]. simpl. f_equal. apply IH. lia.
Qed.

Section HwFill.
Context {W : Type}.

Lemma Erase_loop_fill (fuel : nat) :
  forall (st : Hw.state W) i EndAddr RemainSize erase_size fdata rest rsp rsp' st',
    0 < erase_size < 2 ^ 16 ->
    Hw.Erase_loop fuel st i EndAddr RemainSize erase_size
                  (repeat fdata (Z.to_nat erase_size) ++ rest) rsp = Done (rsp', st') ->
    exists calls,
      Hw.log st' = Hw.log st ++ calls /\ Forall (carries_fill fdata) calls.
Proof.
  induction fuel as [|fuel IH]; intros st i E R es fdata rest rsp rsp' st' Hes Hrun.
  - cbn [Hw.Erase_loop] in Hrun. destruct (i <? E); [discriminate|].
    injection Hrun as <- <-. exists []. rewrite app_nil_r. auto.
  - cbn [Hw.Erase_loop] in Hrun. destruct (i <? E).
    + destruct (Z.eqb_spec es 0); [lia|].
      destruct (AT24Cxx_SetWordAddress (Hw.dev st) i) as [dev' msz].
      cbv zeta in Hrun.
      destruct (Hw.wmem (port dev') _ _ _ _ _ _) as [r w'].
      apply IH in Hrun; [|exact Hes]. destruct Hrun as (calls & Hlog & Hfill).
      cbn [Hw.log] in Hlog.
      eexists (_ :: calls). rewrite Hlog, <- app_assoc. split; [reflexivity|].
      constructor; [|exact Hfill]. cbn [carries_fill].
      pose proof (Z.mod_pos_bound i es ltac:(lia)) as Hm.
      assert (Hcur : uint16_t (es - i mod es) = es - i mod es)
        by (apply uint16_small; lia).
      rewrite Hcur, min_is_Zmin.
      apply firstn_repeat_app. lia.
    + injection Hrun as <- <-. exists []. rewrite app_nil_r. auto.
Qed.

End HwFill.

(** Every transaction of [AT24Cxx_Erase] (block-transport build) carries
    copies of the fill byte only, as many as its length: what the scratch
    buffer held before the [memset] never reaches the bus. *)
Theorem Erase_writes_fill {W} (fuel : nat) (st : Hw.state W)
  (saddr fdata size : Z) (fbuf0 : list Z) (rsp : Z) (st' : Hw.state W) :
  1 <= pagesize (info (Hw.dev st)) < 2 ^ 16 ->
  Hw.AT24Cxx_Erase fuel st saddr fdata size fbuf0 = Done (rsp, st') ->
  exists calls,
    Hw.log st' = Hw.log st ++ calls /\ Forall (carries_fill fdata) calls.
Proof.
  intros Hp. unfold Hw.AT24Cxx_Erase, memset.
  rewrite erase_size_val by lia.
  apply Erase_loop_fill.
  change (Z.max 8 AT24Cxx_MAX_ERASE_SIZE) with 10. lia.
Qed.

Lemma Erase_writes_fill_witness :
  exists calls,
    Hw.log (Hw.mkState (configured null_bus AT24C04 0xA 0) tt
              [Hw.WMem 0xA0 10 1 (repeat 0xFF 10) 10 0])
    = [] ++ calls /\ Forall (carries_fill 0xFF) calls.
Proof.
  apply (Erase_writes_fill 10 (Hw.init (configured null_bus AT24C04 0xA 0) tt)
           10 0xFF 10 [1; 2; 3; 4; 5; 6; 7; 8; 9; 10] 0).
  - change (1 <= 16 < 2 ^ 16). lia.
  - vm_compute. reflexivity.
Defined.

(** * Empty requests *)

(** C10: with [size = 0], [AT24Cxx_Write] and [AT24Cxx_Erase] return 0
    without any bus transaction and leave the handle (and the bus) as they
    were: the state after the call is the state before it. *)
Theorem Write_Erase_size_zero {W} (fuel : nat) (st : Hw.state W)
  (saddr fdata : Z) (data fbuf0 : list Z) :
  0 <= saddr < 2 ^ 32 ->
  Hw.AT24Cxx_Write fuel st saddr data 0 = Done (0, st) /\
  Hw.AT24Cxx_Erase fuel st saddr fdata 0 fbuf0 = Done (0, st).
Proof.
  intros Ha. unfold Hw.AT24Cxx_Write, Hw.AT24Cxx_Erase.
  rewrite Z.add_0_r, uint32_small by lia.
  destruct fuel; cbn [Hw.Write_loop Hw.Erase_loop];
    rewrite Z.ltb_irrefl; auto.
Qed.

Lemma Write_Erase_size_zero_witness :
  Hw.AT24Cxx_Write 0 (Hw.init (configured (eeprom 0 0) AT24C16 0xA 0) [1; 2; 3])
                   0x7FF [] 0
  = Done (0, Hw.init (configured (eeprom 0 0) AT24C16 0xA 0) [1; 2; 3]) /\
  Hw.AT24Cxx_Erase 0 (Hw.init (configured (eeprom 0 0) AT24C16 0xA 0) [1; 2; 3])
                   0x7FF 0xFF 0 []
  = Done (0, Hw.init (configured (eeprom 0 0) AT24C16 0xA 0) [1; 2; 3]).
Proof.
  apply (Write_Erase_size_zero 0
           (Hw.init (configured (eeprom 0 0) AT24C16 0xA 0) [1; 2; 3])
           0x7FF 0xFF [] []).
  lia.
Defined.

(** * Statuses *)

Section HwStatus.
Context {W : Type}.

(** [AT24Cxx_Write] of the block-transport build returns the status of its
    last transaction, and 0 when there is none. *)
Lemma Write_returns_last_status (fuel : nat) (st : Hw.state W)
  (saddr size : Z) (data : list Z) (rsp : Z) (st' : Hw.state W) :
  Hw.AT24Cxx_Write fuel st saddr data size = Done (rsp, st') ->
  exists calls,
    Hw.log st' = Hw.log st ++ calls /\ rsp = last (statuses_of calls) 0.
Proof.
  unfold Hw.AT24Cxx_Write. intros Hrun.
  destruct (Write_loop_Done _ _ _ _ _ _ _ _ _ Hrun) as (calls & Hlog & _ & _ & Hr & _).
  eauto.
Qed.

(** So does [AT24Cxx_Erase] of the block-transport build. *)
Lemma Erase_returns_last_status (fuel : nat) (st : Hw.state W)
  (saddr fdata size : Z) (fbuf0 : list Z) (rsp : Z) (st' : Hw.state W) :
  Hw.AT24Cxx_Erase fuel st saddr fdata size fbuf0 = Done (rsp, st') ->
  exists calls,
    Hw.log st' = Hw.log st ++ calls /\ rsp = last (statuses_of calls) 0.
Proof.
  unfold Hw.AT24Cxx_Erase. intros Hrun.
  destruct (Erase_loop_Done _ _ _ _ _ _ _ _ _ _ Hrun)
    as (calls & Hlog & _ & _ & Hr & _).
  eauto.
Qed.

End HwStatus.

Lemma Write_returns_last_status_witness :
  exists calls,
    Hw.log (Hw.mkState (configured flaky AT24C01 0xA 0) 2%nat
              [Hw.WMem 0xA0 0 1 (repeat 0x11 8) 8 1;
               Hw.WMem 0xA0 8 1 (repeat 0x11 8) 8 0])
    = [] ++ calls /\
    0 = last (statuses_of calls) 0.
Proof.
  apply (Write_returns_last_status 2
           (Hw.init (configured flaky AT24C01 0xA 0) 0%nat) 0 16 (repeat 0x11 16)).
  vm_compute. reflexivity.
Defined.

Lemma Erase_returns_last_status_witness :
  exists calls,
    Hw.log (Hw.mkState (configured flaky AT24C01 0xA 0) 2%nat
              [Hw.WMem 0xA0 0 1 (repeat 0xFF 8) 8 1;
               Hw.WMem 0xA0 8 1 (repeat 0xFF 8) 8 0])
    = [] ++ calls /\
    0 = last (statuses_of calls) 0.
Proof.
  apply (Erase_returns_last_status 2
           (Hw.init (configured flaky AT24C01 0xA 0) 0%nat) 0 0xFF 16 (repeat 0 10)).
  vm_compute. reflexivity.
Defined.

(** C2 at its failing input: on an AT24C01 (8-byte pages), 16 bytes at
    address 0 go out as two transactions; the first fails (status 1), the
    second succeeds (status 0), and both [AT24Cxx_Write] and [AT24Cxx_Erase]
    return 0, where the OR of the statuses is 1. Both transactions are
    attempted. *)
Theorem Write_Erase_lose_first_failure :
  (exists st',
     Hw.AT24Cxx_Write 2 (Hw.init (configured flaky AT24C01 0xA 0) 0%nat)
                      0 (repeat 0x11 16) 16 = Done (0, st') /\
     chunks_of (Hw.log st') = [(0, 8); (8, 8)] /\
     statuses_of (Hw.log st') = [1; 0] /\
     or_all (statuses_of (Hw.log st')) = 1) /\
  (exists st',
     Hw.AT24Cxx_Erase 2 (Hw.init (configured flaky AT24C01 0xA 0) 0%nat)
                      0 0xFF 16 (repeat 0 10) = Done (0, st') /\
     chunks_of (Hw.log st') = [(0, 8); (8, 8)] /\
     statuses_of (Hw.log st') = [1; 0] /\
     or_all (statuses_of (Hw.log st')) = 1).
Proof. split; eexists; repeat split. Qed.

(** * The read-back verifier and the statuses *)

Section StatusBlind.
Context {W : Type} (f : Z -> Z).

Lemma status_blind_rebus (st : Hw.state W) :
  status_blind f st (rebus st (with_status f (port (Hw.dev st)))).
Proof. unfold status_blind, rebus. simpl. auto. Qed.

Lemma SetWordAddress_blind (d1 d2 : at24cxx_t (Hw.hw_i2c_t W)) (addr : Z) :
  info d2 = info d1 -> port d2 = with_status f (port d1) ->
  info (fst (AT24Cxx_SetWordAddress d2 addr))
  = info (fst (AT24Cxx_SetWordAddress d1 addr)) /\
  port (fst (AT24Cxx_SetWordAddress d2 addr))
  = with_status f (port (fst (AT24Cxx_SetWordAddress d1 addr))) /\
  snd (AT24Cxx_SetWordAddress d2 addr) = snd (AT24Cxx_SetWordAddress d1 addr).
Proof.
  destruct d1 as [[t1 b1 ps1] p1], d2 as [[t2 b2 ps2] p2]. simpl.
  intros [= -> -> ->] ->.
  unfold AT24Cxx_SetWordAddress; destruct t1; simpl; auto.
Qed.

(** A read over the two buses brings back the same bytes. *)
Lemma Read_blind (st1 st2 : Hw.state W) (saddr : Z) (data : list Z) (size : Z) :
  status_blind f st1 st2 ->
  snd (fst (Hw.AT24Cxx_Read st2 saddr data size))
  = snd (fst (Hw.AT24Cxx_Read st1 saddr data size)) /\
  status_blind f (snd (Hw.AT24Cxx_Read st1 saddr data size))
                 (snd (Hw.AT24Cxx_Read st2 saddr data size)).
Proof.
  intros (Hi & Hp & Hw). unfold Hw.AT24Cxx_Read.
  destruct (SetWordAddress_blind (Hw.dev st1) (Hw.dev st2) saddr Hi Hp)
    as (Hi' & Hp' & Hs').
  destruct (AT24Cxx_SetWordAddress (Hw.dev st1) saddr) as [d1 m1].
  destruct (AT24Cxx_SetWordAddress (Hw.dev st2) saddr) as [d2 m2].
  cbn [fst snd] in *. subst m2. rewrite Hp', Hi', Hw. cbn [with_status Hw.rmem].
  destruct (Hw.rmem (port d1) _ _ _ _ _ _) as [[r buf] w'].
  unfold status_blind. simpl. auto.
Qed.

Lemma Write_loop_blind (fuel : nat) :
  forall (st1 st2 : Hw.state W) i EndAddr RemainSize data rsp1 rsp2,
    status_blind f st1 st2 ->
    match Hw.Write_loop fuel st1 i EndAddr RemainSize data rsp1,
          Hw.Write_loop fuel st2 i EndAddr RemainSize data rsp2 with
    | Done (_, s1), Done (_, s2) => status_blind f s1 s2
    | DivZero, DivZero => True
    | NoFuel, NoFuel => True
    | _, _ => False
    end.
Proof.
  induction fuel as [|fuel IH]; intros st1 st2 i E R data rsp1 rsp2 Hb.
  - cbn [Hw.Write_loop]. destruct (i <? E); auto.
  - cbn [Hw.Write_loop]. destruct (i <? E); [|exact Hb].
    destruct Hb as (Hi & Hp & Hw). rewrite Hi.
    destruct (pagesize (info (Hw.dev st1)) =? 0); [exact I|].
    destruct (SetWordAddress_blind (Hw.dev st1) (Hw.dev st2) i Hi Hp)
      as (Hi' & Hp' & Hs').
    destruct (AT24Cxx_SetWordAddress (Hw.dev st1) i) as [d1 m1].
    destruct (AT24Cxx_SetWordAddress (Hw.dev st2) i) as [d2 m2].
    cbn [fst snd] in *. subst m2. cbv zeta.
    rewrite Hp', Hi', Hw. cbn [with_status Hw.wmem].
    destruct (Hw.wmem (port d1) _ _ _ _ _ _) as [r w'].
    apply IH. unfold status_blind. simpl. auto.
Qed.

Lemma Readback_loop_blind (fuel : nat) :
  forall (st1 st2 : Hw.state W) i quotient addr data compare_data,
    status_blind f st1 st2 ->
    match Hw.Readback_loop fuel st1 i quotient addr data compare_data,
          Hw.Readback_loop fuel st2 i quotient addr data compare_data with
    | Done (inl s1), Done (inl s2) => status_blind f s1 s2
    | Done (inr (i1, c1, s1)), Done (inr (i2, c2, s2)) =>
        i2 = i1 /\ c2 = c1 /\ status_blind f s1 s2
    | DivZero, DivZero => True
    | NoFuel, NoFuel => True
    | _, _ => False
    end.
Proof.
  induction fuel as [|fuel IH]; intros st1 st2 i q addr data cmp Hb.
  - cbn [Hw.Readback_loop]. destruct (i <? q); auto.
  - cbn [Hw.Readback_loop]. destruct (i <? q); [|auto].
    destruct (Read_blind st1 st2
                (uint32_t (addr + uint16_t (i * AT24Cxx_MAX_COMPARE_SIZE)))
                cmp AT24Cxx_MAX_COMPARE_SIZE Hb) as (Hd & Hb').
    destruct (Hw.AT24Cxx_Read st1 _ _ _) as [[r1 c1] s1].
    destruct (Hw.AT24Cxx_Read st2 _ _ _) as [[r2 c2] s2].
    cbn [fst snd] in *. subst c2.
    destruct (mismatch data _ c1 _); [exact Hb'|].
    apply IH. exact Hb'.
Qed.

End StatusBlind.

(** C3 (amended): the value [AT24Cxx_Readback_Write] returns does not
    depend on the statuses of its Write and Reads. Whatever the statuses
    the transport reports are replaced with, the call ends the same way,
    with the same returned value, handle and bus contents: the verdict
    comes from the byte comparison alone. *)
Theorem Readback_Write_ignores_status {W} (f : Z -> Z) (fuel : nat)
  (st : Hw.state W) (addr : Z) (data : list Z) (size : Z) (compare_data0 : list Z) :
  outcome (Hw.AT24Cxx_Readback_Write fuel
             (rebus st (with_status f (port (Hw.dev st))))
             addr data size compare_data0)
  = outcome (Hw.AT24Cxx_Readback_Write fuel st addr data size compare_data0).
Proof.
  unfold Hw.AT24Cxx_Readback_Write, Hw.AT24Cxx_Write.
  pose proof (Write_loop_blind f fuel st _ addr (uint32_t (addr + size)) size data 0 0
                (status_blind_rebus f st)) as Hw1.
  destruct (Hw.Write_loop fuel st _ _ _ _ _) as [[r1 s1]| |];
    destruct (Hw.Write_loop fuel (rebus _ _) _ _ _ _ _) as [[r2 s2]| |];
    try contradiction; try reflexivity.
  pose proof (Readback_loop_blind f fuel s1 s2 0
                (uint16_t (size / AT24Cxx_MAX_COMPARE_SIZE)) addr data compare_data0 Hw1)
    as Hl.
  destruct (Hw.Readback_loop fuel s1 _ _ _ _ _) as [[t1|[[i1 c1] t1]]| |];
    destruct (Hw.Readback_loop fuel s2 _ _ _ _ _) as [[t2|[[i2 c2] t2]]| |];
    try contradiction; try reflexivity.
  - destruct Hl as (Hi & _ & Hw). simpl. now rewrite Hi, Hw.
  - destruct Hl as (-> & -> & Hb).
    match goal with
    | |- context [Hw.AT24Cxx_Read t1 ?a ?c ?n] =>
        destruct (Read_blind f t1 t2 a c n Hb) as (Hd & Hb');
        destruct (Hw.AT24Cxx_Read t1 a c n) as [[q1 d1] u1];
        destruct (Hw.AT24Cxx_Read t2 a c n) as [[q2 d2] u2]
    end.
    cbn [fst snd] in *. subst d2. destruct Hb' as (Hi & _ & Hw).
    destruct (mismatch data _ d1 _); simpl; now rewrite Hi, Hw.
Qed.

(** C3, as stated, fails: with a memory that stores and returns the bytes
    but reports a failure on every transfer, [AT24Cxx_Readback_Write]
    returns 0. *)
Lemma Readback_Write_swallows_failure :
  exists st',
    Hw.AT24Cxx_Readback_Write 13
      (Hw.init (configured (eeprom 1 1) AT24C16 0xA 0) (repeat 0 64))
      5 [1; 2; 3; 4; 5; 6; 7; 8; 9; 10; 11; 12; 13] 13 (repeat 0 10)
    = Done (0, st') /\
    map call_status (Hw.log st') = [1; 1; 1; 1] /\
    chunks_of (Hw.log st') = [(5, 11); (16, 2)] /\
    reads_of (Hw.log st') = [(5, 10); (15, 3)].
Proof.
  eexists. split; [vm_compute; reflexivity|]. vm_compute. auto.
Qed.

(** The verifier at work on an ideal memory: a write that reads back
    equal is accepted, twice in a row; a memory too short to hold the last
    bytes is caught by the comparison. *)
Example Readback_Write_accepts :
  exists st' st'',
    Hw.AT24Cxx_Readback_Write 13
      (Hw.init (configured (eeprom 0 0) AT24C16 0xA 0) (repeat 0 64))
      5 [1; 2; 3; 4; 5; 6; 7; 8; 9; 10; 11; 12; 13] 13 (repeat 0 10)
    = Done (0, st') /\
    Hw.AT24Cxx_Readback_Write 13 st'
      5 [1; 2; 3; 4; 5; 6; 7; 8; 9; 10; 11; 12; 13] 13 (repeat 0 10)
    = Done (0, st'').
Proof.
  eexists _, _. split; [vm_compute; reflexivity|]. vm_compute. reflexivity.
Qed.

Example Readback_Write_rejects :
  exists st',
    Hw.AT24Cxx_Readback_Write 13
      (Hw.init (configured (eeprom 0 0) AT24C16 0xA 0) (repeat 0 16))
      5 [1; 2; 3; 4; 5; 6; 7; 8; 9; 10; 11; 12; 13] 13 (repeat 0 10)
    = Done (1, st').
Proof. eexists. vm_compute. reflexivity. Qed.

(** * Termination of the read-back verifier *)

(** The quotient bound of the 8-bit counter, as a bound on [size]. *)
Lemma quotient_bound (size : Z) :
  size / AT24Cxx_MAX_COMPARE_SIZE <= 255 <-> size <= 2559.
Proof.
  unfold AT24Cxx_MAX_COMPARE_SIZE.
  pose proof (Z.div_mod size 10 ltac:(lia)).
  pose proof (Z.mod_pos_bound size 10 ltac:(lia)). lia.
Qed.

Section Readback.
Context {W : Type}.

(** While the quotient fits the 8-bit counter, the counter does not wrap
    and the chunk loop is left after at most [quotient - i] rounds. *)
Lemma Readback_loop_returns (fuel : nat) :
  forall (st : Hw.state W) i quotient addr data compare_data,
    0 <= i <= quotient -> quotient <= 255 ->
    (Z.to_nat (quotient - i) <= fuel)%nat ->
    exists res,
      Hw.Readback_loop fuel st i quotient addr data compare_data = Done res.
Proof.
  induction fuel as [|fuel IH]; intros st i q addr data cmp Hi Hq Hfuel.
  - assert (i = q) by lia. subst i. cbn [Hw.Readback_loop].
    rewrite Z.ltb_irrefl. eauto.
  - cbn [Hw.Readback_loop]. destruct (Z.ltb_spec i q); [|eauto].
    destruct (Hw.AT24Cxx_Read st _ _ _) as [[r c] s].
    destruct (mismatch data _ c _); [eauto|].
    rewrite uint8_small by lia. apply IH; lia.
Qed.

End Readback.

(** With a page size of 0, a Write that has something to write stops at
    the division [i % 0]. *)
Lemma Write_loop_page_zero {W} (fuel : nat) (st : Hw.state W)
  (i EndAddr RemainSize : Z) (data : list Z) (rsp : Z) :
  pagesize (info (Hw.dev st)) = 0 -> i < EndAddr ->
  Hw.Write_loop (S fuel) st i EndAddr RemainSize data rsp = DivZero.
Proof.
  intros Hp Hlt. cbn [Hw.Write_loop].
  destruct (Z.ltb_spec i EndAddr); [|lia]. now rewrite Hp.
Qed.

(** C9: when the quotient [size / AT24Cxx_MAX_COMPARE_SIZE] is at most 255
    (that is, [size <= 2559]), [AT24Cxx_Readback_Write] terminates: it
    returns, with 0 or 1. The one other way the call ends is the division
    [i % 0] of its Write, on a handle with page size 0 (which
    [AT24Cxx_config] never makes) and a non-empty request. *)
Theorem Readback_Write_terminates {W} (fuel : nat) (st : Hw.state W)
  (addr : Z) (data : list Z) (size : Z) (compare_data0 : list Z) :
  0 <= pagesize (info (Hw.dev st)) < 2 ^ 16 ->
  0 <= addr < 2 ^ 16 -> 0 <= size < 2 ^ 16 ->
  size / AT24Cxx_MAX_COMPARE_SIZE <= 255 ->
  (Z.to_nat size <= fuel)%nat ->
  (exists v st',
     Hw.AT24Cxx_Readback_Write fuel st addr data size compare_data0 = Done (v, st') /\
     (v = 0 \/ v = 1)) \/
  (pagesize (info (Hw.dev st)) = 0 /\ 0 < size /\
   Hw.AT24Cxx_Readback_Write fuel st addr data size compare_data0 = DivZero).
Proof.
  intros Hp Ha Hs Hq Hfuel.
  unfold Hw.AT24Cxx_Readback_Write, Hw.AT24Cxx_Write.
  rewrite (uint32_small (addr + size)) by lia.
  assert (Hw : (exists r s1, Hw.Write_loop fuel st addr (addr + size) size data 0
                             = Done (r, s1)) \/
               (pagesize (info (Hw.dev st)) = 0 /\ 0 < size /\
                Hw.Write_loop fuel st addr (addr + size) size data 0 = DivZero)).
  { destruct (Z.eq_dec (pagesize (info (Hw.dev st))) 0) as [Hz|Hnz].
    - destruct (Z.eq_dec size 0) as [->|Hsz].
      + left. destruct fuel; cbn [Hw.Write_loop];
          rewrite Z.add_0_r, Z.ltb_irrefl; eauto.
      + right. destruct fuel as [|fuel]; [lia|].
        rewrite Write_loop_page_zero by lia. split; [assumption|]. split; [lia|reflexivity].
    - left. apply Write_loop_returns; lia. }
  destruct Hw as [(r & s1 & Hrun)|(Hz & Hsz & Hrun)];
    rewrite Hrun; [left|right; auto].
  assert (Hq0 : 0 <= size / AT24Cxx_MAX_COMPARE_SIZE).
  { apply Z.div_pos; unfold AT24Cxx_MAX_COMPARE_SIZE; lia. }
  assert (Hle : size / AT24Cxx_MAX_COMPARE_SIZE <= size).
  { unfold AT24Cxx_MAX_COMPARE_SIZE.
    pose proof (Z.div_mod size 10 ltac:(lia)).
    pose proof (Z.mod_pos_bound size 10 ltac:(lia)). lia. }
  rewrite (uint16_small (size / _)) by lia.
  destruct (Readback_loop_returns fuel s1 0 (size / AT24Cxx_MAX_COMPARE_SIZE)
              addr data compare_data0) as (res & Hloop); try lia.
  rewrite Hloop. destruct res as [s2|[[i c] s2]]; [eauto|].
  destruct (Hw.AT24Cxx_Read s2 _ _ _) as [[r' c'] s3].
  destruct (mismatch data _ c' _); eauto.
Qed.

Lemma Readback_Write_terminates_witness :
  (exists v st',
     Hw.AT24Cxx_Readback_Write 2559
       (Hw.init (configured null_bus AT24C512 0xA 0) tt)
       0 (repeat 0 2559) 2559 (repeat 0 10) = Done (v, st') /\
     (v = 0 \/ v = 1)) \/
  (128 = 0 /\ 0 < 2559 /\
   Hw.AT24Cxx_Readback_Write 2559
     (Hw.init (configured null_bus AT24C512 0xA 0) tt)
     0 (repeat 0 2559) 2559 (repeat 0 10) = DivZero).
Proof.
  apply (Readback_Write_terminates 2559
           (Hw.init (configured null_bus AT24C512 0xA 0) tt)
           0 (repeat 0 2559) 2559 (repeat 0 10)); try lia.
  - change (0 <= 128 < 2 ^ 16). lia.
  - apply quotient_bound. lia.
Defined.

Lemma mismatch_zeros (n m : nat) (point k : Z) :
  mismatch (repeat 0 n) point (repeat 0 m) k = false.
Proof.
  unfold mismatch. apply not_true_is_false. intros H.
  apply existsb_exists in H. destruct H as (j & _ & Hj).
  rewrite !nth_repeat in Hj. discriminate.
Qed.

Lemma Write_loop_null_bus (fuel : nat) :
  forall (st : Hw.state unit) i EndAddr RemainSize data rsp,
    port (Hw.dev st) = null_bus -> pagesize (info (Hw.dev st)) <> 0 ->
    match Hw.Write_loop fuel st i EndAddr RemainSize data rsp with
    | Done (_, st') => port (Hw.dev st') = null_bus
    | DivZero => False
    | NoFuel => True
    end.
Proof.
  induction fuel as [|fuel IH]; intros st i E R data rsp Hbus Hp.
  - cbn [Hw.Write_loop]. destruct (i <? E); auto.
  - cbn [Hw.Write_loop]. destruct (i <? E); [|exact Hbus].
    destruct (Z.eqb_spec (pagesize (info (Hw.dev st))) 0); [contradiction|].
    pose proof (SetWordAddress_same_handle (Hw.dev st) i) as (_ & Ps & Q & _).
    destruct (AT24Cxx_SetWordAddress (Hw.dev st) i) as [dev' msz].
    cbn [fst] in *. cbv zeta. rewrite Q, Hbus. cbn [null_bus Hw.wmem].
    apply IH; cbn [Hw.dev]; congruence.
Qed.

Lemma Readback_loop_wraps (fuel : nat) :
  forall (st : Hw.state unit) i addr,
    port (Hw.dev st) = null_bus -> 0 <= i < 256 ->
    Hw.Readback_loop fuel st i 256 addr (repeat 0 2560) (repeat 0 10) = NoFuel.
Proof.
  induction fuel as [|fuel IH]; intros st i addr Hbus Hi.
  - cbn [Hw.Readback_loop]. destruct (Z.ltb_spec i 256); [reflexivity|lia].
  - cbn [Hw.Readback_loop]. destruct (Z.ltb_spec i 256); [|lia].
    unfold Hw.AT24Cxx_Read.
    pose proof (SetWordAddress_same_handle (Hw.dev st)
                  (uint32_t (addr + uint16_t (i * AT24Cxx_MAX_COMPARE_SIZE))))
      as (_ & _ & Q & _).
    destruct (AT24Cxx_SetWordAddress (Hw.dev st) _) as [dev' msz].
    cbn [fst] in Q. rewrite Q, Hbus. cbn [null_bus Hw.rmem].
    rewrite (mismatch_zeros 2560 10).
    apply IH; cbn [Hw.dev]; [congruence|].
    unfold uint8_t. apply Z.mod_pos_bound. lia.
Qed.

(** The bound is sharp: one more comparison chunk ([size = 2560], quotient
    256) and a read-back that matches never leaves the chunk loop, whatever
    the fuel, because the 8-bit counter wraps from 255 to 0. *)
Lemma Readback_Write_loops_forever (fuel : nat) :
  Hw.AT24Cxx_Readback_Write fuel
    (Hw.init (configured null_bus AT24C512 0xA 0) tt)
    0 (repeat 0 2560) 2560 (repeat 0 10) = NoFuel.
Proof.
  unfold Hw.AT24Cxx_Readback_Write, Hw.AT24Cxx_Write.
  pose proof (Write_loop_null_bus fuel
                (Hw.init (configured null_bus AT24C512 0xA 0) tt)
                0 (uint32_t (0 + 2560)) 2560 (repeat 0 2560) 0
                eq_refl ltac:(discriminate)) as Hw.
  destruct (Hw.Write_loop fuel _ _ _ _ _ _) as [[r s]| |];
    [|contradiction|reflexivity].
  change (uint16_t (2560 / AT24Cxx_MAX_COMPARE_SIZE)) with 256.
  now rewrite Readback_loop_wraps by (auto; lia).
Qed.

(** * The top nibble of the device-address byte *)

Lemma same_fixed_devtype (b b' : Z) :
  same_fixed_bits b b' -> devtype_bit b' = devtype_bit b.
Proof.
  unfold same_fixed_bits, devtype_bit. intros H.
  apply Z.bits_inj'. intros k Hk.
  rewrite !Z.land_spec, !Z.shiftr_spec by lia.
  change 0xF with (Z.ones 4). rewrite Z.testbit_ones_nonneg by lia.
  destruct (Z.ltb_spec k 4); [|now rewrite !andb_false_r].
  rewrite !andb_true_r.
  apply (f_equal (fun x => Z.testbit x (k + 4))) in H.
  rewrite !Z.land_spec in H.
  assert (Hc : k = 0 \/ k = 1 \/ k = 2 \/ k = 3) by lia.
  destruct Hc as [->|[->|[->| ->]]]; simpl Z.add in *;
    match type of H with
    | context [Z.testbit 241 ?c] => change (Z.testbit 241 c) with true in H
    end; now rewrite !andb_true_r in H.
Qed.

Lemma config_devtype {P} (dev : at24cxx_t P) (t : AT24Cxx_CHIP) (devaddr haraddr : Z) :
  devtype_bit (i2caddr (info (AT24Cxx_config dev t devaddr haraddr)))
  = Z.land devaddr 0xF.
Proof.
  unfold AT24Cxx_config, devtype_bit, set_hardaddr_bit, set_devtype_bit.
  cbn [info i2caddr]. apply Z.bits_inj'. intros k Hk.
  rewrite !Z.land_spec, Z.shiftr_spec by lia.
  rewrite !set_field_testbit by lia.
  change 0xF with (Z.ones 4). rewrite Z.testbit_ones_nonneg by lia.
  replace (k + 4 - 4) with k by lia.
  repeat match goal with
         | |- context [Z.leb ?a ?b] => destruct (Z.leb_spec a b); try lia
         | |- context [Z.ltb ?a ?b] => destruct (Z.ltb_spec a b); try lia
         end; simpl; rewrite ?andb_true_r, ?andb_false_r; reflexivity.
Qed.

Section HwFrame.
Context {W : Type}.

Lemma Read_same_handle (st : Hw.state W) (saddr : Z) (data : list Z) (size : Z) :
  same_handle (Hw.dev st) (Hw.dev (snd (Hw.AT24Cxx_Read st saddr data size))).
Proof.
  unfold Hw.AT24Cxx_Read.
  pose proof (SetWordAddress_same_handle (Hw.dev st) saddr) as Hh.
  destruct (AT24Cxx_SetWordAddress (Hw.dev st) saddr) as [dev' msz].
  destruct (Hw.rmem (port dev') _ _ _ _ _ _) as [[r buf] w']. exact Hh.
Qed.

Lemma Readback_loop_same_handle (fuel : nat) :
  forall (st : Hw.state W) i quotient addr data compare_data,
    match Hw.Readback_loop fuel st i quotient addr data compare_data with
    | Done (inl st') => same_handle (Hw.dev st) (Hw.dev st')
    | Done (inr (_, _, st')) => same_handle (Hw.dev st) (Hw.dev st')
    | _ => True
    end.
Proof.
  induction fuel as [|fuel IH]; intros st i q addr data cmp.
  - cbn [Hw.Readback_loop]. destruct (i <? q); auto using same_handle_refl.
  - cbn [Hw.Readback_loop]. destruct (i <? q); [|apply same_handle_refl].
    pose proof (Read_same_handle st
                  (uint32_t (addr + uint16_t (i * AT24Cxx_MAX_COMPARE_SIZE)))
                  cmp AT24Cxx_MAX_COMPARE_SIZE) as Hr.
    destruct (Hw.AT24Cxx_Read st _ _ _) as [[r c] s]. cbn [snd] in Hr.
    destruct (mismatch data _ c _); [exact Hr|].
    specialize (IH s (uint8_t (i + 1)) q addr data c).
    destruct (Hw.Readback_loop fuel s _ _ _ _ _) as [[s'|[[i' c'] s']]| |];
      try exact I; eapply same_handle_trans; eauto.
Qed.

Lemma Readback_Write_same_handle (fuel : nat) (st : Hw.state W) (addr : Z)
  (data : list Z) (size : Z) (compare_data0 : list Z) (v : Z) (st' : Hw.state W) :
  Hw.AT24Cxx_Readback_Write fuel st addr data size compare_data0 = Done (v, st') ->
  same_handle (Hw.dev st) (Hw.dev st').
Proof.
  unfold Hw.AT24Cxx_Readback_Write, Hw.AT24Cxx_Write.
  destruct (Hw.Write_loop fuel st _ _ _ _ _) as [[r s1]| |] eqn:Hw1;
    try discriminate.
  apply Write_loop_Done in Hw1. destruct Hw1 as (_ & _ & _ & _ & _ & H1).
  pose proof (Readback_loop_same_handle fuel s1 0
                (uint16_t (size / AT24Cxx_MAX_COMPARE_SIZE)) addr data compare_data0)
    as H2.
  destruct (Hw.Readback_loop fuel s1 _ _ _ _ _) as [[s2|[[i c] s2]]| |];
    try discriminate.
  - intros [= <- <-]. eapply same_handle_trans; eauto.
  - match goal with
    | |- context [Hw.AT24Cxx_Read s2 ?a ?c ?n] =>
        pose proof (Read_same_handle s2 a c n) as H3;
        destruct (Hw.AT24Cxx_Read s2 a c n) as [[r3 c3] s3]
    end.
    cbn [snd] in H3.
    destruct (mismatch data _ c3 _); intros [= <- <-];
      eapply same_handle_trans; eauto using same_handle_trans.
Qed.

End HwFrame.

Lemma same_handle_keeps_nibble {P} (d d' : at24cxx_t P) :
  same_handle d d' -> keeps_nibble d d'.
Proof.
  intros (_ & _ & _ & H). split; [exact H|now apply same_fixed_devtype].
Qed.

(** C8: [AT24Cxx_config] leaves the low four bits of [devaddr] in the top
    nibble of the device-address byte, and [AT24Cxx_SetWordAddress],
    [AT24Cxx_Read], [AT24Cxx_Write], [AT24Cxx_Erase] and
    [AT24Cxx_Readback_Write] keep that nibble: the byte they leave differs
    from the one they found in bits 1 to 3 at most. *)
Theorem devtype_nibble_preserved {W} :
  (forall (d : at24cxx_t (Hw.hw_i2c_t W)) t devaddr haraddr,
     devtype_bit (i2caddr (info (AT24Cxx_config d t devaddr haraddr)))
     = Z.land devaddr 0xF) /\
  (forall (d : at24cxx_t (Hw.hw_i2c_t W)) addr,
     keeps_nibble d (fst (AT24Cxx_SetWordAddress d addr))) /\
  (forall (st : Hw.state W) saddr data size,
     keeps_nibble (Hw.dev st) (Hw.dev (snd (Hw.AT24Cxx_Read st saddr data size)))) /\
  (forall fuel (st : Hw.state W) saddr data size rsp st',
     Hw.AT24Cxx_Write fuel st saddr data size = Done (rsp, st') ->
     keeps_nibble (Hw.dev st) (Hw.dev st')) /\
  (forall fuel (st : Hw.state W) saddr fdata size fbuf0 rsp st',
     Hw.AT24Cxx_Erase fuel st saddr fdata size fbuf0 = Done (rsp, st') ->
     keeps_nibble (Hw.dev st) (Hw.dev st')) /\
  (forall fuel (st : Hw.state W) addr data size compare_data0 v st',
     Hw.AT24Cxx_Readback_Write fuel st addr data size compare_data0 = Done (v, st') ->
     keeps_nibble (Hw.dev st) (Hw.dev st')).
Proof.
  split; [intros; apply config_devtype|].
  split; [intros; apply same_handle_keeps_nibble, SetWordAddress_same_handle|].
  split; [intros; apply same_handle_keeps_nibble, Read_same_handle|].
  split; [|split].
  - intros fuel st saddr data size rsp st' Hrun.
    apply Write_loop_Done in Hrun. destruct Hrun as (_ & _ & _ & _ & _ & H).
    now apply same_handle_keeps_nibble.
  - intros fuel st saddr fdata size fbuf0 rsp st' Hrun.
    apply Erase_loop_Done in Hrun. destruct Hrun as (_ & _ & _ & _ & _ & H).
    now apply same_handle_keeps_nibble.
  - intros fuel st addr data size cmp v st' Hrun.
    apply Readback_Write_same_handle in Hrun.
    now apply same_handle_keeps_nibble.
Qed.

Lemma devtype_nibble_preserved_witness :
  devtype_bit (i2caddr (info (configured null_bus AT24C16 0xA 0))) = Z.land 0xA 0xF /\
  exists rsp st',
    Hw.AT24Cxx_Write 4 (Hw.init (configured null_bus AT24C16 0xA 0) tt)
                     0x5A3 [1; 2; 3; 4] 4 = Done (rsp, st') /\
    i2caddr (info (Hw.dev st')) = 0xAA /\
    keeps_nibble (configured null_bus AT24C16 0xA 0) (Hw.dev st').
Proof.
  split.
  - apply (proj1 (@devtype_nibble_preserved unit)).
  - eexists _, _. split; [vm_compute; reflexivity|]. split; [reflexivity|].
    apply (proj1 (proj2 (proj2 (proj2 (@devtype_nibble_preserved unit))))
             4%nat (Hw.init (configured null_bus AT24C16 0xA 0) tt)
             0x5A3 [1; 2; 3; 4] 4 0).
    vm_compute. reflexivity.
Defined.

(** * The read path *)

Lemma or_all_app (l1 l2 : list Z) : or_all (l1 ++ l2) = Z.lor (or_all l1) (or_all l2).
Proof.
  induction l1 as [|x l1 IH]; simpl; [reflexivity|].
  now rewrite IH, Z.lor_assoc.
Qed.

(** Below the capacity of the model, the device-address byte the encoder
    leaves and the word-address bytes name the address. *)
Lemma SetWordAddress_decodes {P} (dev : at24cxx_t P) (addr : Z) :
  0 <= addr < capacity (type (info dev)) ->
  decode (type (info dev))
         (i2caddr (info (fst (AT24Cxx_SetWordAddress dev addr))))
         (word_address_bytes addr (snd (AT24Cxx_SetWordAddress dev addr))) = addr.
Proof.
  intros Ha.
  pose proof (SetWordAddress_bits dev addr 1 ltac:(lia)) as H1.
  pose proof (SetWordAddress_bits dev addr 2 ltac:(lia)) as H2.
  pose proof (SetWordAddress_bits dev addr 3 ltac:(lia)) as H3.
  rewrite SetWordAddress_width. unfold decode, word_address_bytes.
  rewrite !rbit_b2z by lia.
  destruct dev as [[t b ps] p]; simpl type in *.
  destruct t; cbn [spec_spillover Z.eqb Pos.eqb] in H1, H2, H3;
    rewrite ?H1, ?H2, ?H3; clear H1 H2 H3;
    cbn [spec_word_address_width kbit capacity] in *;
    match goal with
    | |- context [if ?c then _ else _] =>
        let v := eval vm_compute in c in change c with v; cbv iota
    end;
    cbn [Z.eqb Pos.eqb];
    rewrite ?LSB_16_mod, ?MSB_16_mod, ?Z.shiftl_mul_pow2, ?Z.testbit_spec' by lia;
    change (2 ^ 8) with 256; change (2 ^ 9) with 512; change (2 ^ 10) with 1024;
    change (2 ^ 16) with 65536; change (2 ^ 17) with 131072;
    Z.div_mod_to_equations; lia.
Qed.

Section SwRead.
Context {W : Type}.

(** The acknowledged reads of the loop: [n] bytes, each answered [ACK],
    and no stop condition. *)
Lemma Read_loop_log (n : nat) :
  forall (st : Sw.state W) i data,
    exists evs,
      Sw.log (snd (Sw.Read_loop n st i data)) = Sw.log st ++ evs /\
      acks_of evs = repeat Sw.ACK n /\ stops_of evs = 0%nat /\
      Sw.dev (snd (Sw.Read_loop n st i data)) = Sw.dev st.
Proof.
  induction n as [|n IH]; intros st i data.
  - exists []. simpl. rewrite app_nil_r. auto.
  - cbn [Sw.Read_loop]. unfold Sw.rbyte.
    destruct (Sw.swi2c_rbyte _ _ _) as [r w].
    match goal with
    | |- context [Sw.Read_loop n ?s ?j ?d] =>
        destruct (IH s j d) as (evs & Hlog & Hacks & Hstop & Hdev)
    end.
    eexists (_ :: evs). rewrite Hlog. cbn [Sw.log]. rewrite <- app_assoc.
    split; [reflexivity|]. cbn [acks_of flat_map app repeat].
    split; [f_equal; exact Hacks|]. split; [exact Hstop|exact Hdev].
Qed.

Lemma send_address_log (st : Sw.state W) (memaddr_size a rsp : Z) :
  exists evs,
    Sw.log (snd (Sw.send_address st memaddr_size a rsp)) = Sw.log st ++ evs /\
    acks_of evs = [] /\ stops_of evs = 0%nat /\
    Sw.dev (snd (Sw.send_address st memaddr_size a rsp)) = Sw.dev st.
Proof.
  unfold Sw.send_address, Sw.waddr, Sw.wbyte.
  destruct (memaddr_size =? 1);
    repeat (cbn [snd Sw.log Sw.dev Sw.world];
            match goal with
            | |- context [Sw.swi2c_waddr ?p ?b ?w] => destruct (Sw.swi2c_waddr p b w)
            | |- context [Sw.swi2c_wbyte ?p ?b ?w] => destruct (Sw.swi2c_wbyte p b w)
            end);
    cbn [snd Sw.log Sw.dev Sw.world];
    rewrite <- ?app_assoc; eexists; (split; [reflexivity|]); auto.
Qed.

End SwRead.




Section SwReadRequest.
Context {W : Type}.



End SwReadRequest.



(** The bit-level read of four bytes at 0x123 of an AT24C64, event by
    event. *)
Example Read_bit_level_trace :
  Sw.log (snd (Sw.AT24Cxx_Read (Sw.init (configured counting_bus AT24C64 0xA 0) 0)
                               0x123 (repeat 0 4) 4))
  = [Sw.Strt; Sw.Waddr 0xA0 0; Sw.Wbyte 0x01 0; Sw.Wbyte 0x23 0;
     Sw.Strt; Sw.Raddr 0xA0 0;
     Sw.Rbyte Sw.ACK 0; Sw.Rbyte Sw.ACK 1; Sw.Rbyte Sw.ACK 2; Sw.Rbyte Sw.NACK 3;
     Sw.Stop].
Proof. reflexivity. Qed.

(** * The bit-level build: the sibling paths of Write and Erase *)

Section SwWrite.
Context {W : Type}.

Lemma send_address_status (st : Sw.state W) (memaddr_size a rsp : Z) :
  exists evs,
    Sw.log (snd (Sw.send_address st memaddr_size a rsp)) = Sw.log st ++ evs /\
    fst (Sw.send_address st memaddr_size a rsp) = Z.lor rsp (or_all (sw_statuses evs)).
Proof.
  unfold Sw.send_address, Sw.waddr, Sw.wbyte.
  destruct (memaddr_size =? 1);
    repeat (cbn [snd Sw.log Sw.dev Sw.world];
            match goal with
            | |- context [Sw.swi2c_waddr ?p ?b ?w] => destruct (Sw.swi2c_waddr p b w)
            | |- context [Sw.swi2c_wbyte ?p ?b ?w] => destruct (Sw.swi2c_wbyte p b w)
            end);
    cbn [fst snd Sw.log Sw.dev Sw.world];
    rewrite <- ?app_assoc; eexists; (split; [reflexivity|]);
    cbn [sw_statuses flat_map app or_all fold_right];
    rewrite ?Z.lor_0_r, ?Z.lor_assoc; reflexivity.
Qed.

Lemma send_data_status (n : nat) :
  forall (st : Sw.state W) data rsp,
    exists evs,
      Sw.log (snd (Sw.send_data n st data rsp)) = Sw.log st ++ evs /\
      fst (fst (Sw.send_data n st data rsp)) = Z.lor rsp (or_all (sw_statuses evs)).
Proof.
  induction n as [|n IH]; intros st data rsp.
  - exists []. simpl. now rewrite app_nil_r, Z.lor_0_r.
  - cbn [Sw.send_data]. unfold Sw.wbyte.
    destruct (Sw.swi2c_wbyte _ _ _) as [r w].
    match goal with
    | |- context [Sw.send_data n ?s ?d ?r] =>
        destruct (IH s d r) as (evs & Hlog & Hrsp)
    end.
    eexists (_ :: evs). rewrite Hlog, Hrsp. cbn [Sw.log]. rewrite <- app_assoc.
    split; [reflexivity|].
    cbn [sw_statuses flat_map app or_all fold_right]. now rewrite Z.lor_assoc.
Qed.

(** A run of the bit-level Write loop that returns: its status is the OR
    of the statuses of everything it put on the bus. *)
Lemma Sw_Write_loop_Done (fuel : nat) :
  forall (st : Sw.state W) i EndAddr RemainSize data rsp rsp' st',
    Sw.Write_loop fuel st i EndAddr RemainSize data rsp = Done (rsp', st') ->
    exists evs,
      Sw.log st' = Sw.log st ++ evs /\
      rsp' = Z.lor rsp (or_all (sw_statuses evs)).
Proof.
  induction fuel as [|fuel IH]; intros st i E R data rsp rsp' st' Hrun.
  - cbn [Sw.Write_loop] in Hrun. destruct (i <? E); [discriminate|].
    injection Hrun as <- <-. exists []. simpl. now rewrite app_nil_r, Z.lor_0_r.
  - cbn [Sw.Write_loop] in Hrun. destruct (i <? E).
    + destruct (pagesize (info (Sw.dev st)) =? 0); [discriminate|].
      destruct (AT24Cxx_SetWordAddress (Sw.dev st) i) as [dev' msz].
      cbv zeta in Hrun.
      match type of Hrun with
      | context [Sw.send_address ?s ?m ?a ?r] =>
          destruct (send_address_status s m a r) as (e1 & Hl1 & Hr1);
          destruct (Sw.send_address s m a r) as [rsp1 s1]
      end.
      match type of Hrun with
      | context [Sw.send_data ?n ?s ?d ?r] =>
          destruct (send_data_status n s d r) as (e2 & Hl2 & Hr2);
          destruct (Sw.send_data n s d r) as [[rsp2 d2] s2]
      end.
      apply IH in Hrun. destruct Hrun as (e3 & Hl3 & Hr3).
      cbn [fst snd Sw.stop Sw.strt Sw.log] in *.
      rewrite Hl3, Hl2, Hl1, <- !app_assoc. eexists. split; [reflexivity|].
      subst rsp' rsp2 rsp1. unfold sw_statuses.
      rewrite !flat_map_app, !or_all_app.
      cbn [flat_map app or_all fold_right].
      now rewrite !Z.lor_0_l, ?Z.lor_0_r, !Z.lor_assoc.
    + injection Hrun as <- <-. exists []. simpl. now rewrite app_nil_r, Z.lor_0_r.
Qed.

(** Filling [n] bytes is sending [n] bytes of a buffer of fill bytes. *)
Lemma send_fill_is_send_data (n : nat) :
  forall (st : Sw.state W) fdata rsp m,
    (n <= m)%nat ->
    Sw.send_data n st (repeat fdata m) rsp
    = (fst (Sw.send_fill n st fdata rsp), repeat fdata (m - n),
       snd (Sw.send_fill n st fdata rsp)).
Proof.
  induction n as [|n IH]; intros st fdata rsp m Hle.
  - simpl. now rewrite Nat.sub_0_r.
  - destruct m as [|m]; [lia|]. cbn [Sw.send_data Sw.send_fill repeat hd tl].
    destruct (Sw.wbyte fdata st) as [r s]. rewrite IH by lia. reflexivity.
Qed.

Lemma Sw_Erase_loop_is_Write_loop (fuel : nat) :
  forall (st : Sw.state W) i EndAddr RemainSize fdata rsp,
    0 <= RemainSize < 2 ^ 32 ->
    Sw.Erase_loop fuel st i EndAddr RemainSize fdata rsp
    = Sw.Write_loop fuel st i EndAddr RemainSize
                    (repeat fdata (Z.to_nat RemainSize)) rsp.
Proof.
  induction fuel as [|fuel IH]; intros st i E R fdata rsp HR; [reflexivity|].
  cbn [Sw.Erase_loop Sw.Write_loop]. destruct (i <? E); [|reflexivity].
  destruct (pagesize (info (Sw.dev st)) =? 0); [reflexivity|].
  destruct (AT24Cxx_SetWordAddress (Sw.dev st) i) as [dev' msz]. cbv zeta.
  set (cur := uint16_t (pagesize (info (Sw.dev st)) - i mod pagesize (info (Sw.dev st)))).
  assert (Hcur : 0 <= cur < 2 ^ 16) by (apply Z.mod_pos_bound; lia).
  assert (Hsize : 0 <= min R cur <= R) by (rewrite min_is_Zmin; lia).
  destruct (Sw.send_address _ _ _ _) as [rsp1 s1].
  rewrite send_fill_is_send_data by lia.
  destruct (Sw.send_fill _ _ _ _) as [rsp2 s2]. cbn [fst snd].
  rewrite IH by (unfold uint32_t; rewrite Z.mod_small; lia).
  rewrite (uint32_small (R - min R cur)) by lia.
  now rewrite Z2Nat.inj_sub by lia.
Qed.

End SwWrite.

(** In the bit-level build [AT24Cxx_Write] returns the OR of the statuses
    of all the bytes it sent. *)
Theorem Sw_Write_returns_or {W} (fuel : nat) (st : Sw.state W)
  (saddr size : Z) (data : list Z) (rsp : Z) (st' : Sw.state W) :
  Sw.AT24Cxx_Write fuel st saddr data size = Done (rsp, st') ->
  exists evs,
    Sw.log st' = Sw.log st ++ evs /\ rsp = or_all (sw_statuses evs).
Proof.
  unfold Sw.AT24Cxx_Write. intros Hrun.
  apply Sw_Write_loop_Done in Hrun. destruct Hrun as (evs & Hlog & Hrsp).
  exists evs. now rewrite Z.lor_0_l in Hrsp.
Qed.

(** In the bit-level build [AT24Cxx_Erase] is [AT24Cxx_Write] of [size]
    fill bytes: the same events on the bus, the same chunks, the same
    status. *)
Theorem Sw_Erase_is_Write_of_fill {W} (fuel : nat) (st : Sw.state W)
  (saddr fdata size : Z) :
  0 <= size < 2 ^ 32 ->
  Sw.AT24Cxx_Erase fuel st saddr fdata size
  = Sw.AT24Cxx_Write fuel st saddr (repeat fdata (Z.to_nat size)) size.
Proof.
  intros Hs. unfold Sw.AT24Cxx_Erase, Sw.AT24Cxx_Write.
  now apply Sw_Erase_loop_is_Write_loop.
Qed.

(** A failure is not lost in the bit-level build: 16 bytes at address 0
    of an AT24C01, the first byte written fails and all the later ones
    succeed, and [AT24Cxx_Write] returns 1. *)
Example Sw_Write_reports_first_failure :
  exists st',
    Sw.AT24Cxx_Write 2 (Sw.init (configured sw_flaky AT24C01 0xA 0) 0%nat)
                     0 (repeat 0x11 16) 16 = Done (1, st') /\
    sw_statuses (Sw.log st')
    = [0; 1; 0; 0; 0; 0; 0; 0; 0; 0; 0; 0; 0; 0; 0; 0; 0; 0; 0; 0].
Proof. eexists. split; [vm_compute; reflexivity|]. vm_compute. reflexivity. Qed.

Lemma Sw_Write_returns_or_witness :
  exists evs,
    Sw.log (match Sw.AT24Cxx_Write 2 (Sw.init (configured sw_flaky AT24C01 0xA 0) 0%nat)
                                   0 (repeat 0x11 16) 16 with
            | Done (_, st') => st'
            | _ => Sw.init (configured sw_flaky AT24C01 0xA 0) 0%nat
            end) = [] ++ evs /\
    1 = or_all (sw_statuses evs).
Proof.
  apply (Sw_Write_returns_or 2 (Sw.init (configured sw_flaky AT24C01 0xA 0) 0%nat)
           0 16 (repeat 0x11 16)).
  vm_compute. reflexivity.
Defined.

Lemma Sw_Erase_is_Write_of_fill_witness :
  Sw.AT24Cxx_Erase 3 (Sw.init (configured counting_bus AT24C04 0xA 0) 0) 10 0xFF 10
  = Sw.AT24Cxx_Write 3 (Sw.init (configured counting_bus AT24C04 0xA 0) 0) 10
                     (repeat 0xFF (Z.to_nat 10)) 10.
Proof.
  apply (Sw_Erase_is_Write_of_fill 3
           (Sw.init (configured counting_bus AT24C04 0xA 0) 0) 10 0xFF 10).
  lia.
Defined.

(** * Lists as memories *)

Lemma store_length (m : list Z) (i : nat) (v : Z) : length (store m i v) = length m.
Proof.
  revert i. induction m as [|h m IH]; intros [|i]; simpl; auto.
Qed.

Lemma store_char (m : list Z) (i : nat) (v : Z) :
  (i < length m)%nat -> store m i v = firstn i m ++ v :: skipn (S i) m.
Proof.
  revert i. induction m as [|h m IH]; intros [|i] Hi; simpl in *; try lia.
  - reflexivity.
  - f_equal. apply IH. lia.
Qed.

Lemma mem_write_app (l1 l2 : list Z) :
  forall m a,
    mem_write m a (l1 ++ l2) = mem_write (mem_write m a l1) (a + length l1) l2.
Proof.
  induction l1 as [|v l1 IH]; intros m a; simpl.
  - now rewrite Nat.add_0_r.
  - rewrite IH. f_equal. lia.
Qed.

Lemma mem_write_length (d : list Z) :
  forall m a, length (mem_write m a d) = length m.
Proof.
  induction d as [|v d IH]; intros m a; simpl; [reflexivity|].
  now rewrite IH, store_length.
Qed.

(** A block written within the memory replaces the bytes it covers and
    nothing else. *)
Lemma mem_write_char (d : list Z) :
  forall m a,
    (a + length d <= length m)%nat ->
    mem_write m a d = firstn a m ++ d ++ skipn (a + length d) m.
Proof.
  induction d as [|v d IH]; intros m a Hlen; simpl in *.
  - now rewrite Nat.add_0_r, firstn_skipn.
  - rewrite IH by (rewrite store_length; lia).
    rewrite store_char by lia.
    assert (Ha : length (firstn a m) = a) by (apply firstn_length_le; lia).
    replace (S a) with (length (firstn a m) + 1)%nat at 1 by lia.
    rewrite firstn_app_2. cbn [firstn]. rewrite <- app_assoc. cbn [app].
    f_equal. f_equal. f_equal.
    replace (S a + length d)%nat with (length (firstn a m) + (1 + length d))%nat by lia.
    rewrite skipn_app, skipn_all2 by lia. cbn [app].
    replace (length (firstn a m) + (1 + length d) - length (firstn a m))%nat
      with (S (length d)) by lia.
    change (skipn (S (length d)) (v :: skipn (S a) m))
      with (skipn (length d) (skipn (S a) m)).
    rewrite skipn_skipn. f_equal. lia.
Qed.

Lemma mem_read_written (pre d post : list Z) :
  mem_read (pre ++ d ++ post) (length pre) (length d) = d.
Proof.
  unfold mem_read. rewrite skipn_app, skipn_all, Nat.sub_diag. cbn [skipn app].
  rewrite firstn_app, firstn_all, Nat.sub_diag. cbn [firstn]. apply app_nil_r.
Qed.

Lemma firstn_plus_skipn (l : list Z) :
  forall n k, firstn n l ++ firstn k (skipn n l) = firstn (n + k) l.
Proof.
  induction l as [|h l IH]; intros [|n] k; simpl; try reflexivity.
  - now rewrite firstn_nil.
  - f_equal. apply IH.
Qed.

(** Within a page, the rolling write is the linear one. *)
Lemma paged_write_within (page : Z) (d : list Z) :
  0 < page ->
  forall m a k,
    0 <= a -> 0 <= k ->
    a mod page + k + Z.of_nat (length d) <= page ->
    paged_write page m a k d = mem_write m (Z.to_nat (a + k)) d.
Proof.
  intros Hp. induction d as [|v d IH]; intros m a k Ha Hk Hfit; [reflexivity|].
  cbn [paged_write mem_write]. cbn [length] in Hfit.
  pose proof (Z.mod_pos_bound a page Hp) as Hm.
  assert (Hw : page_wrap page a k = a + k).
  { unfold page_wrap. rewrite (Z.mod_small (a mod page + k)) by lia. lia. }
  rewrite Hw, IH by lia. f_equal. lia.
Qed.

Lemma eeprom_paged_stores (page wsta rsta : Z) :
  0 < page -> stores_in_pages page (eeprom_paged page wsta rsta).
Proof.
  intros Hp. unfold stores_in_pages. intros d a s data n m Ha Hfit.
  exists wsta. cbn [eeprom_paged Hw.wmem].
  rewrite paged_write_within by lia. now rewrite Z.add_0_r.
Qed.

Lemma eeprom_paged_reads (page wsta rsta : Z) :
  reads_memory (eeprom_paged page wsta rsta).
Proof. unfold reads_memory. intros. exists rsta. reflexivity. Qed.

(** * Write and Erase on a memory *)

Section HwMemory.

(** The Write loop on a memory that stores blocks that stay within a page:
    the loop returns and what is left of the request is stored at [i]. *)
Lemma Write_loop_stores (fuel : nat) :
  forall (st : Hw.state (list Z)) i RemainSize data rsp,
    stores_in_pages (pagesize (info (Hw.dev st))) (port (Hw.dev st)) ->
    0 < pagesize (info (Hw.dev st)) < 2 ^ 16 ->
    0 <= i -> 0 <= RemainSize -> i + RemainSize < 2 ^ 32 ->
    (Z.to_nat RemainSize <= length data)%nat ->
    (Z.to_nat RemainSize <= fuel)%nat ->
    exists rsp' st',
      Hw.Write_loop fuel st i (i + RemainSize) RemainSize data rsp = Done (rsp', st') /\
      Hw.world st'
      = mem_write (Hw.world st) (Z.to_nat i) (firstn (Z.to_nat RemainSize) data) /\
      same_handle (Hw.dev st) (Hw.dev st').
Proof.
  induction fuel as [|fuel IH]; intros st i R data rsp Hbus Hp Hi Hr Hend Hdata Hfuel.
  - assert (R = 0) by lia. subst R. cbn [Hw.Write_loop].
    rewrite Z.add_0_r, Z.ltb_irrefl. eexists _, _. split; [reflexivity|].
    split; [reflexivity|apply same_handle_refl].
  - cbn [Hw.Write_loop]. destruct (Z.ltb_spec i (i + R)).
    2:{ assert (R = 0) by lia. subst R. eexists _, _. split; [reflexivity|].
        split; [reflexivity|apply same_handle_refl]. }
    destruct (Z.eqb_spec (pagesize (info (Hw.dev st))) 0); [lia|].
    destruct (page_step _ i R Hp Hi ltac:(lia) Hend) as (Hs & Hsp & Hi' & Hr').
    pose proof (SetWordAddress_same_handle (Hw.dev st) i) as Hh.
    destruct (AT24Cxx_SetWordAddress (Hw.dev st) i) as [dev' msz].
    cbn [fst] in Hh. destruct Hh as (T & Ps & Q & B). cbv zeta.
    set (size := min R (uint16_t (pagesize (info (Hw.dev st))
                                  - i mod pagesize (info (Hw.dev st))))) in *.
    assert (Hlen : length (firstn (Z.to_nat size) data) = Z.to_nat size)
      by (apply firstn_length_le; lia).
    rewrite Q.
    destruct (Hbus (i2caddr (info dev')) i msz (firstn (Z.to_nat size) data) size
                (Hw.world st) Hi) as (r & Hwm).
    { rewrite firstn_firstn, Nat.min_id, Hlen. lia. }
    rewrite Hwm, firstn_firstn, Nat.min_id. rewrite Hi', Hr'.
    replace (i + R) with (i + size + (R - size)) by lia.
    match goal with
    | |- context [Hw.Write_loop fuel ?s _ _ _ ?d ?r] =>
        destruct (IH s (i + size) (R - size) d r) as (rsp' & st' & Hrun & Hw & Hh')
    end; cbn [Hw.dev Hw.world]; try rewrite Ps; try rewrite Q; try assumption; try lia.
    { rewrite length_skipn. lia. }
    exists rsp', st'. split; [exact Hrun|]. cbn [Hw.world Hw.dev] in *. split.
    + rewrite Hw.
      replace (Z.to_nat R) with (Z.to_nat size + Z.to_nat (R - size))%nat by lia.
      rewrite <- firstn_plus_skipn, mem_write_app, Hlen.
      f_equal. lia.
    + eapply same_handle_trans; [|exact Hh']. unfold same_handle. auto.
Qed.

(** The Erase loop on a memory that stores blocks that stay within an
    erase granule: what is left of the request is filled at [i]. *)
Lemma Erase_loop_stores (fuel : nat) :
  forall (st : Hw.state (list Z)) i RemainSize erase_size fdata rest rsp,
    stores_in_pages erase_size (port (Hw.dev st)) ->
    0 < erase_size < 2 ^ 16 ->
    0 <= i -> 0 <= RemainSize -> i + RemainSize < 2 ^ 32 ->
    (Z.to_nat RemainSize <= fuel)%nat ->
    exists rsp' st',
      Hw.Erase_loop fuel st i (i + RemainSize) RemainSize erase_size
                    (repeat fdata (Z.to_nat erase_size) ++ rest) rsp = Done (rsp', st') /\
      Hw.world st'
      = mem_write (Hw.world st) (Z.to_nat i) (repeat fdata (Z.to_nat RemainSize)) /\
      same_handle (Hw.dev st) (Hw.dev st').
Proof.
  induction fuel as [|fuel IH]; intros st i R es fdata rest rsp Hbus Hp Hi Hr Hend Hfuel.
  - assert (R = 0) by lia. subst R. cbn [Hw.Erase_loop].
    rewrite Z.add_0_r, Z.ltb_irrefl. eexists _, _. split; [reflexivity|].
    split; [reflexivity|apply same_handle_refl].
  - cbn [Hw.Erase_loop]. destruct (Z.ltb_spec i (i + R)).
    2:{ assert (R = 0) by lia. subst R. eexists _, _. split; [reflexivity|].
        split; [reflexivity|apply same_handle_refl]. }
    destruct (Z.eqb_spec es 0); [lia|].
    destruct (page_step es i R Hp Hi ltac:(lia) Hend) as (Hs & Hsp & Hi' & Hr').
    pose proof (SetWordAddress_same_handle (Hw.dev st) i) as Hh.
    destruct (AT24Cxx_SetWordAddress (Hw.dev st) i) as [dev' msz].
    cbn [fst] in Hh. destruct Hh as (T & Ps & Q & B). cbv zeta.
    set (size := min R (uint16_t (es - i mod es))) in *.
    pose proof (Z.mod_pos_bound i es ltac:(lia)) as Hm.
    rewrite (firstn_repeat_app fdata (Z.to_nat size) (Z.to_nat es) rest) by lia.
    rewrite Q.
    destruct (Hbus (i2caddr (info dev')) i msz (repeat fdata (Z.to_nat size)) size
                (Hw.world st) Hi) as (r & Hwm).
    { rewrite firstn_all2 by (rewrite repeat_length; lia).
      rewrite repeat_length. lia. }
    rewrite Hwm, firstn_all2 by (rewrite repeat_length; lia). rewrite Hi', Hr'.
    replace (i + R) with (i + size + (R - size)) by lia.
    match goal with
    | |- context [Hw.Erase_loop fuel ?s _ _ _ _ _ ?r] =>
        destruct (IH s (i + size) (R - size) es fdata rest r)
          as (rsp' & st' & Hrun & Hw & Hh')
    end; cbn [Hw.dev Hw.world]; try rewrite Q; try assumption; try lia.
    exists rsp', st'. split; [exact Hrun|]. cbn [Hw.world Hw.dev] in *. split.
    + rewrite Hw.
      replace (Z.to_nat R) with (Z.to_nat size + Z.to_nat (R - size))%nat by lia.
      rewrite repeat_app, mem_write_app, repeat_length.
      f_equal. lia.
    + eapply same_handle_trans; [|exact Hh']. unfold same_handle. auto.
Qed.

(** A read from a memory brings its bytes and leaves it as it is. *)
Lemma Read_from_memory (st : Hw.state (list Z)) (saddr : Z) (buf : list Z) (size : Z) :
  reads_memory (port (Hw.dev st)) ->
  snd (fst (Hw.AT24Cxx_Read st saddr buf size))
  = mem_read (Hw.world st) (Z.to_nat saddr) (Z.to_nat size) ++ skipn (Z.to_nat size) buf /\
  Hw.world (snd (Hw.AT24Cxx_Read st saddr buf size)) = Hw.world st.
Proof.
  intros Hrd. unfold Hw.AT24Cxx_Read.
  pose proof (SetWordAddress_same_handle (Hw.dev st) saddr) as (_ & _ & Q & _).
  destruct (AT24Cxx_SetWordAddress (Hw.dev st) saddr) as [dev' msz].
  cbn [fst] in Q. rewrite Q.
  destruct (Hrd (i2caddr (info dev')) saddr msz buf size (Hw.world st)) as (r & Hr).
  rewrite Hr. cbn [fst snd Hw.world]. auto.
Qed.

End HwMemory.

(** On a memory that stores every block that stays within a page of the
    handle's page size (as the chips do) and whose reads are faithful, a
    Write that fits the memory returns, leaves [data] at [saddr] and every
    other byte as it was, and a Read of the same range brings [data] back. *)
Theorem Write_then_Read (fuel : nat) (st : Hw.state (list Z))
  (saddr size : Z) (data : list Z) :
  stores_in_pages (pagesize (info (Hw.dev st))) (port (Hw.dev st)) ->
  reads_memory (port (Hw.dev st)) ->
  1 <= pagesize (info (Hw.dev st)) < 2 ^ 16 ->
  0 <= saddr -> 0 <= size ->
  saddr + size <= Z.of_nat (length (Hw.world st)) < 2 ^ 32 ->
  length data = Z.to_nat size ->
  (Z.to_nat size <= fuel)%nat ->
  exists rsp st',
    Hw.AT24Cxx_Write fuel st saddr data size = Done (rsp, st') /\
    Hw.world st'
    = firstn (Z.to_nat saddr) (Hw.world st) ++ data
      ++ skipn (Z.to_nat (saddr + size)) (Hw.world st) /\
    forall buf,
      snd (fst (Hw.AT24Cxx_Read st' saddr buf size))
      = data ++ skipn (Z.to_nat size) buf.
Proof.
  intros Hst Hrd Hp Ha Hs Hfit Hlen Hfuel. unfold Hw.AT24Cxx_Write.
  rewrite uint32_small by lia.
  destruct (Write_loop_stores fuel st saddr size data 0)
    as (rsp & st' & Hrun & Hw & (_ & _ & Q & _)); try lia; try assumption.
  exists rsp, st'. split; [exact Hrun|].
  rewrite <- Hlen, firstn_all in Hw.
  rewrite mem_write_char in Hw by lia.
  replace (Z.to_nat saddr + length data)%nat with (Z.to_nat (saddr + size)) in Hw by lia.
  split; [exact Hw|]. intros buf.
  destruct (Read_from_memory st' saddr buf size) as (Hb & _); [now rewrite Q|].
  rewrite Hb, Hw. f_equal.
  assert (Hpre : length (firstn (Z.to_nat saddr) (Hw.world st)) = Z.to_nat saddr)
    by (apply firstn_length_le; lia).
  rewrite <- Hpre at 2. rewrite <- Hlen. apply mem_read_written.
Qed.

Lemma Write_then_Read_witness :
  exists rsp st',
    Hw.AT24Cxx_Write 5
      (Hw.init (configured (eeprom_paged 16 0 0) AT24C04 0xA 0) (repeat 0 32))
      14 [1; 2; 3; 4; 5] 5 = Done (rsp, st') /\
    Hw.world st'
    = firstn (Z.to_nat 14) (repeat 0 32) ++ [1; 2; 3; 4; 5]
      ++ skipn (Z.to_nat (14 + 5)) (repeat 0 32) /\
    forall buf,
      snd (fst (Hw.AT24Cxx_Read st' 14 buf 5))
      = [1; 2; 3; 4; 5] ++ skipn (Z.to_nat 5) buf.
Proof.
  apply (Write_then_Read 5
           (Hw.init (configured (eeprom_paged 16 0 0) AT24C04 0xA 0) (repeat 0 32))
           14 5 [1; 2; 3; 4; 5]); try (simpl; lia); try reflexivity.
  - apply (eeprom_paged_stores 16 0 0). lia.
  - apply eeprom_paged_reads.
  - change (1 <= 16 < 2 ^ 16). lia.
Defined.

Lemma eeprom_stores (page wsta rsta : Z) : stores_in_pages page (eeprom wsta rsta).
Proof. unfold stores_in_pages. intros. exists wsta. reflexivity. Qed.

Lemma eeprom_reads (wsta rsta : Z) : reads_memory (eeprom wsta rsta).
Proof. unfold reads_memory. intros. exists rsta. reflexivity. Qed.

(** On a memory that stores every block that stays within an erase granule
    of min(max(8, AT24Cxx_MAX_ERASE_SIZE), page_size) bytes (a memory that
    does not roll over, or a chip with 8-byte pages) and whose reads are
    faithful, an Erase that fits the memory returns, leaves [size] copies
    of [fdata] at [saddr] and every other byte as it was, and a Read of the
    range brings the fill bytes back. *)
Theorem Erase_then_Read (fuel : nat) (st : Hw.state (list Z))
  (saddr fdata size : Z) (fbuf0 : list Z) :
  stores_in_pages (Z.min (Z.max 8 AT24Cxx_MAX_ERASE_SIZE) (pagesize (info (Hw.dev st))))
                  (port (Hw.dev st)) ->
  reads_memory (port (Hw.dev st)) ->
  1 <= pagesize (info (Hw.dev st)) < 2 ^ 16 ->
  0 <= saddr -> 0 <= size ->
  saddr + size <= Z.of_nat (length (Hw.world st)) < 2 ^ 32 ->
  (Z.to_nat size <= fuel)%nat ->
  exists rsp st',
    Hw.AT24Cxx_Erase fuel st saddr fdata size fbuf0 = Done (rsp, st') /\
    Hw.world st'
    = firstn (Z.to_nat saddr) (Hw.world st) ++ repeat fdata (Z.to_nat size)
      ++ skipn (Z.to_nat (saddr + size)) (Hw.world st) /\
    forall buf,
      snd (fst (Hw.AT24Cxx_Read st' saddr buf size))
      = repeat fdata (Z.to_nat size) ++ skipn (Z.to_nat size) buf.
Proof.
  intros Hst Hrd Hp Ha Hs Hfit Hfuel. unfold Hw.AT24Cxx_Erase, memset.
  rewrite uint32_small by lia. rewrite erase_size_val by lia.
  set (es := Z.min (Z.max 8 AT24Cxx_MAX_ERASE_SIZE) (pagesize (info (Hw.dev st)))) in *.
  assert (Hes : 0 < es < 2 ^ 16).
  { subst es. change (Z.max 8 AT24Cxx_MAX_ERASE_SIZE) with 10. lia. }
  match goal with
  | |- context [repeat fdata (Z.to_nat es) ++ ?r] =>
      destruct (Erase_loop_stores fuel st saddr size es fdata r 0)
        as (rsp & st' & Hrun & Hw & (_ & _ & Q & _)); try lia; try assumption
  end.
  exists rsp, st'. split; [exact Hrun|].
  rewrite mem_write_char in Hw by (rewrite repeat_length; lia).
  rewrite repeat_length in Hw.
  replace (Z.to_nat saddr + Z.to_nat size)%nat with (Z.to_nat (saddr + size)) in Hw by lia.
  split; [exact Hw|]. intros buf.
  destruct (Read_from_memory st' saddr buf size) as (Hb & _); [now rewrite Q|].
  rewrite Hb, Hw. f_equal.
  assert (Hpre : length (firstn (Z.to_nat saddr) (Hw.world st)) = Z.to_nat saddr)
    by (apply firstn_length_le; lia).
  rewrite <- Hpre at 2.
  rewrite <- (repeat_length fdata (Z.to_nat size)) at 2. apply mem_read_written.
Qed.

Lemma Erase_then_Read_witness :
  exists rsp st',
    Hw.AT24Cxx_Erase 12
      (Hw.init (configured (eeprom_paged 8 0 0) AT24C02 0xA 0) (repeat 0 32))
      5 0xFF 12 (repeat 0 10) = Done (rsp, st') /\
    Hw.world st'
    = firstn (Z.to_nat 5) (repeat 0 32) ++ repeat 0xFF (Z.to_nat 12)
      ++ skipn (Z.to_nat (5 + 12)) (repeat 0 32) /\
    forall buf,
      snd (fst (Hw.AT24Cxx_Read st' 5 buf 12))
      = repeat 0xFF (Z.to_nat 12) ++ skipn (Z.to_nat 12) buf.
Proof.
  apply (Erase_then_Read 12
           (Hw.init (configured (eeprom_paged 8 0 0) AT24C02 0xA 0) (repeat 0 32))
           5 0xFF 12 (repeat 0 10)); try (simpl; lia).
  - apply (eeprom_paged_stores 8 0 0). lia.
  - apply eeprom_paged_reads.
  - change (1 <= 8 < 2 ^ 16). lia.
Defined.

(** On a chip with 16-byte pages the same Erase goes wrong: erasing 10
    bytes at address 10 of an AT24C04 sends one block over the page
    boundary at 16; its last four bytes roll over to addresses 0 to 3, and
    addresses 16 to 19 keep their old contents. Write, at the same place,
    stores its ten bytes where they belong. *)
Example Erase_rolls_over :
  exists rsp st' rsp2 st2,
    Hw.AT24Cxx_Erase 10
      (Hw.init (configured (eeprom_paged 16 0 0) AT24C04 0xA 0) (repeat 0 24))
      10 0xFF 10 (repeat 0 10) = Done (rsp, st') /\
    Hw.world st'
    = [0xFF; 0xFF; 0xFF; 0xFF; 0; 0; 0; 0; 0; 0; 0xFF; 0xFF; 0xFF; 0xFF; 0xFF; 0xFF;
       0; 0; 0; 0; 0; 0; 0; 0] /\
    Hw.AT24Cxx_Write 10
      (Hw.init (configured (eeprom_paged 16 0 0) AT24C04 0xA 0) (repeat 0 24))
      10 (repeat 0xFF 10) 10 = Done (rsp2, st2) /\
    Hw.world st2
    = [0; 0; 0; 0; 0; 0; 0; 0; 0; 0; 0xFF; 0xFF; 0xFF; 0xFF; 0xFF; 0xFF;
       0xFF; 0xFF; 0xFF; 0xFF; 0; 0; 0; 0].
Proof.
  eexists _, _, _, _.
  split; [vm_compute; reflexivity|]. split; [vm_compute; reflexivity|].
  split; [vm_compute; reflexivity|]. vm_compute. reflexivity.
Qed.

(** * The read-back verifier on a memory *)

Lemma mismatch_false (data : list Z) (point : Z) (compare_data : list Z) (n : Z) :
  mismatch data point compare_data n = false <->
  forall j, (j < Z.to_nat n)%nat ->
    nth (Z.to_nat (point + Z.of_nat j)) data 0 = nth j compare_data 0.
Proof.
  unfold mismatch. split.
  - intros H j Hj.
    apply Z.eqb_eq. apply negb_false_iff.
    destruct (negb _) eqn:E; [|reflexivity].
    assert (Hex : existsb (fun j => negb (nth (Z.to_nat (point + Z.of_nat j)) data 0
                                          =? nth j compare_data 0))
                          (seq 0 (Z.to_nat n)) = true).
    { apply existsb_exists. exists j. split; [apply in_seq; lia|exact E]. }
    congruence.
  - intros H. apply not_true_is_false. intros Hex.
    apply existsb_exists in Hex. destruct Hex as (j & Hin & Hj).
    apply in_seq in Hin. rewrite H in Hj by lia.
    now rewrite Z.eqb_refl in Hj.
Qed.

(** The bytes a faithful read of [n] bytes at [a] leaves in the buffer. *)
Lemma nth_read_buffer (w buf : list Z) (a n j : nat) :
  (a + n <= length w)%nat -> (j < n)%nat ->
  nth j (mem_read w a n ++ skipn n buf) 0 = nth (a + j) w 0.
Proof.
  intros Hfit Hj. unfold mem_read.
  rewrite app_nth1 by (rewrite length_firstn, length_skipn; lia).
  rewrite nth_firstn. destruct (Nat.ltb_spec j n); [|lia].
  apply nth_skipn.
Qed.

Section ReadbackMemory.

(** One comparison chunk against a faithful read: it passes exactly when
    the memory holds the chunk. *)
Lemma chunk_compare (st : Hw.state (list Z)) (addr point n : Z)
  (data compare_data : list Z) :
  reads_memory (port (Hw.dev st)) ->
  0 <= addr -> 0 <= point -> 0 <= n ->
  addr + point + n <= Z.of_nat (length (Hw.world st)) ->
  mismatch data point
           (snd (fst (Hw.AT24Cxx_Read st (addr + point) compare_data n))) n = false <->
  holds_at (Hw.world st) addr data point (point + n).
Proof.
  intros Hrd Ha Hpt Hn Hfit.
  destruct (Read_from_memory st (addr + point) compare_data n Hrd) as (Hb & _).
  rewrite Hb, mismatch_false. unfold holds_at. split.
  - intros H idx Hidx.
    specialize (H (Z.to_nat (idx - point)) ltac:(lia)).
    rewrite nth_read_buffer in H by lia.
    replace (point + Z.of_nat (Z.to_nat (idx - point))) with idx in H by lia.
    rewrite H. f_equal. lia.
  - intros H j Hj. rewrite nth_read_buffer by lia.
    rewrite (H (point + Z.of_nat j)) by lia. f_equal. lia.
Qed.

End ReadbackMemory.

Section ReadbackLoops.

Lemma holds_at_join (w : list Z) (addr : Z) (data : list Z) (lo mid hi : Z) :
  holds_at w addr data lo mid -> holds_at w addr data mid hi ->
  holds_at w addr data lo hi.
Proof.
  unfold holds_at. intros H1 H2 idx Hidx.
  destruct (Z.lt_ge_cases idx mid); [apply H1|apply H2]; lia.
Qed.

Lemma holds_at_part (w : list Z) (addr : Z) (data : list Z) (lo hi lo' hi' : Z) :
  holds_at w addr data lo hi -> lo <= lo' -> hi' <= hi ->
  holds_at w addr data lo' hi'.
Proof. unfold holds_at. intros H Hl Hh idx Hidx. apply H. lia. Qed.

(** The chunk loop on faithful reads: if it runs to its end, every full
    chunk from [i] on is in the memory. *)
Lemma Readback_loop_sound (fuel : nat) :
  forall (st : Hw.state (list Z)) i quotient addr data compare_data i' c' st',
    reads_memory (port (Hw.dev st)) ->
    0 <= i <= quotient -> quotient <= 255 -> 0 <= addr < 2 ^ 16 ->
    addr + 10 * quotient <= Z.of_nat (length (Hw.world st)) ->
    Hw.Readback_loop fuel st i quotient addr data compare_data
    = Done (inr (i', c', st')) ->
    i' = quotient /\ Hw.world st' = Hw.world st /\
    port (Hw.dev st') = port (Hw.dev st) /\
    holds_at (Hw.world st) addr data (10 * i) (10 * quotient).
Proof.
  induction fuel as [|fuel IH]; intros st i q addr data cmp i' c' st' Hrd Hi Hq Ha Hfit Hrun.
  - cbn [Hw.Readback_loop] in Hrun. destruct (Z.ltb_spec i q); [discriminate|].
    injection Hrun as <- <- <-. repeat split; try lia.
    intros idx Hidx. lia.
  - cbn [Hw.Readback_loop] in Hrun. destruct (Z.ltb_spec i q).
    2:{ injection Hrun as <- <- <-. repeat split; try lia. intros idx Hidx. lia. }
    unfold AT24Cxx_MAX_COMPARE_SIZE in Hrun.
    rewrite (uint16_small (i * 10)), (uint32_small (addr + i * 10)) in Hrun by lia.
    pose proof (chunk_compare st addr (i * 10) 10 data cmp Hrd) as Hc.
    destruct (Read_from_memory st (addr + i * 10) cmp 10 Hrd) as (_ & Hw).
    pose proof (Read_same_handle st (addr + i * 10) cmp 10) as (_ & _ & Q & _).
    destruct (Hw.AT24Cxx_Read st (addr + i * 10) cmp 10) as [[r c] s].
    cbn [fst snd] in *.
    destruct (mismatch data (i * 10) c 10) eqn:E; [discriminate|].
    rewrite uint8_small in Hrun by lia.
    apply IH in Hrun; try rewrite Q; try rewrite Hw; try assumption; try lia.
    destruct Hrun as (-> & Hw' & Q' & Hh).
    split; [reflexivity|]. split; [congruence|]. split; [congruence|].
    rewrite Hw in Hh.
    apply holds_at_join with (mid := 10 * (i + 1)); [|exact Hh].
    replace (10 * i) with (i * 10) by lia.
    replace (10 * (i + 1)) with (i * 10 + 10) by lia.
    apply Hc; try lia; reflexivity.
Qed.

(** When the memory holds the data, the chunk loop finds no difference
    and, with a quotient that fits its counter, runs to its end. *)
Lemma Readback_loop_complete (fuel : nat) :
  forall (st : Hw.state (list Z)) i quotient addr data compare_data,
    reads_memory (port (Hw.dev st)) ->
    0 <= i <= quotient -> quotient <= 255 -> 0 <= addr < 2 ^ 16 ->
    addr + 10 * quotient <= Z.of_nat (length (Hw.world st)) ->
    holds_at (Hw.world st) addr data (10 * i) (10 * quotient) ->
    (Z.to_nat (quotient - i) <= fuel)%nat ->
    exists c' st',
      Hw.Readback_loop fuel st i quotient addr data compare_data
      = Done (inr (quotient, c', st')) /\
      Hw.world st' = Hw.world st /\ port (Hw.dev st') = port (Hw.dev st).
Proof.
  induction fuel as [|fuel IH]; intros st i q addr data cmp Hrd Hi Hq Ha Hfit Hh Hfuel.
  - assert (i = q) by lia. subst i. cbn [Hw.Readback_loop].
    rewrite Z.ltb_irrefl. eauto.
  - cbn [Hw.Readback_loop]. destruct (Z.ltb_spec i q).
    2:{ assert (i = q) by lia. subst i. eauto. }
    unfold AT24Cxx_MAX_COMPARE_SIZE.
    rewrite (uint16_small (i * 10)), (uint32_small (addr + i * 10)) by lia.
    pose proof (chunk_compare st addr (i * 10) 10 data cmp Hrd) as Hc.
    destruct (Read_from_memory st (addr + i * 10) cmp 10 Hrd) as (_ & Hw).
    pose proof (Read_same_handle st (addr + i * 10) cmp 10) as (_ & _ & Q & _).
    destruct (Hw.AT24Cxx_Read st (addr + i * 10) cmp 10) as [[r c] s].
    cbn [fst snd] in *.
    assert (E : mismatch data (i * 10) c 10 = false).
    { apply Hc; try lia. eapply holds_at_part; [exact Hh|lia|lia]. }
    rewrite E, uint8_small by lia.
    destruct (IH s (i + 1) q addr data c) as (c' & st' & Hrun & Hw' & Q');
      try rewrite Q; try rewrite Hw; try assumption; try lia.
    { eapply holds_at_part; [exact Hh|lia|lia]. }
    exists c', st'. split; [exact Hrun|]. split; congruence.
Qed.

(** With a quotient above 255 the chunk loop is never left through its
    end: its counter stays below 256. *)
Lemma Readback_loop_no_exit {W} (fuel : nat) :
  forall (st : Hw.state W) i quotient addr data compare_data res,
    0 <= i < 256 -> 256 <= quotient ->
    Hw.Readback_loop fuel st i quotient addr data compare_data <> Done (inr res).
Proof.
  induction fuel as [|fuel IH]; intros st i q addr data cmp res Hi Hq.
  - cbn [Hw.Readback_loop]. destruct (Z.ltb_spec i q); [discriminate|lia].
  - cbn [Hw.Readback_loop]. destruct (Z.ltb_spec i q); [|lia].
    destruct (Hw.AT24Cxx_Read st _ _ _) as [[r c] s].
    destruct (mismatch data _ c _); [discriminate|].
    apply IH; [|exact Hq]. unfold uint8_t. apply Z.mod_pos_bound. lia.
Qed.

(** And when the memory holds the data, it is not left at all. *)
Lemma Readback_loop_spins (fuel : nat) :
  forall (st : Hw.state (list Z)) i quotient addr data compare_data,
    reads_memory (port (Hw.dev st)) ->
    0 <= i < 256 -> 256 <= quotient -> 0 <= addr < 2 ^ 16 ->
    addr + 2560 <= Z.of_nat (length (Hw.world st)) ->
    holds_at (Hw.world st) addr data 0 2560 ->
    Hw.Readback_loop fuel st i quotient addr data compare_data = NoFuel.
Proof.
  induction fuel as [|fuel IH]; intros st i q addr data cmp Hrd Hi Hq Ha Hfit Hh.
  - cbn [Hw.Readback_loop]. destruct (Z.ltb_spec i q); [reflexivity|lia].
  - cbn [Hw.Readback_loop]. destruct (Z.ltb_spec i q); [|lia].
    unfold AT24Cxx_MAX_COMPARE_SIZE.
    rewrite (uint16_small (i * 10)), (uint32_small (addr + i * 10)) by lia.
    pose proof (chunk_compare st addr (i * 10) 10 data cmp Hrd) as Hc.
    destruct (Read_from_memory st (addr + i * 10) cmp 10 Hrd) as (_ & Hw).
    pose proof (Read_same_handle st (addr + i * 10) cmp 10) as (_ & _ & Q & _).
    destruct (Hw.AT24Cxx_Read st (addr + i * 10) cmp 10) as [[r c] s].
    cbn [fst snd] in *.
    assert (E : mismatch data (i * 10) c 10 = false).
    { apply Hc; try lia. eapply holds_at_part; [exact Hh|lia|lia]. }
    rewrite E.
    apply IH; try rewrite Q; try rewrite Hw; try assumption.
    unfold uint8_t. apply Z.mod_pos_bound. lia.
Qed.

End ReadbackLoops.

(** What a memory holds after a block was put at [a]. *)
Lemma written_holds (w data : list Z) (a : Z) :
  0 <= a -> a <= Z.of_nat (length w) ->
  holds_at (firstn (Z.to_nat a) w ++ data
            ++ skipn (Z.to_nat (a + Z.of_nat (length data))) w)
           a data 0 (Z.of_nat (length data)).
Proof.
  intros Ha Hfit idx Hidx.
  assert (Hpre : length (firstn (Z.to_nat a) w) = Z.to_nat a)
    by (apply firstn_length_le; lia).
  rewrite app_nth2 by lia. rewrite Hpre.
  rewrite app_nth1 by lia. f_equal. lia.
Qed.

(** A memory that holds [data] at [a] reads as [data] there. *)
Lemma holds_read (w data : list Z) (a : Z) :
  0 <= a -> a + Z.of_nat (length data) <= Z.of_nat (length w) ->
  holds_at w a data 0 (Z.of_nat (length data)) ->
  mem_read w (Z.to_nat a) (length data) = data.
Proof.
  intros Ha Hfit Hh. apply nth_ext with (d := 0) (d' := 0).
  - unfold mem_read. rewrite length_firstn, length_skipn. lia.
  - unfold mem_read. rewrite length_firstn, length_skipn. intros j Hj.
    rewrite nth_firstn. destruct (Nat.ltb_spec j (length data)); [|lia].
    rewrite nth_skipn. specialize (Hh (Z.of_nat j) ltac:(lia)).
    rewrite Nat2Z.id in Hh. rewrite Hh. f_equal. lia.
Qed.

Section ReadbackWorld.

(** Faithful reads leave the memory and the transport as they are, however
    the chunk loop ends. *)
Lemma Readback_loop_world (fuel : nat) :
  forall (st : Hw.state (list Z)) i quotient addr data compare_data res,
    reads_memory (port (Hw.dev st)) ->
    Hw.Readback_loop fuel st i quotient addr data compare_data = Done res ->
    let st' := match res with inl s => s | inr (_, _, s) => s end in
    Hw.world st' = Hw.world st /\ port (Hw.dev st') = port (Hw.dev st).
Proof.
  induction fuel as [|fuel IH]; intros st i q addr data cmp res Hrd Hrun.
  - cbn [Hw.Readback_loop] in Hrun. destruct (i <? q); [discriminate|].
    injection Hrun as <-. split; reflexivity.
  - cbn [Hw.Readback_loop] in Hrun. destruct (i <? q).
    2:{ injection Hrun as <-. split; reflexivity. }
    match type of Hrun with
    | context [Hw.AT24Cxx_Read st ?a ?c ?n] =>
        destruct (Read_from_memory st a c n Hrd) as (_ & Hw);
        pose proof (Read_same_handle st a c n) as (_ & _ & Q & _);
        destruct (Hw.AT24Cxx_Read st a c n) as [[r c1] s]
    end.
    cbn [fst snd] in *.
    destruct (mismatch data _ c1 _).
    + injection Hrun as <-. split; assumption.
    + apply IH in Hrun; [|now rewrite Q].
      cbv zeta in *. destruct Hrun as (Hw' & Q'). split; congruence.
Qed.

End ReadbackWorld.

(** More fuel does not change a run of the Write loop that ended. *)
Lemma Write_loop_more_fuel {W} (fuel : nat) :
  forall (k : nat) (st : Hw.state W) i EndAddr RemainSize data rsp r,
    Hw.Write_loop fuel st i EndAddr RemainSize data rsp = r -> r <> NoFuel ->
    Hw.Write_loop (fuel + k) st i EndAddr RemainSize data rsp = r.
Proof.
  induction fuel as [|fuel IH]; intros k st i E R data rsp r Hrun Hnf.
  - cbn [Hw.Write_loop] in Hrun. destruct (i <? E) eqn:Elt; [congruence|].
    destruct k; cbn [Nat.add Hw.Write_loop]; rewrite Elt; exact Hrun.
  - cbn [Nat.add Hw.Write_loop] in *. destruct (i <? E); [|exact Hrun].
    destruct (pagesize (info (Hw.dev st)) =? 0); [exact Hrun|].
    destruct (AT24Cxx_SetWordAddress (Hw.dev st) i) as [dev' msz].
    cbv zeta in *. destruct (Hw.wmem (port dev') _ _ _ _ _ _) as [r0 w'].
    apply IH; assumption.
Qed.

(** With faithful reads, [AT24Cxx_Readback_Write] is sound for every
    request of at most 2559 bytes: it returns 0 only when the memory holds
    [data] at [addr], however the write itself behaved. *)
Theorem Readback_Write_sound (fuel : nat) (st st' : Hw.state (list Z))
  (addr size : Z) (data compare_data0 : list Z) :
  reads_memory (port (Hw.dev st)) ->
  0 <= addr < 2 ^ 16 -> 0 <= size < 2 ^ 16 ->
  size / AT24Cxx_MAX_COMPARE_SIZE <= 255 ->
  length data = Z.to_nat size ->
  Hw.AT24Cxx_Readback_Write fuel st addr data size compare_data0 = Done (0, st') ->
  addr + size <= Z.of_nat (length (Hw.world st')) ->
  mem_read (Hw.world st') (Z.to_nat addr) (Z.to_nat size) = data.
Proof.
  intros Hrd Ha Hs Hq Hlen Hrun Hfit.
  unfold Hw.AT24Cxx_Readback_Write, Hw.AT24Cxx_Write in Hrun.
  destruct (Hw.Write_loop fuel st addr _ size data 0) as [[r s1]| |] eqn:Hwr;
    try discriminate.
  apply Write_loop_Done in Hwr. destruct Hwr as (_ & _ & _ & _ & _ & (_ & _ & Q & _)).
  unfold AT24Cxx_MAX_COMPARE_SIZE in *.
  pose proof (Z.div_mod size 10 ltac:(lia)) as Hdm.
  pose proof (Z.mod_pos_bound size 10 ltac:(lia)) as Hm.
  assert (Hq0 : 0 <= size / 10) by (apply Z.div_pos; lia).
  rewrite (uint16_small (size / 10)), (uint8_small (size mod 10)) in Hrun by lia.
  assert (Hrd1 : reads_memory (port (Hw.dev s1))) by now rewrite Q.
  destruct (Hw.Readback_loop fuel s1 0 (size / 10) addr data compare_data0)
    as [[s2|[[i c] s2]]| |] eqn:Hloop; try discriminate.
  pose proof (Readback_loop_world _ _ _ _ _ _ _ _ Hrd1 Hloop) as (Hw2 & Q2).
  cbv zeta in Hw2, Q2.
  assert (Hrd2 : reads_memory (port (Hw.dev s2))) by now rewrite Q2.
  assert (Hworld : Hw.world st' = Hw.world s1).
  { match type of Hrun with
    | context [Hw.AT24Cxx_Read s2 ?a ?cc ?n] =>
        destruct (Read_from_memory s2 a cc n Hrd2) as (_ & Hw4);
        destruct (Hw.AT24Cxx_Read s2 a cc n) as [[r3 c3] s3]
    end.
    cbn [fst snd] in *. destruct (mismatch data _ c3 _); [discriminate|].
    injection Hrun as <-. congruence. }
  rewrite Hworld in *.
  destruct (Readback_loop_sound fuel s1 0 (size / 10) addr data compare_data0 i c s2)
    as (-> & _ & _ & Hh); try assumption; try lia.
  assert (Hpoint : (if size / 10 >? 0 then uint16_t (size / 10 * 10) else 0)
                   = 10 * (size / 10)).
  { destruct (Z.gtb_spec (size / 10) 0); [|lia]. rewrite uint16_small by lia. lia. }
  rewrite Hpoint, uint32_small in Hrun by lia.
  pose proof (chunk_compare s2 addr (10 * (size / 10)) (size mod 10) data c Hrd2) as Hc.
  destruct (Hw.AT24Cxx_Read s2 (addr + 10 * (size / 10)) c (size mod 10))
    as [[r3 c3] s3].
  cbn [fst snd] in *.
  destruct (mismatch data (10 * (size / 10)) c3 (size mod 10)) eqn:E; [discriminate|].
  assert (Hall : holds_at (Hw.world s1) addr data 0 size).
  { replace size with (10 * (size / 10) + size mod 10) at 1 by lia.
    apply holds_at_join with (mid := 10 * (size / 10)).
    - replace 0 with (10 * 0) at 1 by lia. exact Hh.
    - rewrite <- Hw2. apply Hc; try lia; try reflexivity. rewrite Hw2. lia. }
  replace size with (Z.of_nat (length data)) in Hall by lia.
  rewrite <- Hlen. apply holds_read; [lia|lia|exact Hall].
Qed.


Lemma Readback_Write_sound_witness :
  mem_read
    (Hw.world
       (Hw.mkState (configured (eeprom 0 0) AT24C02 0xA 0)
          ([0; 0; 0; 0; 1; 2; 3; 4; 5; 6; 7; 8; 9; 10; 11; 12; 13] ++ repeat 0 15)
          [Hw.WMem 0xA0 4 1 [1; 2; 3; 4] 4 0;
           Hw.WMem 0xA0 8 1 [5; 6; 7; 8; 9; 10; 11; 12] 8 0;
           Hw.WMem 0xA0 16 1 [13] 1 0;
           Hw.RMem 0xA0 4 1 10 0; Hw.RMem 0xA0 14 1 3 0]))
    (Z.to_nat 4) (Z.to_nat 13)
  = [1; 2; 3; 4; 5; 6; 7; 8; 9; 10; 11; 12; 13].
Proof.
  apply (Readback_Write_sound 13
           (Hw.init (configured (eeprom 0 0) AT24C02 0xA 0) (repeat 0 32)) _
           4 13 [1; 2; 3; 4; 5; 6; 7; 8; 9; 10; 11; 12; 13] (repeat 0 10)).
  - apply eeprom_reads.
  - lia.
  - lia.
  - apply quotient_bound. lia.
  - reflexivity.
  - vm_compute. reflexivity.
  - simpl. lia.
Defined.

(** A Write on a memory that stores blocks within a page: it returns, puts
    [data] at [saddr] and keeps the transport. *)
Lemma Write_stores (fuel : nat) (st : Hw.state (list Z))
  (saddr size : Z) (data : list Z) :
  stores_in_pages (pagesize (info (Hw.dev st))) (port (Hw.dev st)) ->
  1 <= pagesize (info (Hw.dev st)) < 2 ^ 16 ->
  0 <= saddr -> 0 <= size ->
  saddr + size <= Z.of_nat (length (Hw.world st)) < 2 ^ 32 ->
  length data = Z.to_nat size ->
  (Z.to_nat size <= fuel)%nat ->
  exists rsp st',
    Hw.Write_loop fuel st saddr (saddr + size) size data 0 = Done (rsp, st') /\
    Hw.world st'
    = firstn (Z.to_nat saddr) (Hw.world st) ++ data
      ++ skipn (Z.to_nat (saddr + Z.of_nat (length data))) (Hw.world st) /\
    port (Hw.dev st') = port (Hw.dev st).
Proof.
  intros Hst Hp Ha Hs Hfit Hlen Hfuel.
  destruct (Write_loop_stores fuel st saddr size data 0)
    as (rsp & st' & Hrun & Hw & (_ & _ & Q & _)); try lia; try assumption.
  exists rsp, st'. split; [exact Hrun|].
  rewrite <- Hlen, firstn_all in Hw.
  rewrite mem_write_char in Hw by lia.
  replace (Z.to_nat saddr + length data)%nat
    with (Z.to_nat (saddr + Z.of_nat (length data))) in Hw by lia.
  split; [exact Hw|exact Q].
Qed.

(** On a memory that stores blocks within a page and whose reads are
    faithful, [AT24Cxx_Readback_Write] of at most 2559 bytes that fit the
    memory returns 0 and leaves [data] at [addr], every other byte as it
    was. *)
Theorem Readback_Write_complete (fuel : nat) (st : Hw.state (list Z))
  (addr size : Z) (data compare_data0 : list Z) :
  stores_in_pages (pagesize (info (Hw.dev st))) (port (Hw.dev st)) ->
  reads_memory (port (Hw.dev st)) ->
  1 <= pagesize (info (Hw.dev st)) < 2 ^ 16 ->
  0 <= addr < 2 ^ 16 -> 0 <= size < 2 ^ 16 ->
  size / AT24Cxx_MAX_COMPARE_SIZE <= 255 ->
  addr + size <= Z.of_nat (length (Hw.world st)) < 2 ^ 32 ->
  length data = Z.to_nat size ->
  (Z.to_nat size <= fuel)%nat ->
  exists st',
    Hw.AT24Cxx_Readback_Write fuel st addr data size compare_data0 = Done (0, st') /\
    Hw.world st'
    = firstn (Z.to_nat addr) (Hw.world st) ++ data
      ++ skipn (Z.to_nat (addr + size)) (Hw.world st).
Proof.
  intros Hst Hrd Hp Ha Hs Hq Hfit Hlen Hfuel.
  destruct (Write_stores fuel st addr size data)
    as (rsp & s1 & Hwr & Hw1 & Q1); try assumption; try lia.
  unfold Hw.AT24Cxx_Readback_Write, Hw.AT24Cxx_Write.
  rewrite uint32_small, Hwr by lia.
  unfold AT24Cxx_MAX_COMPARE_SIZE in *.
  pose proof (Z.div_mod size 10 ltac:(lia)) as Hdm.
  pose proof (Z.mod_pos_bound size 10 ltac:(lia)) as Hm.
  assert (Hq0 : 0 <= size / 10) by (apply Z.div_pos; lia).
  rewrite (uint16_small (size / 10)), (uint8_small (size mod 10)) by lia.
  assert (Hrd1 : reads_memory (port (Hw.dev s1))) by now rewrite Q1.
  assert (Hl1 : length (Hw.world s1) = length (Hw.world st)).
  { rewrite Hw1, !length_app, length_firstn, length_skipn. lia. }
  assert (Hall : holds_at (Hw.world s1) addr data 0 size).
  { rewrite Hw1. eapply holds_at_part; [apply written_holds; lia|lia|lia]. }
  destruct (Readback_loop_complete fuel s1 0 (size / 10) addr data compare_data0)
    as (c & s2 & Hloop & Hw2 & Q2); try assumption; try lia.
  { eapply holds_at_part; [exact Hall|lia|lia]. }
  rewrite Hloop.
  assert (Hpoint : (if size / 10 >? 0 then uint16_t (size / 10 * 10) else 0)
                   = 10 * (size / 10)).
  { destruct (Z.gtb_spec (size / 10) 0); [|lia]. rewrite uint16_small by lia. lia. }
  rewrite Hpoint, uint32_small by lia.
  assert (Hrd2 : reads_memory (port (Hw.dev s2))) by now rewrite Q2.
  pose proof (chunk_compare s2 addr (10 * (size / 10)) (size mod 10) data c Hrd2) as Hc.
  destruct (Read_from_memory s2 (addr + 10 * (size / 10)) c (size mod 10) Hrd2)
    as (_ & Hw3).
  destruct (Hw.AT24Cxx_Read s2 (addr + 10 * (size / 10)) c (size mod 10))
    as [[r3 c3] s3].
  cbn [fst snd] in *.
  assert (E : mismatch data (10 * (size / 10)) c3 (size mod 10) = false).
  { apply (proj2 (Hc ltac:(lia) ltac:(lia) ltac:(lia) ltac:(rewrite Hw2; lia))).
    rewrite Hw2. eapply holds_at_part; [exact Hall|lia|lia]. }
  rewrite E. exists s3. split; [reflexivity|].
  rewrite Hw3, Hw2, Hw1. do 3 f_equal. lia.
Qed.

Lemma Readback_Write_complete_witness :
  exists st',
    Hw.AT24Cxx_Readback_Write 13
      (Hw.init (configured (eeprom_paged 8 0 0) AT24C02 0xA 0) (repeat 0 32))
      4 [1; 2; 3; 4; 5; 6; 7; 8; 9; 10; 11; 12; 13] 13 (repeat 0 10) = Done (0, st') /\
    Hw.world st'
    = firstn (Z.to_nat 4) (repeat 0 32) ++ [1; 2; 3; 4; 5; 6; 7; 8; 9; 10; 11; 12; 13]
      ++ skipn (Z.to_nat (4 + 13)) (repeat 0 32).
Proof.
  apply (Readback_Write_complete 13
           (Hw.init (configured (eeprom_paged 8 0 0) AT24C02 0xA 0) (repeat 0 32))
           4 13 [1; 2; 3; 4; 5; 6; 7; 8; 9; 10; 11; 12; 13] (repeat 0 10));
    try (simpl; lia); try reflexivity.
  - apply (eeprom_paged_stores 8 0 0). lia.
  - apply eeprom_paged_reads.
  - change (1 <= 8 < 2 ^ 16). lia.
  - apply quotient_bound. lia.
Defined.

(** From 2560 bytes on (a quotient above 255) [AT24Cxx_Readback_Write]
    never reports success, on any transport: the 8-bit counter of its chunk
    loop cannot reach the 16-bit quotient, so the call ends only with a
    difference found, or not at all. *)
Theorem Readback_Write_large_never_accepts {W} (fuel : nat) (st st' : Hw.state W)
  (addr size : Z) (data compare_data0 : list Z) :
  2560 <= size < 2 ^ 16 ->
  Hw.AT24Cxx_Readback_Write fuel st addr data size compare_data0 <> Done (0, st').
Proof.
  intros Hs. unfold Hw.AT24Cxx_Readback_Write.
  destruct (Hw.AT24Cxx_Write fuel st addr data size) as [[r s1]| |]; try discriminate.
  unfold AT24Cxx_MAX_COMPARE_SIZE.
  pose proof (Z.div_mod size 10 ltac:(lia)) as Hdm.
  pose proof (Z.mod_pos_bound size 10 ltac:(lia)) as Hm.
  rewrite (uint16_small (size / 10)) by lia.
  pose proof (Readback_loop_no_exit fuel s1 0 (size / 10) addr data compare_data0) as Hno.
  unfold AT24Cxx_MAX_COMPARE_SIZE in *.
  destruct (Hw.Readback_loop fuel s1 0 (size / 10) addr data compare_data0)
    as [[s2|res]| |]; try discriminate.
  exfalso. apply (Hno res); [lia|lia|reflexivity].
Qed.

Lemma Readback_Write_large_never_accepts_witness :
  Hw.AT24Cxx_Readback_Write 4000
    (Hw.init (configured null_bus AT24C512 0xA 0) tt)
    0 (repeat 0 2560) 2560 (repeat 0 10)
  <> Done (0, Hw.init (configured null_bus AT24C512 0xA 0) tt).
Proof.
  apply (Readback_Write_large_never_accepts 4000
           (Hw.init (configured null_bus AT24C512 0xA 0) tt)
           (Hw.init (configured null_bus AT24C512 0xA 0) tt)
           0 2560 (repeat 0 2560) (repeat 0 10)).
  lia.
Defined.

(** And on a memory that stores and reads faithfully it does not return at
    all: the write succeeds, every chunk matches, the counter wraps from
    255 to 0 and the loop starts over. No amount of fuel ends the run. *)
Theorem Readback_Write_large_spins (fuel : nat) (st : Hw.state (list Z))
  (addr size : Z) (data compare_data0 : list Z) :
  stores_in_pages (pagesize (info (Hw.dev st))) (port (Hw.dev st)) ->
  reads_memory (port (Hw.dev st)) ->
  1 <= pagesize (info (Hw.dev st)) < 2 ^ 16 ->
  0 <= addr < 2 ^ 16 -> 2560 <= size < 2 ^ 16 ->
  addr + size <= Z.of_nat (length (Hw.world st)) < 2 ^ 32 ->
  length data = Z.to_nat size ->
  Hw.AT24Cxx_Readback_Write fuel st addr data size compare_data0 = NoFuel.
Proof.
  intros Hst Hrd Hp Ha Hs Hfit Hlen.
  destruct (Write_stores (fuel + Z.to_nat size) st addr size data)
    as (rsp & s1 & Hwr & Hw1 & Q1); try assumption; try lia.
  unfold Hw.AT24Cxx_Readback_Write, Hw.AT24Cxx_Write.
  rewrite uint32_small by lia.
  destruct (Hw.Write_loop fuel st addr (addr + size) size data 0)
    as [[r s]| |] eqn:Hrun; [| |reflexivity];
    apply (Write_loop_more_fuel fuel (Z.to_nat size)) in Hrun; try discriminate;
    rewrite Hwr in Hrun; [|discriminate].
  injection Hrun as <- <-.
  unfold AT24Cxx_MAX_COMPARE_SIZE.
  pose proof (Z.div_mod size 10 ltac:(lia)) as Hdm.
  pose proof (Z.mod_pos_bound size 10 ltac:(lia)) as Hm.
  rewrite (uint16_small (size / 10)) by lia.
  rewrite Readback_loop_spins; try reflexivity; try lia.
  - now rewrite Q1.
  - rewrite Hw1, !length_app, length_firstn, length_skipn. lia.
  - rewrite Hw1. eapply holds_at_part; [apply written_holds; lia|lia|lia].
Qed.

Lemma Readback_Write_large_spins_witness :
  Hw.AT24Cxx_Readback_Write 7
    (Hw.init (configured (eeprom_paged 128 0 0) AT24C512 0xA 0) (repeat 0 4096))
    100 (repeat 5 2600) 2600 (repeat 0 10) = NoFuel.
Proof.
  apply (Readback_Write_large_spins 7
           (Hw.init (configured (eeprom_paged 128 0 0) AT24C512 0xA 0) (repeat 0 4096))
           100 2600 (repeat 5 2600) (repeat 0 10)).
  - apply (eeprom_paged_stores 128 0 0). lia.
  - apply eeprom_paged_reads.
  - change (1 <= 128 < 2 ^ 16). lia.
  - lia.
  - lia.
  - cbn [Hw.world Hw.init]. rewrite repeat_length. lia.
  - rewrite repeat_length. reflexivity.
Defined.


(** * How many transactions a request costs *)

Lemma calls_length (l : list Hw.hw_call) :
  length l = (length (chunks_of l) + length (reads_of l))%nat.
Proof.
  induction l as [|c l IH]; [reflexivity|].
  destruct c; cbn [chunks_of reads_of flat_map app length] in *;
    unfold chunks_of, reads_of in IH; lia.
Qed.

(** The page arithmetic cuts a request into one chunk for every page of
    [page] bytes the request touches. *)
Lemma split_length (fuel : nat) (page : Z) :
  0 < page < 2 ^ 16 ->
  forall i RemainSize,
    0 <= i -> 0 < RemainSize -> i + RemainSize < 2 ^ 32 ->
    (Z.to_nat RemainSize <= fuel)%nat ->
    Z.of_nat (length (split fuel page i (i + RemainSize) RemainSize))
    = (i + RemainSize - 1) / page - i / page + 1.
Proof.
  intros Hp. induction fuel as [|fuel IH]; intros i R Hi Hr Hend Hfuel; [lia|].
  cbn [split]. destruct (Z.ltb_spec i (i + R)) as [_|]; [|lia].
  destruct (page_step page i R Hp Hi Hr Hend) as (Hs & Hsp & Hi' & Hr').
  pose proof (Z.mod_pos_bound i page ltac:(lia)) as Hm.
  assert (Hsz : min R (uint16_t (page - i mod page)) = Z.min R (page - i mod page)).
  { rewrite uint16_small by lia. apply min_is_Zmin. }
  set (size := min R (uint16_t (page - i mod page))) in *.
  cbv zeta. fold size. rewrite Hi', Hr'. cbn [length].
  destruct (Z.eq_dec size R) as [E|E].
  - rewrite E, Z.sub_diag.
    assert (Hnil : split fuel page (i + R) (i + R) 0 = []).
    { destruct fuel; cbn [split]; now rewrite Z.ltb_irrefl. }
    rewrite Hnil. cbn [length].
    pose proof (within_page_step page i R ltac:(lia) Hi ltac:(lia)) as Hw.
    unfold within_page in Hw. cbn [fst snd] in Hw. lia.
  - replace (i + R) with (i + size + (R - size)) at 1 by lia.
    rewrite Nat2Z.inj_succ, IH by lia.
    replace (i + size + (R - size)) with (i + R) by lia.
    assert (Hnext : (i + size) / page = i / page + 1).
    { pose proof (Z.div_mod i page ltac:(lia)) as Hdm.
      replace (i + size) with ((i / page + 1) * page) by lia.
      apply Z.div_mul. lia. }
    rewrite Hnext. lia.
Qed.

(** [AT24Cxx_Write] of a non-empty request costs one bus transaction for
    every page the range [saddr, saddr + size) touches. *)
Theorem Write_transaction_count {W} (fuel : nat) (st : Hw.state W)
  (saddr size : Z) (data : list Z) :
  1 <= pagesize (info (Hw.dev st)) < 2 ^ 16 ->
  0 <= saddr -> 0 < size -> saddr + size < 2 ^ 32 ->
  (Z.to_nat size <= fuel)%nat ->
  exists rsp st' calls,
    Hw.AT24Cxx_Write fuel st saddr data size = Done (rsp, st') /\
    Hw.log st' = Hw.log st ++ calls /\
    Z.of_nat (length calls)
    = (saddr + size - 1) / pagesize (info (Hw.dev st))
      - saddr / pagesize (info (Hw.dev st)) + 1.
Proof.
  intros Hp Ha Hs Hend Hfuel. unfold Hw.AT24Cxx_Write.
  rewrite uint32_small by lia.
  destruct (Write_loop_returns fuel st saddr size data 0) as (rsp & st' & Hrun);
    try lia.
  exists rsp, st'.
  destruct (Write_loop_Done _ _ _ _ _ _ _ _ _ Hrun) as (calls & Hlog & Hrd & Hch & _).
  exists calls. split; [exact Hrun|]. split; [exact Hlog|].
  rewrite calls_length, Hrd, Hch, Nat.add_0_r.
  apply split_length; lia.
Qed.

Lemma Write_transaction_count_witness :
  exists rsp st' calls,
    Hw.AT24Cxx_Write 100 (Hw.init (configured null_bus AT24C32 0xA 0) tt)
                     30 (repeat 0x5A 100) 100 = Done (rsp, st') /\
    Hw.log st' = [] ++ calls /\
    Z.of_nat (length calls) = (30 + 100 - 1) / 32 - 30 / 32 + 1.
Proof.
  apply (Write_transaction_count 100 (Hw.init (configured null_bus AT24C32 0xA 0) tt)
           30 100 (repeat 0x5A 100)); try lia.
  change (1 <= 32 < 2 ^ 16). lia.
Defined.

(** [AT24Cxx_Erase] of the block-transport build costs one transaction for
    every granule of min(max(8, AT24Cxx_MAX_ERASE_SIZE), page_size) bytes
    the range touches: on every model with pages of 16 bytes or more, one
    for every 10 bytes, whatever the page size. *)
Theorem Erase_transaction_count {W} (fuel : nat) (st : Hw.state W)
  (saddr fdata size : Z) (fbuf0 : list Z) :
  1 <= pagesize (info (Hw.dev st)) < 2 ^ 16 ->
  0 <= saddr -> 0 < size -> saddr + size < 2 ^ 32 ->
  (Z.to_nat size <= fuel)%nat ->
  exists rsp st' calls,
    Hw.AT24Cxx_Erase fuel st saddr fdata size fbuf0 = Done (rsp, st') /\
    Hw.log st' = Hw.log st ++ calls /\
    Z.of_nat (length calls)
    = (saddr + size - 1)
      / Z.min (Z.max 8 AT24Cxx_MAX_ERASE_SIZE) (pagesize (info (Hw.dev st)))
      - saddr / Z.min (Z.max 8 AT24Cxx_MAX_ERASE_SIZE) (pagesize (info (Hw.dev st)))
      + 1.
Proof.
  intros Hp Ha Hs Hend Hfuel. unfold Hw.AT24Cxx_Erase.
  rewrite uint32_small by lia. rewrite erase_size_val by lia.
  set (es := Z.min (Z.max 8 AT24Cxx_MAX_ERASE_SIZE) (pagesize (info (Hw.dev st)))).
  assert (Hes : 0 < es < 2 ^ 16).
  { subst es. change (Z.max 8 AT24Cxx_MAX_ERASE_SIZE) with 10. lia. }
  match goal with
  | |- context [Hw.Erase_loop _ _ _ _ _ _ ?b _] => set (fbuf := b)
  end.
  destruct (Erase_loop_returns fuel st saddr size es fbuf 0) as (rsp & st' & Hrun);
    try lia.
  exists rsp, st'.
  destruct (Erase_loop_Done _ _ _ _ _ _ _ _ _ _ Hrun) as (calls & Hlog & Hrd & Hch & _).
  exists calls. split; [exact Hrun|]. split; [exact Hlog|].
  rewrite calls_length, Hrd, Hch, Nat.add_0_r.
  apply split_length; lia.
Qed.

Lemma Erase_transaction_count_witness :
  exists rsp st' calls,
    Hw.AT24Cxx_Erase 256 (Hw.init (configured null_bus AT24C512 0xA 0) tt)
                     0 0xFF 256 (repeat 0 10) = Done (rsp, st') /\
    Hw.log st' = [] ++ calls /\
    Z.of_nat (length calls) = (0 + 256 - 1) / 10 - 0 / 10 + 1.
Proof.
  apply (Erase_transaction_count 256
           (Hw.init (configured null_bus AT24C512 0xA 0) tt)
           0 0xFF 256 (repeat 0 10)); try lia.
  change (1 <= 128 < 2 ^ 16). lia.
Defined.

(** * The device-address byte between calls *)

(** [AT24Cxx_SetWordAddress] leaves nothing of the address before: encoding
    [b] after [a] gives the handle that encoding [b] alone gives. *)
Theorem SetWordAddress_last_wins {P} (dev : at24cxx_t P) (a b : Z) :
  AT24Cxx_SetWordAddress (fst (AT24Cxx_SetWordAddress dev a)) b
  = AT24Cxx_SetWordAddress dev b.
Proof.
  destruct dev as [[t byte ps] p].
  unfold AT24Cxx_SetWordAddress, with_i2caddr,
    set_wordaddr_bit0, set_wordaddr_bit1, set_wordaddr_bit2.
  destruct t; cbn [type info i2caddr pagesize port fst chip_val Z.geb Z.compare Pos.compare
                   Pos.compare_cont]; try reflexivity;
    do 3 f_equal; apply Z.bits_inj'; intros k Hk;
    rewrite ?set_field_testbit by lia;
    bit_cases k; rewrite ?andb_true_r, ?andb_false_r, <- ?andb_assoc, ?andb_diag;
    reflexivity.
Qed.

(** The device-address byte [AT24Cxx_config] makes, bit by bit: the top
    nibble is the low nibble of [devaddr], bits 1 to 3 are the low three
    bits of [haraddr], and bit 0 (R/W) is the bit the handle held before the
    call, which the driver never writes. *)
Theorem config_address_byte {P} (dev : at24cxx_t P) (t : AT24Cxx_CHIP)
  (devaddr haraddr k : Z) :
  0 <= k ->
  Z.testbit (i2caddr (info (AT24Cxx_config dev t devaddr haraddr))) k
  = if k =? 0 then Z.testbit (i2caddr (info dev)) 0
    else if k <? 4 then Z.testbit haraddr (k - 1)
    else if k <? 8 then Z.testbit devaddr (k - 4)
    else false.
Proof.
  intros Hk. unfold AT24Cxx_config, set_hardaddr_bit, set_devtype_bit.
  cbn [info i2caddr]. rewrite !set_field_testbit by lia.
  bit_cases k; rewrite ?andb_true_r, ?andb_false_r; reflexivity.
Qed.

Lemma config_address_byte_witness :
  Z.testbit (i2caddr (info (AT24Cxx_config (mkDev (mkInfo AT24C01 0xFF 0) tt)
                              AT24C16 0xA 0x5))) 0
  = if 0 =? 0 then Z.testbit (i2caddr (info (mkDev (mkInfo AT24C01 0xFF 0) tt))) 0
    else if 0 <? 4 then Z.testbit 0x5 (0 - 1)
    else if 0 <? 8 then Z.testbit 0xA (0 - 4)
    else false.
Proof.
  apply (config_address_byte (mkDev (mkInfo AT24C01 0xFF 0) tt) AT24C16 0xA 0x5 0).
  lia.
Defined.

(** The page size [AT24Cxx_config] stores is the one in the table that
    heads AT24Cxx.c, and with the table's number of pages it gives the
    capacity of the model. *)
Theorem config_page_table {P} (dev : at24cxx_t P) (t : AT24Cxx_CHIP)
  (devaddr haraddr : Z) :
  pagesize (info (AT24Cxx_config dev t devaddr haraddr)) = table_page_size t /\
  table_pages t * pagesize (info (AT24Cxx_config dev t devaddr haraddr)) = capacity t.
Proof.
  unfold AT24Cxx_config. cbn [info pagesize]. destruct t; split; reflexivity.
Qed.


(** * What Write puts on the bus *)

Lemma capacity_bound (t : AT24Cxx_CHIP) : 0 < capacity t <= 2 ^ 18.
Proof. destruct t; vm_compute; split; congruence. Qed.

Section HwPayload.
Context {W : Type}.

(** A run of the Write loop that returns: the payloads of its transactions
    are the bytes of the request, in order, and each transaction names the
    address of its chunk. *)
Lemma Write_loop_log (fuel : nat) :
  forall (st : Hw.state W) i RemainSize data rsp rsp' st',
    0 < pagesize (info (Hw.dev st)) < 2 ^ 16 ->
    0 <= i -> 0 <= RemainSize -> i + RemainSize < 2 ^ 32 ->
    (Z.to_nat RemainSize <= length data)%nat ->
    Hw.Write_loop fuel st i (i + RemainSize) RemainSize data rsp = Done (rsp', st') ->
    exists calls,
      Hw.log st' = Hw.log st ++ calls /\
      payload_of calls = firstn (Z.to_nat RemainSize) data /\
      (i + RemainSize <= capacity (type (info (Hw.dev st))) ->
       Forall (well_addressed (type (info (Hw.dev st)))) calls).
Proof.
  induction fuel as [|fuel IH]; intros st i R data rsp rsp' st' Hp Hi Hr Hend Hdata Hrun.
  - cbn [Hw.Write_loop] in Hrun. destruct (Z.ltb_spec i (i + R)); [discriminate|].
    injection Hrun as <- <-. assert (R = 0) by lia. subst R.
    exists []. rewrite app_nil_r. auto.
  - cbn [Hw.Write_loop] in Hrun. destruct (Z.ltb_spec i (i + R)).
    2:{ injection Hrun as <- <-. assert (R = 0) by lia. subst R.
        exists []. rewrite app_nil_r. auto. }
    destruct (Z.eqb_spec (pagesize (info (Hw.dev st))) 0); [lia|].
    destruct (page_step _ i R Hp Hi ltac:(lia) Hend) as (Hs & Hsp & Hi' & Hr').
    pose proof (SetWordAddress_same_handle (Hw.dev st) i) as (T & Ps & _).
    pose proof (SetWordAddress_decodes (Hw.dev st) i) as Hdec.
    pose proof (SetWordAddress_width (Hw.dev st) i) as Hwid.
    destruct (AT24Cxx_SetWordAddress (Hw.dev st) i) as [dev' msz].
    cbn [fst snd] in *. cbv zeta in Hrun.
    set (size := min R (uint16_t (pagesize (info (Hw.dev st))
                                  - i mod pagesize (info (Hw.dev st))))) in *.
    destruct (Hw.wmem (port dev') _ _ _ _ _ _) as [r w'].
    rewrite Hi', Hr' in Hrun.
    replace (i + R) with (i + size + (R - size)) in Hrun by lia.
    apply IH in Hrun; cbn [Hw.dev]; try rewrite Ps; try lia.
    2:{ rewrite length_skipn. lia. }
    destruct Hrun as (calls & Hlog & Hpay & Haddr). cbn [Hw.log Hw.dev] in *.
    eexists (_ :: calls). rewrite Hlog, <- app_assoc. split; [reflexivity|].
    split.
    + cbn [payload_of flat_map]. unfold payload_of in Hpay. rewrite Hpay.
      rewrite firstn_plus_skipn. f_equal. lia.
    + intros Hcap. constructor.
      * cbn [well_addressed]. split; [exact Hwid|]. apply Hdec. lia.
      * rewrite T in Haddr. apply Haddr. lia.
Qed.

End HwPayload.

(** [AT24Cxx_Write] within the capacity of the model sends every byte of
    the request exactly once and in order, and every transaction names,
    with its device-address byte and word address, the cell its first byte
    belongs to. *)
Theorem Write_sends_data {W} (fuel : nat) (st : Hw.state W)
  (saddr size : Z) (data : list Z) :
  1 <= pagesize (info (Hw.dev st)) < 2 ^ 16 ->
  0 <= saddr -> 0 <= size ->
  saddr + size <= capacity (type (info (Hw.dev st))) ->
  (Z.to_nat size <= length data)%nat ->
  (Z.to_nat size <= fuel)%nat ->
  exists rsp st' calls,
    Hw.AT24Cxx_Write fuel st saddr data size = Done (rsp, st') /\
    Hw.log st' = Hw.log st ++ calls /\
    payload_of calls = firstn (Z.to_nat size) data /\
    Forall (well_addressed (type (info (Hw.dev st)))) calls.
Proof.
  intros Hp Ha Hs Hcap Hdata Hfuel. unfold Hw.AT24Cxx_Write.
  pose proof (capacity_bound (type (info (Hw.dev st)))) as Hc.
  rewrite uint32_small by lia.
  destruct (Write_loop_returns fuel st saddr size data 0) as (rsp & st' & Hrun);
    try lia.
  exists rsp, st'.
  destruct (Write_loop_log fuel st saddr size data 0 rsp st')
    as (calls & Hlog & Hpay & Haddr); try assumption; try lia.
  exists calls. auto.
Qed.

Lemma Write_sends_data_witness :
  exists rsp st' calls,
    Hw.AT24Cxx_Write 6 (Hw.init (configured null_bus AT24C16 0xA 0) tt)
                     0x2FD [1; 2; 3; 4; 5; 6] 6 = Done (rsp, st') /\
    Hw.log st' = [] ++ calls /\
    payload_of calls = firstn (Z.to_nat 6) [1; 2; 3; 4; 5; 6] /\
    Forall (well_addressed AT24C16) calls.
Proof.
  apply (Write_sends_data 6 (Hw.init (configured null_bus AT24C16 0xA 0) tt)
           0x2FD 6 [1; 2; 3; 4; 5; 6]); try (simpl; lia).
  change (1 <= 16 < 2 ^ 16). lia.
Defined.


(** * Edge cases of the read paths *)

(** The bit-level [AT24Cxx_Read] always asks the bus for at least one byte:
    its loop bound [size - 1] is a [uint32_t], the last byte is read after
    the loop whatever [size] is, and a length of 0 makes it read 2^32 bytes
    into [data]. (The block-transport build hands [size] to the transport
    as it is.) *)
Theorem Sw_Read_byte_count {W} (st : Sw.state W) (saddr : Z) (data : list Z) (size : Z) :
  exists evs,
    Sw.log (snd (Sw.AT24Cxx_Read st saddr data size)) = Sw.log st ++ evs /\
    acks_of evs = repeat Sw.ACK (Z.to_nat (uint32_t (size - 1))) ++ [Sw.NACK] /\
    stops_of evs = 1%nat /\
    1 <= Z.of_nat (length (acks_of evs)) /\
    (size = 0 -> Z.of_nat (length (acks_of evs)) = 2 ^ 32).
Proof.
  unfold Sw.AT24Cxx_Read.
  destruct (AT24Cxx_SetWordAddress (Sw.dev st) saddr) as [dev' msz].
  match goal with
  | |- context [Sw.send_address ?s ?m ?a ?r] =>
      destruct (send_address_log s m a r) as (e1 & Hl1 & Ha1 & Hs1 & Hd1);
      destruct (Sw.send_address s m a r) as [rsp1 s1]
  end.
  cbn [snd] in *. unfold Sw.raddr, Sw.strt at 1. cbn [Sw.dev Sw.world Sw.log].
  destruct (Sw.swi2c_raddr _ _ _) as [r2 w2].
  match goal with
  | |- context [Sw.Read_loop ?n ?s ?j ?d] =>
      destruct (Read_loop_log n s j d) as (e2 & Hl2 & Ha2 & Hs2 & Hd2);
      destruct (Sw.Read_loop n s j d) as [[i3 d3] s3]
  end.
  cbn [snd Sw.log] in *. unfold Sw.rbyte.
  destruct (Sw.swi2c_rbyte _ _ _) as [r4 w4].
  cbn [snd Sw.stop Sw.log Sw.dev Sw.world].
  unfold Sw.strt in *. cbn [Sw.log Sw.dev Sw.world] in *.
  rewrite Hl2, Hl1.
  rewrite <- !app_assoc. eexists. split; [reflexivity|].
  match goal with
  | |- acks_of ?e = _ /\ _ =>
      assert (Hacks : acks_of e
                      = repeat Sw.ACK (Z.to_nat (uint32_t (size - 1))) ++ [Sw.NACK])
  end.
  { unfold acks_of in *. rewrite !flat_map_app, Ha1, Ha2. reflexivity. }
  split; [exact Hacks|]. split.
  { unfold stops_of in *. rewrite !filter_app, !length_app, Hs1, Hs2. reflexivity. }
  rewrite Hacks, length_app, repeat_length. cbn [length].
  pose proof (Z.mod_pos_bound (size - 1) (2 ^ 32) ltac:(lia)) as Hm.
  fold (uint32_t (size - 1)) in Hm.
  split; [lia|]. intros ->.
  change (uint32_t (0 - 1)) with (2 ^ 32 - 1). lia.
Qed.

Section ReadbackLog.
Context {W : Type}.

(** The one transaction a Read of the block-transport build logs. *)
Lemma Read_log (st : Hw.state W) (saddr : Z) (buf : list Z) (size : Z) :
  exists c,
    Hw.log (snd (Hw.AT24Cxx_Read st saddr buf size)) = Hw.log st ++ [c] /\
    reads_of [c] = [(saddr, size)] /\ chunks_of [c] = [].
Proof.
  unfold Hw.AT24Cxx_Read.
  destruct (AT24Cxx_SetWordAddress (Hw.dev st) saddr) as [dev' msz].
  destruct (Hw.rmem (port dev') _ _ _ _ _ _) as [[r b] w'].
  eexists. cbn [snd Hw.log]. split; [reflexivity|]. split; reflexivity.
Qed.

Lemma reads_of_app (l1 l2 : list Hw.hw_call) :
  reads_of (l1 ++ l2) = reads_of l1 ++ reads_of l2.
Proof. unfold reads_of. apply flat_map_app. Qed.

(** The reads of a chunk loop that runs to its end: one of
    [AT24Cxx_MAX_COMPARE_SIZE] bytes for every chunk from [i] on. *)
Lemma Readback_loop_reads (fuel : nat) :
  forall (st : Hw.state W) i quotient addr data compare_data i' c' st',
    0 <= i <= quotient -> quotient <= 255 -> 0 <= addr < 2 ^ 16 ->
    Hw.Readback_loop fuel st i quotient addr data compare_data
    = Done (inr (i', c', st')) ->
    i' = quotient /\
    exists calls,
      Hw.log st' = Hw.log st ++ calls /\
      reads_of calls
      = map (fun k => (addr + 10 * Z.of_nat k, 10))
            (seq (Z.to_nat i) (Z.to_nat (quotient - i))).
Proof.
  induction fuel as [|fuel IH]; intros st i q addr data cmp i' c' st' Hi Hq Ha Hrun.
  - cbn [Hw.Readback_loop] in Hrun. destruct (Z.ltb_spec i q); [discriminate|].
    injection Hrun as <- <- <-. split; [lia|]. exists []. rewrite app_nil_r.
    replace (q - i) with 0 by lia. auto.
  - cbn [Hw.Readback_loop] in Hrun. destruct (Z.ltb_spec i q).
    2:{ injection Hrun as <- <- <-. split; [lia|]. exists []. rewrite app_nil_r.
        replace (q - i) with 0 by lia. auto. }
    unfold AT24Cxx_MAX_COMPARE_SIZE in Hrun.
    rewrite (uint16_small (i * 10)), (uint32_small (addr + i * 10)) in Hrun by lia.
    destruct (Read_log st (addr + i * 10) cmp 10) as (c & Hlog & Hrd & _).
    destruct (Hw.AT24Cxx_Read st (addr + i * 10) cmp 10) as [[r c1] s].
    cbn [snd] in Hlog.
    destruct (mismatch data (i * 10) c1 10); [discriminate|].
    rewrite uint8_small in Hrun by lia.
    apply IH in Hrun; try lia.
    destruct Hrun as (-> & calls & Hlog' & Hrds). split; [reflexivity|].
    exists (c :: calls). rewrite Hlog', Hlog, <- app_assoc. split; [reflexivity|].
    change (c :: calls) with ([c] ++ calls). rewrite reads_of_app, Hrd, Hrds.
    replace (Z.to_nat (q - i)) with (S (Z.to_nat (q - (i + 1)))) by lia.
    cbn [seq map app]. f_equal; [f_equal; lia|].
    f_equal. f_equal. lia.
Qed.

End ReadbackLog.

(** The reads of an [AT24Cxx_Readback_Write] that reports success: one of
    [AT24Cxx_MAX_COMPARE_SIZE] bytes for each full chunk, in order, and one
    more for the [size % AT24Cxx_MAX_COMPARE_SIZE] bytes that remain, which
    is issued even when nothing remains (a read of length 0). *)
Theorem Readback_Write_reads {W} (fuel : nat) (st st' : Hw.state W)
  (addr size : Z) (data compare_data0 : list Z) :
  0 <= addr < 2 ^ 16 -> 0 <= size < 2 ^ 16 ->
  size / AT24Cxx_MAX_COMPARE_SIZE <= 255 ->
  Hw.AT24Cxx_Readback_Write fuel st addr data size compare_data0 = Done (0, st') ->
  exists calls,
    Hw.log st' = Hw.log st ++ calls /\
    reads_of calls
    = map (fun k => (addr + 10 * Z.of_nat k, 10)) (seq 0 (Z.to_nat (size / 10)))
      ++ [(addr + 10 * (size / 10), size mod 10)].
Proof.
  intros Ha Hs Hq Hrun.
  unfold Hw.AT24Cxx_Readback_Write, Hw.AT24Cxx_Write in Hrun.
  destruct (Hw.Write_loop fuel st addr _ size data 0) as [[r s1]| |] eqn:Hwr;
    try discriminate.
  apply Write_loop_Done in Hwr. destruct Hwr as (wcalls & Hlog1 & Hrd1 & _).
  unfold AT24Cxx_MAX_COMPARE_SIZE in *.
  pose proof (Z.div_mod size 10 ltac:(lia)) as Hdm.
  pose proof (Z.mod_pos_bound size 10 ltac:(lia)) as Hm.
  assert (Hq0 : 0 <= size / 10) by (apply Z.div_pos; lia).
  rewrite (uint16_small (size / 10)), (uint8_small (size mod 10)) in Hrun by lia.
  destruct (Hw.Readback_loop fuel s1 0 (size / 10) addr data compare_data0)
    as [[s2|[[i c] s2]]| |] eqn:Hloop; try discriminate.
  apply Readback_loop_reads in Hloop; try lia.
  destruct Hloop as (-> & lcalls & Hlog2 & Hrd2).
  assert (Hpoint : (if size / 10 >? 0 then uint16_t (size / 10 * 10) else 0)
                   = 10 * (size / 10)).
  { destruct (Z.gtb_spec (size / 10) 0); [|lia]. rewrite uint16_small by lia. lia. }
  rewrite Hpoint, uint32_small in Hrun by lia.
  destruct (Read_log s2 (addr + 10 * (size / 10)) c (size mod 10)) as (c3 & Hlog3 & Hrd3 & _).
  destruct (Hw.AT24Cxx_Read s2 (addr + 10 * (size / 10)) c (size mod 10)) as [[r3 b3] s3].
  cbn [snd] in Hlog3.
  destruct (mismatch data _ b3 _); [discriminate|].
  injection Hrun as <-.
  exists (wcalls ++ lcalls ++ [c3]).
  rewrite Hlog3, Hlog2, Hlog1, <- !app_assoc. split; [reflexivity|].
  rewrite !reads_of_app, Hrd1, Hrd2, Hrd3. cbn [app].
  now rewrite Z.sub_0_r.
Qed.

Lemma Readback_Write_reads_witness :
  exists calls,
    Hw.log
      (Hw.mkState (configured (eeprom 0 0) AT24C02 0xA 0)
         ([0; 0; 0; 0; 1; 2; 3; 4; 5; 6; 7; 8; 9; 10; 11; 12; 13; 14; 15; 16;
           17; 18; 19; 20] ++ repeat 0 8)
         [Hw.WMem 0xA0 4 1 [1; 2; 3; 4] 4 0;
          Hw.WMem 0xA0 8 1 [5; 6; 7; 8; 9; 10; 11; 12] 8 0;
          Hw.WMem 0xA0 16 1 [13; 14; 15; 16; 17; 18; 19; 20] 8 0;
          Hw.RMem 0xA0 4 1 10 0; Hw.RMem 0xA0 14 1 10 0; Hw.RMem 0xA0 24 1 0 0])
    = [] ++ calls /\
    reads_of calls
    = map (fun k => (4 + 10 * Z.of_nat k, 10)) (seq 0 (Z.to_nat (20 / 10)))
      ++ [(4 + 10 * (20 / 10), 20 mod 10)].
Proof.
  apply (Readback_Write_reads 20
           (Hw.init (configured (eeprom 0 0) AT24C02 0xA 0) (repeat 0 32)) _
           4 20 [1; 2; 3; 4; 5; 6; 7; 8; 9; 10; 11; 12; 13; 14; 15; 16; 17; 18; 19; 20]
           (repeat 0 10)).
  - lia.
  - lia.
  - apply quotient_bound. lia.
  - vm_compute. reflexivity.
Defined.


(** * The two builds side by side *)

(** The encoder reads nothing but the info of the handle. *)
Lemma SetWordAddress_info {P Q} (d1 : at24cxx_t P) (d2 : at24cxx_t Q) (addr : Z) :
  info d1 = info d2 ->
  info (fst (AT24Cxx_SetWordAddress d1 addr)) = info (fst (AT24Cxx_SetWordAddress d2 addr)) /\
  snd (AT24Cxx_SetWordAddress d1 addr) = snd (AT24Cxx_SetWordAddress d2 addr).
Proof.
  destruct d1 as [i1 p1], d2 as [i2 p2]. cbn [info]. intros ->.
  destruct i2 as [t b ps]. destruct t; split; reflexivity.
Qed.

Section SwBytes.
Context {W : Type}.

Lemma send_address_bytes (st : Sw.state W) (memaddr_size a rsp : Z) :
  exists evs,
    Sw.log (snd (Sw.send_address st memaddr_size a rsp)) = Sw.log st ++ evs /\
    sw_bytes evs = i2caddr (info (Sw.dev st)) :: word_address_bytes a memaddr_size /\
    stops_of evs = 0%nat /\
    Sw.dev (snd (Sw.send_address st memaddr_size a rsp)) = Sw.dev st.
Proof.
  unfold Sw.send_address, Sw.waddr, Sw.wbyte, word_address_bytes.
  destruct (memaddr_size =? 1);
    repeat (cbn [snd Sw.log Sw.dev Sw.world];
            match goal with
            | |- context [Sw.swi2c_waddr ?p ?b ?w] => destruct (Sw.swi2c_waddr p b w)
            | |- context [Sw.swi2c_wbyte ?p ?b ?w] => destruct (Sw.swi2c_wbyte p b w)
            end);
    cbn [snd Sw.log Sw.dev Sw.world];
    rewrite <- ?app_assoc; eexists; (split; [reflexivity|]); auto.
Qed.

Lemma send_data_bytes (n : nat) :
  forall (st : Sw.state W) data rsp,
    exists evs,
      Sw.log (snd (Sw.send_data n st data rsp)) = Sw.log st ++ evs /\
      ((n <= length data)%nat -> sw_bytes evs = firstn n data) /\
      stops_of evs = 0%nat /\
      Sw.dev (snd (Sw.send_data n st data rsp)) = Sw.dev st /\
      snd (fst (Sw.send_data n st data rsp)) = skipn n data.
Proof.
  induction n as [|n IH]; intros st data rsp.
  - exists []. simpl. rewrite app_nil_r. auto.
  - cbn [Sw.send_data]. unfold Sw.wbyte.
    destruct (Sw.swi2c_wbyte _ _ _) as [r w].
    match goal with
    | |- context [Sw.send_data n ?s ?d ?r] =>
        destruct (IH s d r) as (evs & Hlog & Hb & Hs & Hd & Hrest)
    end.
    eexists (_ :: evs). rewrite Hlog, Hd, Hrest. cbn [Sw.log Sw.dev].
    rewrite <- app_assoc. split; [reflexivity|].
    split; [|split; [exact Hs|split; [reflexivity|]]].
    + intros Hlen. destruct data as [|v data]; [cbn [length] in Hlen; lia|].
      cbn [sw_bytes flat_map app hd tl firstn length] in *.
      f_equal. apply Hb. lia.
    + destruct data; [now rewrite skipn_nil|reflexivity].
Qed.

End SwBytes.

Lemma sw_bytes_app (l1 l2 : list Sw.sw_event) :
  sw_bytes (l1 ++ l2) = sw_bytes l1 ++ sw_bytes l2.
Proof. unfold sw_bytes. apply flat_map_app. Qed.

Lemma stops_of_app (l1 l2 : list Sw.sw_event) :
  stops_of (l1 ++ l2) = (stops_of l1 + stops_of l2)%nat.
Proof. unfold stops_of. now rewrite filter_app, length_app. Qed.

Section Builds.
Context {W1 W2 : Type}.

(** The page loops of the two builds run in step: for every transaction the
    block build hands its transport, the bit-level build sends one frame
    with the same device-address byte, word address and data, closed by
    one stop condition. *)
Lemma Write_loops_agree (fuel : nat) :
  forall (st1 : Hw.state W1) (st2 : Sw.state W2) i RemainSize data rsp1 rsp2,
    info (Hw.dev st1) = info (Sw.dev st2) ->
    0 < pagesize (info (Hw.dev st1)) < 2 ^ 16 ->
    0 <= i -> 0 <= RemainSize -> i + RemainSize < 2 ^ 32 ->
    (Z.to_nat RemainSize <= length data)%nat ->
    (Z.to_nat RemainSize <= fuel)%nat ->
    exists r1 s1 r2 s2 calls evs,
      Hw.Write_loop fuel st1 i (i + RemainSize) RemainSize data rsp1 = Done (r1, s1) /\
      Sw.Write_loop fuel st2 i (i + RemainSize) RemainSize data rsp2 = Done (r2, s2) /\
      Hw.log s1 = Hw.log st1 ++ calls /\
      Sw.log s2 = Sw.log st2 ++ evs /\
      sw_bytes evs = frame_bytes calls /\
      stops_of evs = length calls.
Proof.
  induction fuel as [|fuel IH];
    intros st1 st2 i R data rsp1 rsp2 Hinfo Hp Hi Hr Hend Hdata Hfuel.
  - assert (R = 0) by lia. subst R. cbn [Hw.Write_loop Sw.Write_loop].
    rewrite Z.add_0_r, Z.ltb_irrefl.
    exists rsp1, st1, rsp2, st2, [], []. rewrite !app_nil_r. auto 10.
  - cbn [Hw.Write_loop Sw.Write_loop]. destruct (Z.ltb_spec i (i + R)).
    2:{ exists rsp1, st1, rsp2, st2, [], []. rewrite !app_nil_r. auto 10. }
    rewrite <- Hinfo.
    destruct (Z.eqb_spec (pagesize (info (Hw.dev st1))) 0); [lia|].
    destruct (page_step _ i R Hp Hi ltac:(lia) Hend) as (Hs & Hsp & Hi' & Hr').
    pose proof (SetWordAddress_info (Hw.dev st1) (Sw.dev st2) i Hinfo) as (Hinfo' & Hm).
    pose proof (SetWordAddress_same_handle (Hw.dev st1) i) as (_ & Ps & _).
    destruct (AT24Cxx_SetWordAddress (Hw.dev st1) i) as [d1 m1].
    destruct (AT24Cxx_SetWordAddress (Sw.dev st2) i) as [d2 m2].
    cbn [fst snd] in *. subst m2. cbv zeta.
    set (size := min R (uint16_t (pagesize (info (Hw.dev st1))
                                  - i mod pagesize (info (Hw.dev st1))))) in *.
    destruct (Hw.wmem (port d1) _ _ _ _ _ _) as [r w'].
    match goal with
    | |- context [Sw.send_address ?s ?m ?a ?r] =>
        destruct (send_address_bytes s m a r) as (e1 & Hl1 & Hb1 & Hs1 & Hd1);
        destruct (Sw.send_address s m a r) as [rs1 t1]
    end.
    cbn [snd] in *.
    match goal with
    | |- context [Sw.send_data ?n ?s ?d ?r] =>
        destruct (send_data_bytes n s d r) as (e2 & Hl2 & Hb2 & Hs2 & Hd2 & Hrest);
        destruct (Sw.send_data n s d r) as [[rs2 rest] t2]
    end.
    cbn [fst snd] in *. subst rest. rewrite Hi', Hr'.
    replace (i + R) with (i + size + (R - size)) by lia.
    match goal with
    | |- context [Hw.Write_loop fuel ?a1 _ _ _ _ ?b1] =>
        match goal with
        | |- context [Sw.Write_loop fuel ?a2 _ _ _ _ ?b2] =>
            destruct (IH a1 a2 (i + size) (R - size) (skipn (Z.to_nat size) data) b1 b2)
              as (r1 & s1 & r2 & s2 & calls & evs & Hrun1 & Hrun2 & Hlog1 & Hlog2 & Hb & Hst)
        end
    end; cbn [Hw.dev Sw.dev Sw.stop]; try rewrite Ps; try lia.
    { rewrite Hd2, Hd1. cbn [Sw.strt Sw.dev]. exact Hinfo'. }
    { rewrite length_skipn. lia. }
    exists r1, s1, r2, s2. eexists (_ :: calls), _.
    split; [exact Hrun1|]. split; [exact Hrun2|].
    cbn [Hw.log Sw.log Sw.stop Sw.strt Sw.dev] in *.
    rewrite Hlog1, Hlog2, Hl2, Hl1, <- !app_assoc.
    split; [reflexivity|]. split; [reflexivity|].
    rewrite !sw_bytes_app, !stops_of_app, Hb1, Hb2, Hb, Hs1, Hs2, Hst, Hinfo' by lia.
    cbn [sw_bytes stops_of frame_bytes flat_map filter app length Nat.add].
    split; [|reflexivity]. now rewrite <- !app_assoc.
Qed.

End Builds.

(** The two builds put the same bytes on the bus: for a Write that does
    not wrap, from handles with the same info, the bit-level build sends,
    frame by frame, the device-address byte, the word address and the data
    bytes that the block-transport build hands to [wmem], and closes each
    frame with one stop condition. *)
Theorem builds_send_same_bytes {W1 W2} (fuel : nat)
  (st1 : Hw.state W1) (st2 : Sw.state W2) (saddr size : Z) (data : list Z) :
  info (Hw.dev st1) = info (Sw.dev st2) ->
  1 <= pagesize (info (Hw.dev st1)) < 2 ^ 16 ->
  0 <= saddr -> 0 <= size -> saddr + size < 2 ^ 32 ->
  (Z.to_nat size <= length data)%nat ->
  (Z.to_nat size <= fuel)%nat ->
  exists r1 s1 r2 s2 calls evs,
    Hw.AT24Cxx_Write fuel st1 saddr data size = Done (r1, s1) /\
    Sw.AT24Cxx_Write fuel st2 saddr data size = Done (r2, s2) /\
    Hw.log s1 = Hw.log st1 ++ calls /\
    Sw.log s2 = Sw.log st2 ++ evs /\
    sw_bytes evs = frame_bytes calls /\
    stops_of evs = length calls.
Proof.
  intros Hinfo Hp Ha Hs Hend Hdata Hfuel.
  unfold Hw.AT24Cxx_Write, Sw.AT24Cxx_Write. rewrite uint32_small by lia.
  apply Write_loops_agree; try assumption; lia.
Qed.

Lemma builds_send_same_bytes_witness :
  exists r1 s1 r2 s2 calls evs,
    Hw.AT24Cxx_Write 6 (Hw.init (configured null_bus AT24C16 0xA 0) tt)
                     0x2FD [1; 2; 3; 4; 5; 6] 6 = Done (r1, s1) /\
    Sw.AT24Cxx_Write 6 (Sw.init (configured counting_bus AT24C16 0xA 0) 0)
                     0x2FD [1; 2; 3; 4; 5; 6] 6 = Done (r2, s2) /\
    Hw.log s1 = [] ++ calls /\
    Sw.log s2 = [] ++ evs /\
    sw_bytes evs = frame_bytes calls /\
    stops_of evs = length calls.
Proof.
  apply (builds_send_same_bytes 6
           (Hw.init (configured null_bus AT24C16 0xA 0) tt)
           (Sw.init (configured counting_bus AT24C16 0xA 0) 0)
           0x2FD 6 [1; 2; 3; 4; 5; 6]); try (simpl; lia).
  - reflexivity.
  - change (1 <= 16 < 2 ^ 16). lia.
Defined.


(** * Erase on a chip that rolls over *)

Lemma store_nth_other (m : list Z) (i j : nat) (v : Z) :
  i <> j -> nth j (store m i v) 0 = nth j m 0.
Proof.
  revert i j. induction m as [|h m IH]; intros [|i] [|j] Hne; simpl; auto; try lia.
Qed.

(** A block written into a chip that rolls over stays in the page of its
    address: the other pages keep their bytes. *)
Lemma paged_write_other (page : Z) (d : list Z) :
  0 < page ->
  forall m a k j,
    0 <= a -> 0 <= k -> Z.of_nat j / page <> a / page ->
    nth j (paged_write page m a k d) 0 = nth j m 0.
Proof.
  intros Hp. induction d as [|v d IH]; intros m a k j Ha Hk Hj; [reflexivity|].
  cbn [paged_write]. rewrite IH by lia. apply store_nth_other.
  intros E. apply Hj. rewrite <- E.
  pose proof (Z.mod_pos_bound a page Hp) as Hm.
  pose proof (Z.mod_pos_bound (a mod page + k) page Hp) as Hm'.
  pose proof (Z.mod_le a page Ha Hp) as Hle.
  assert (Hw : 0 <= page_wrap page a k) by (unfold page_wrap; lia).
  rewrite Z2Nat.id by exact Hw. unfold page_wrap.
  pose proof (Z.div_mod a page ltac:(lia)) as Hdm.
  symmetry. apply Z.div_unique with (r := (a mod page + k) mod page); lia.
Qed.

(** On a chip that rolls over within pages of more than 10 bytes that are
    no multiple of 10 (every model from AT24C04 on), the block-transport
    Erase does not erase what it is asked to: the 10 bytes at the last
    multiple of 10 below the first page boundary go out as one block, and
    the byte at the boundary, inside the requested range, keeps its old
    value. *)
Theorem Erase_misses_page_boundary (fuel : nat) (st : Hw.state (list Z))
  (wsta rsta fdata : Z) (fbuf0 : list Z) :
  port (Hw.dev st) = eeprom_paged (pagesize (info (Hw.dev st))) wsta rsta ->
  10 < pagesize (info (Hw.dev st)) < 2 ^ 16 ->
  pagesize (info (Hw.dev st)) mod 10 <> 0 ->
  (1 <= fuel)%nat ->
  exists rsp st',
    Hw.AT24Cxx_Erase fuel st (10 * (pagesize (info (Hw.dev st)) / 10)) fdata 10 fbuf0
    = Done (rsp, st') /\
    10 * (pagesize (info (Hw.dev st)) / 10) <= pagesize (info (Hw.dev st))
    < 10 * (pagesize (info (Hw.dev st)) / 10) + 10 /\
    nth (Z.to_nat (pagesize (info (Hw.dev st)))) (Hw.world st') 0
    = nth (Z.to_nat (pagesize (info (Hw.dev st)))) (Hw.world st) 0.
Proof.
  intros Hport Hps Hnd Hfuel.
  set (ps := pagesize (info (Hw.dev st))) in *.
  set (saddr := 10 * (ps / 10)).
  destruct fuel as [|fuel]; [lia|].
  pose proof (Z.div_mod ps 10 ltac:(lia)) as Hdm.
  pose proof (Z.mod_pos_bound ps 10 ltac:(lia)) as Hm.
  fold ps in Hport, Hps, Hnd.
  assert (Ha : 0 <= saddr < ps) by (subst saddr; lia).
  assert (Ha0 : saddr mod 10 = 0).
  { subst saddr. rewrite Z.mul_comm. apply Z.mod_mul. lia. }
  unfold Hw.AT24Cxx_Erase. rewrite erase_size_val by (fold ps; lia). fold ps.
  change (Z.max 8 AT24Cxx_MAX_ERASE_SIZE) with 10.
  rewrite (Z.min_l 10 ps) by lia. rewrite uint32_small by lia.
  cbn [Hw.Erase_loop]. destruct (Z.ltb_spec saddr (saddr + 10)); [|lia].
  change (10 =? 0) with false. cbv iota. rewrite Ha0.
  change (uint16_t (10 - 0)) with 10. change (min 10 10) with 10.
  change (uint32_t (10 - 10)) with 0. rewrite uint32_small by lia.
  pose proof (SetWordAddress_same_handle (Hw.dev st) saddr) as (_ & _ & Q & _).
  destruct (AT24Cxx_SetWordAddress (Hw.dev st) saddr) as [dev' msz].
  cbn [fst] in Q. cbv zeta. rewrite Q, Hport. cbn [eeprom_paged Hw.wmem].
  assert (Hend : forall (s : Hw.state (list Z)) b r,
             Hw.Erase_loop fuel s (saddr + 10) (saddr + 10) 0 10 b r = Done (r, s)).
  { intros s b r. destruct fuel; cbn [Hw.Erase_loop]; now rewrite Z.ltb_irrefl. }
  rewrite Hend. eexists _, _. split; [reflexivity|]. split; [lia|].
  cbn [Hw.world]. apply paged_write_other; try lia.
  rewrite Z2Nat.id by lia.
  rewrite Z.div_same, (Z.div_small saddr ps) by lia. lia.
Qed.

Lemma Erase_misses_page_boundary_witness :
  exists rsp st',
    Hw.AT24Cxx_Erase 1
      (Hw.init (configured (eeprom_paged 16 0 0) AT24C04 0xA 0) (repeat 0 32))
      (10 * (16 / 10)) 0xFF 10 (repeat 0 10) = Done (rsp, st') /\
    10 * (16 / 10) <= 16 < 10 * (16 / 10) + 10 /\
    nth (Z.to_nat 16) (Hw.world st') 0 = nth (Z.to_nat 16) (repeat 0 32) 0.
Proof.
  apply (Erase_misses_page_boundary 1
           (Hw.init (configured (eeprom_paged 16 0 0) AT24C04 0xA 0) (repeat 0 32))
           0 0 0xFF (repeat 0 10)).
  - reflexivity.
  - change (10 < 16 < 2 ^ 16). lia.
  - change (16 mod 10 <> 0). discriminate.
  - lia.
Defined.
